(** * email-sender: the bulk campaign dispatch pipeline

    A shallow embedding of
      - backend/src/services/bulkEmailSender.js  (template renderer, dispatcher),
      - backend/src/services/progressTracker.js  (progress aggregator),
      - backend/src/utils/emailService.js        (transport wrapper),
      - backend/src/routes/campaigns.js          (POST /api/campaigns/:id/send),
    over the tables of database/init.sql, and the properties of the
    pipeline proved (or refuted) on it.

    Around the pipeline it also embeds the timing, the timeline and the
    recent activity of progressTracker.js, the routes of campaigns.js
    that read and delete a campaign together with the order in which the
    router tries them, and the recipient files of
    backend/src/utils/csvParser.js. *)

From Stdlib Require Import ZArith QArith Qround Qpower Lqa Ascii String List
  Lia DecimalString.
From stdpp Require Import base option list sorting gmap strings.

Local Open Scope string_scope.
Local Open Scope list_scope.
Local Open Scope Z_scope.

(* ===================================================================== *)
(** * JavaScript values, errors and strings *)
(* ===================================================================== *)

(** The values a template or a field can hold: recipient fields come from
    CSV cells and JSON, so they are strings, [null] or absent. *)
Inductive jsval : Type :=
  | JUndefined
  | JNull
  | JString (s : string).

#[global] Instance jsval_eq_dec : EqDecision jsval.
Proof. solve_decision. Defined.

(** [!v] *)
Definition falsy (v : jsval) : bool :=
  match v with
  | JString s => if string_dec s "" then true else false
  | _ => true
  end.

(** [value || ''] followed by the string coercion of [replace]. *)
Definition or_empty (v : jsval) : string :=
  match v with
  | JString s => s
  | _ => ""
  end.

(** An asynchronous call either resolves or rejects with [new Error(message)]. *)
Inductive outcome (A : Type) : Type :=
  | Ok (a : A)
  | Throw (message : string).
Arguments Ok {A} a.
Arguments Throw {A} message.

(** The double quote, as a one-character string. *)
Definition dquote : string := String (ascii_of_nat 34) "".

Module Str.

(** [strip_prefix p s] is [Some rest] when [s = p ++ rest]. *)
Fixpoint strip_prefix (p s : string) : option string :=
  match p with
  | EmptyString => Some s
  | String a p' =>
      match s with
      | String b s' => if Ascii.eqb a b then strip_prefix p' s' else None
      | EmptyString => None
      end
  end.

(** Greedy [[^}]*]: the length of the longest run of characters other
    than the closing brace, and what follows it. *)
Fixpoint span_not_close (s : string) : nat * string :=
  match s with
  | String c s' =>
      if Ascii.eqb c "}" then (O, s)
      else let '(n, r) := span_not_close s' in (S n, r)
  | EmptyString => (O, s)
  end.

Fixpoint mem (c : ascii) (s : string) : bool :=
  match s with
  | String d s' => Ascii.eqb c d || mem c s'
  | EmptyString => false
  end.

Fixpoint all (p : ascii -> bool) (s : string) : bool :=
  match s with
  | String c s' => p c && all p s'
  | EmptyString => true
  end.

End Str.

(* ===================================================================== *)
(** * Regular expressions and [String.prototype.replace] *)
(* ===================================================================== *)

Module RegExp.

(** A compiled pattern, seen from [replace]: tried at a position, it
    yields the matched text and the text after the match.  Both patterns
    of the renderer match at least four characters, so the search always
    resumes after the match. *)
Definition matcher := string -> option (string * string).

(** The characters with a meaning of their own in a pattern. *)
Definition syntax_chars : string := "\^$.|?*+()[]{}".

(** A key made of ordinary characters denotes itself in a pattern. *)
Definition literal (key : string) : bool :=
  Str.all (fun c => negb (Str.mem c syntax_chars)) key.

(** [new RegExp(`\\{\\{${key}\\}\\}`, 'g')] for a literal key: the text
    of the token, two opening braces, the key, two closing braces. *)
Definition token (key : string) : string := "{{" +:+ key +:+ "}}".

Definition token_matcher (key : string) : matcher :=
  fun s =>
    match Str.strip_prefix (token key) s with
    | Some rest => Some (token key, rest)
    | None => None
    end.

(** [/\{\{[^}]+\}\}/g]: two opening braces, one or more characters
    other than a closing brace, two closing braces.  The run is greedy,
    and giving characters back cannot help: the character after a
    shorter run is not a closing brace. *)
Definition placeholder_matcher : matcher :=
  fun s =>
    match s with
    | String a (String b t) =>
        if Ascii.eqb a "{" && Ascii.eqb b "{" then
          let '(n, u) := Str.span_not_close t in
          match n, u with
          | S _, String c (String d rest) =>
              if Ascii.eqb c "}" && Ascii.eqb d "}"
              then Some (substring 0 (n + 4) s, rest)
              else None
          | _, _ => None
          end
        else None
    | _ => None
    end.

(** GetSubstitution for a pattern without capture groups: [$$] is a
    dollar, [$&] the matched text, [$`] the text before the match, [$']
    the text after it; every other character, a dollar before anything
    else included, stands for itself. *)
Fixpoint expand (repl before matched after : string) : string :=
  match repl with
  | EmptyString => ""
  | String c r =>
      if Ascii.eqb c "$" then
        match r with
        | String d r' =>
            if Ascii.eqb d "$" then String "$" (expand r' before matched after)
            else if Ascii.eqb d "&" then matched +:+ expand r' before matched after
            else if Ascii.eqb d "`" then before +:+ expand r' before matched after
            else if Ascii.eqb d "'" then after +:+ expand r' before matched after
            else String c (expand r before matched after)
        | EmptyString => String c (expand r before matched after)
        end
      else String c (expand r before matched after)
  end.

(** [s.replace(regex, repl)] with the [g] flag: scan from the left; at a
    match emit the expansion of [repl] and resume after the match,
    elsewhere copy one character.  [before] is the text already scanned. *)
Fixpoint replace_from (fuel : nat) (m : matcher) (repl before s : string) : string :=
  match fuel with
  | O => s
  | S fuel' =>
      match m s with
      | Some (matched, rest) =>
          expand repl before matched rest
            +:+ replace_from fuel' m repl (before +:+ matched) rest
      | None =>
          match s with
          | String c s' =>
              String c (replace_from fuel' m repl (before +:+ String c "") s')
          | EmptyString => ""
          end
      end
  end.

Definition replace (m : matcher) (repl s : string) : string :=
  replace_from (String.length s) m repl "" s.

End RegExp.

(* ===================================================================== *)
(** * Template renderer (bulkEmailSender.js, replaceTemplateVariables) *)
(* ===================================================================== *)

(** [Object.entries(data)]: the own properties in enumeration order. *)
Definition entries : Type := list (string * jsval).

Section Renderer.

(** [s.replace(new RegExp(pattern, 'g'), repl)] for a pattern that is
    not plain text: what the engine of the host makes of a key with
    syntax characters, a [SyntaxError] included. *)
Variable engine_replace : string -> string -> string -> outcome string.

(** One turn of the loop over the entries. *)
Definition replace_key (key : string) (value : jsval) (result : string)
  : outcome string :=
  if RegExp.literal key
  then Ok (RegExp.replace (RegExp.token_matcher key) (or_empty value) result)
  else engine_replace ("\{\{" +:+ key +:+ "\}\}") (or_empty value) result.

Fixpoint replace_keys (data : entries) (result : string) : outcome string :=
  match data with
  | [] => Ok result
  | (key, value) :: data' =>
      match replace_key key value result with
      | Ok result' => replace_keys data' result'
      | Throw e => Throw e
      end
  end.

Definition replaceTemplateVariables (text : jsval) (data : entries)
  : outcome string :=
  if falsy text then Ok ""
  else
    match replace_keys data (or_empty text) with
    | Ok result => Ok (RegExp.replace RegExp.placeholder_matcher "" result)
    | Throw e => Throw e
    end.

End Renderer.

Definition no_engine : string -> string -> string -> outcome string :=
  fun _ _ _ => Throw "SyntaxError".

(** What the clean-up pattern finds at the head of [s]: two opening
    braces, one or more characters other than a closing brace (opening
    braces are among them), two closing braces; [rest] is the text after
    the match. *)
Definition matches_at (s rest : string) : Prop :=
  exists key,
    key <> "" /\ Str.mem "}" key = false /\ s = "{{" +:+ key +:+ "}}" +:+ rest.

(** [swept T R]: [R] is what the clean-up makes of [T], the matches of
    its pattern removed, reading from the left, and every other
    character kept. *)
Inductive swept : string -> string -> Prop :=
  | swept_end : swept "" ""
  | swept_placeholder s rest r :
      matches_at s rest -> swept rest r -> swept s r
  | swept_char c s r :
      (forall rest, ~ matches_at (String c s) rest) ->
      swept s r -> swept (String c s) (String c r).

(** ** The contract of the renderer, in the words of the specification

    Templates written as the specification describes them: text without
    opening braces, and placeholders [{{key}}]. *)
Module Template.

Inductive segment : Type :=
  | Text (s : string)
  | Hole (key : string).

Definition t : Type := list segment.

Fixpoint flatten (tpl : t) : string :=
  match tpl with
  | [] => ""
  | Text s :: tpl' => s +:+ flatten tpl'
  | Hole key :: tpl' => RegExp.token key +:+ flatten tpl'
  end.

(** [data[key]], the first entry with that very key. *)
Fixpoint lookup (key : string) (data : entries) : jsval :=
  match data with
  | [] => JUndefined
  | (k, v) :: data' => if String.eqb key k then v else lookup key data'
  end.

(** The rendering the specification asks for: each placeholder gives way
    to the value of its key, to nothing when the key is absent or its
    value is [null] or [undefined]. *)
Fixpoint fill (data : entries) (tpl : t) : string :=
  match tpl with
  | [] => ""
  | Text s :: tpl' => s +:+ fill data tpl'
  | Hole key :: tpl' => or_empty (lookup key data) +:+ fill data tpl'
  end.

Definition well_formed_segment (seg : segment) : Prop :=
  match seg with
  | Text s => Str.mem "{" s = false
  | Hole key => key <> "" /\ Str.mem "{" key = false /\ Str.mem "}" key = false
  end.

Definition well_formed (tpl : t) : Prop := Forall well_formed_segment tpl.

(** Keys of ordinary characters; values without dollar sign or opening
    brace. *)
Definition plain_field (kv : string * jsval) : Prop :=
  RegExp.literal (fst kv) = true
  /\ Str.mem "$" (or_empty (snd kv)) = false
  /\ Str.mem "{" (or_empty (snd kv)) = false.

Definition plain_fields (data : entries) : Prop := Forall plain_field data.

(** One turn of the loop, seen on the segments. *)
Definition subst (key value : string) (tpl : t) : t :=
  map (fun seg =>
         match seg with
         | Hole k => if String.eqb key k then Text value else seg
         | Text _ => seg
         end) tpl.

(** A well-formed placeholder at the head of [s]: the token of a key
    that is not empty and holds no brace; [rest] is the text after it. *)
Definition placeholder_at (s rest : string) : Prop :=
  exists key, well_formed_segment (Hole key) /\ s = RegExp.token key +:+ rest.

(** The longest run of characters other than braces at the head of [s],
    and the text after it. *)
Fixpoint key_span (s : string) : string * string :=
  match s with
  | String c s' =>
      if Ascii.eqb c "{" || Ascii.eqb c "}" then ("", s)
      else let '(key, rest) := key_span s' in (String c key, rest)
  | EmptyString => ("", "")
  end.

(** The text after the well-formed placeholder at the head of [s], when
    there is one. *)
Definition placeholder (s : string) : option string :=
  match s with
  | String a (String b t) =>
      if Ascii.eqb a "{" && Ascii.eqb b "{" then
        match key_span t with
        | (String _ _, String c (String d rest)) =>
            if Ascii.eqb c "}" && Ascii.eqb d "}" then Some rest else None
        | _ => None
        end
      else None
  | _ => None
  end.

(** The rendering with no fields that the specification asks for: every
    well-formed placeholder is removed, and every other character, those
    of an unterminated token among them, is left as it is. *)
Fixpoint strip_from (fuel : nat) (s : string) : string :=
  match fuel with
  | O => s
  | S fuel' =>
      match placeholder s with
      | Some rest => strip_from fuel' rest
      | None =>
          match s with
          | String c s' => String c (strip_from fuel' s')
          | EmptyString => ""
          end
      end
  end.

Definition strip (T : string) : string := strip_from (String.length T) T.

End Template.

(* ===================================================================== *)
(** * JavaScript objects *)
(* ===================================================================== *)

Module Obj.

(** An object with string keys: its properties in insertion order, each
    key once. *)
Definition t : Type := list (string * jsval).

(** [o[k]] *)
Fixpoint get (k : string) (o : t) : jsval :=
  match o with
  | [] => JUndefined
  | (k', v) :: o' => if String.eqb k k' then v else get k o'
  end.

(** [o[k] = v]: an existing property keeps its place. *)
Fixpoint set (k : string) (v : jsval) (o : t) : t :=
  match o with
  | [] => [(k, v)]
  | (k', v') :: o' =>
      if String.eqb k k' then (k, v) :: o' else (k', v') :: set k v o'
  end.

(** [{ ...o, ...extra }] *)
Definition spread (o extra : t) : t :=
  fold_left (fun acc kv => set (fst kv) (snd kv) acc) extra o.

Definition digit (c : ascii) : option N :=
  let n := N_of_ascii c in
  if ((48 <=? n) && (n <=? 57))%N then Some (n - 48)%N else None.

Fixpoint decimal (s : string) (acc : N) : option N :=
  match s with
  | EmptyString => Some acc
  | String c s' =>
      match digit c with
      | Some d => decimal s' (10 * acc + d)%N
      | None => None
      end
  end.

(** A key that is an array index: the canonical numeral of an integer
    below 2^32 - 1. *)
Definition array_index (k : string) : option N :=
  match k with
  | EmptyString => None
  | String c rest =>
      if Ascii.eqb c "0" && negb (String.eqb rest "") then None
      else
        match decimal k 0%N with
        | Some n => if (n <? 4294967295)%N then Some n else None
        | None => None
        end
  end.

Fixpoint insert_index (x : N * (string * jsval)) (l : list (N * (string * jsval)))
  : list (N * (string * jsval)) :=
  match l with
  | [] => [x]
  | y :: l' => if (fst x <=? fst y)%N then x :: l else y :: insert_index x l'
  end.

Fixpoint index_props (o : t) : list (N * (string * jsval)) :=
  match o with
  | [] => []
  | kv :: o' =>
      match array_index (fst kv) with
      | Some n => insert_index (n, kv) (index_props o')
      | None => index_props o'
      end
  end.

(** [Object.entries(o)]: array indices in ascending order first, then the
    other keys in insertion order. *)
Definition entries (o : t) : entries :=
  map snd (index_props o)
    ++ List.filter (fun kv => negb (bool_decide (is_Some (array_index (fst kv))))) o.

End Obj.

(* ===================================================================== *)
(** * Tables (database/init.sql) *)
(* ===================================================================== *)

Module CampaignStatus.
Inductive t : Type := draft | queued | sending | completed | failed | cancelled.
#[global] Instance eq_dec : EqDecision t.
Proof. solve_decision. Defined.
Definition to_string (s : t) : string :=
  match s with
  | draft => "draft"
  | queued => "queued"
  | sending => "sending"
  | completed => "completed"
  | failed => "failed"
  | cancelled => "cancelled"
  end.
End CampaignStatus.

Module RecipientStatus.
Inductive t : Type := pending | sent | failed.
#[global] Instance eq_dec : EqDecision t.
Proof. solve_decision. Defined.
End RecipientStatus.

Module LogStatus.
Inductive t : Type := sent | failed | bounced.
End LogStatus.

(** TIMESTAMP columns and [Date] objects: milliseconds on the wall clock. *)
Definition timestamp : Type := Z.

Module Campaign.
Record t : Type := mk {
  user_id : Z;
  name : string;
  subject : string;
  email_body : string;
  html_body : option string;
  recipient_count : Z;
  sent_count : Z;
  failed_count : Z;
  status : CampaignStatus.t;
  started_at : option timestamp;
  completed_at : option timestamp;
  created_at : timestamp;
  updated_at : timestamp
}.

Definition set_status (s : CampaignStatus.t) (c : t) : t :=
  mk (user_id c) (name c) (subject c) (email_body c) (html_body c)
     (recipient_count c) (sent_count c) (failed_count c) s
     (started_at c) (completed_at c) (created_at c) (updated_at c).

Definition set_started_at (ts : option timestamp) (c : t) : t :=
  mk (user_id c) (name c) (subject c) (email_body c) (html_body c)
     (recipient_count c) (sent_count c) (failed_count c) (status c)
     ts (completed_at c) (created_at c) (updated_at c).

Definition set_completed_at (ts : option timestamp) (c : t) : t :=
  mk (user_id c) (name c) (subject c) (email_body c) (html_body c)
     (recipient_count c) (sent_count c) (failed_count c) (status c)
     (started_at c) ts (created_at c) (updated_at c).

Definition set_updated_at (ts : timestamp) (c : t) : t :=
  mk (user_id c) (name c) (subject c) (email_body c) (html_body c)
     (recipient_count c) (sent_count c) (failed_count c) (status c)
     (started_at c) (completed_at c) (created_at c) ts.

Definition set_sent_count (n : Z) (c : t) : t :=
  mk (user_id c) (name c) (subject c) (email_body c) (html_body c)
     (recipient_count c) n (failed_count c) (status c)
     (started_at c) (completed_at c) (created_at c) (updated_at c).

Definition set_failed_count (n : Z) (c : t) : t :=
  mk (user_id c) (name c) (subject c) (email_body c) (html_body c)
     (recipient_count c) (sent_count c) n (status c)
     (started_at c) (completed_at c) (created_at c) (updated_at c).
End Campaign.

Module Recipient.
Record t : Type := mk {
  campaign_id : Z;
  email : string;
  name : option string;
  custom_fields : option Obj.t;
  status : RecipientStatus.t;
  sent_at : option timestamp;
  error_message : option string;
  created_at : timestamp
}.

Definition set_status (s : RecipientStatus.t) (r : t) : t :=
  mk (campaign_id r) (email r) (name r) (custom_fields r) s
     (sent_at r) (error_message r) (created_at r).

Definition set_sent_at (ts : option timestamp) (r : t) : t :=
  mk (campaign_id r) (email r) (name r) (custom_fields r) (status r)
     ts (error_message r) (created_at r).

Definition set_error_message (e : option string) (r : t) : t :=
  mk (campaign_id r) (email r) (name r) (custom_fields r) (status r)
     (sent_at r) e (created_at r).
End Recipient.

Module EmailLog.
Record t : Type := mk {
  user_id : Z;
  campaign_id : Z;
  recipient_id : Z;
  recipient_email : string;
  subject : string;
  status : LogStatus.t;
  message_id : option string;
  error_message : option string;
  sent_at : timestamp;
  created_at : timestamp
}.
End EmailLog.

Module SmtpConfig.
Record t : Type := mk {
  gmail_address : string;
  app_password_encrypted : string;
  from_name : string
}.
End SmtpConfig.

(** The database: [campaigns] and [campaign_recipients] by primary key,
    [smtp_configs] by its unique [user_id], [email_logs] in insertion
    order. *)
Record db : Type := mkDb {
  campaigns : gmap Z Campaign.t;
  campaign_recipients : gmap Z Recipient.t;
  email_logs : list EmailLog.t;
  smtp_configs : gmap Z SmtpConfig.t
}.

Definition set_campaigns (cs : gmap Z Campaign.t) (d : db) : db :=
  mkDb cs (campaign_recipients d) (email_logs d) (smtp_configs d).
Definition set_campaign_recipients (rs : gmap Z Recipient.t) (d : db) : db :=
  mkDb (campaigns d) rs (email_logs d) (smtp_configs d).
Definition set_email_logs (ls : list EmailLog.t) (d : db) : db :=
  mkDb (campaigns d) (campaign_recipients d) ls (smtp_configs d).

(* ===================================================================== *)
(** * SQL statements of the pipeline *)
(* ===================================================================== *)

Module Sql.

(** [SELECT * FROM campaigns WHERE id = $1 AND user_id = $2]: no row or
    one, [id] being the primary key. *)
Definition select_campaign (campaignId userId : Z) (d : db) : option Campaign.t :=
  match campaigns d !! campaignId with
  | Some c => if bool_decide (Campaign.user_id c = userId) then Some c else None
  | None => None
  end.

Definition is_pending_of (campaignId : Z) (row : Z * Recipient.t) : Prop :=
  Recipient.campaign_id (snd row) = campaignId
  /\ Recipient.status (snd row) = RecipientStatus.pending.

#[global] Instance is_pending_of_dec campaignId row : Decision (is_pending_of campaignId row).
Proof. unfold is_pending_of. apply _. Defined.

Definition by_id (x y : Z * Recipient.t) : Prop := fst x <= fst y.

#[global] Instance by_id_dec x y : Decision (by_id x y).
Proof. unfold by_id. apply _. Defined.

(** [SELECT id, email, name, custom_fields FROM campaign_recipients
     WHERE campaign_id = $1 AND status = 'pending' ORDER BY id] *)
Definition select_pending (campaignId : Z) (d : db) : list (Z * Recipient.t) :=
  merge_sort by_id
    (filter (is_pending_of campaignId) (map_to_list (campaign_recipients d))).

(** [UPDATE campaign_recipients SET status = 'sent', sent_at = NOW()
     WHERE id = $2] *)
Definition mark_sent (now : timestamp) (recipientId : Z) (d : db) : db :=
  set_campaign_recipients
    (alter (fun r => Recipient.set_sent_at (Some now)
                       (Recipient.set_status RecipientStatus.sent r))
       recipientId (campaign_recipients d)) d.

(** [UPDATE campaign_recipients SET status = 'failed', error_message = $2
     WHERE id = $3] *)
Definition mark_failed (message : string) (recipientId : Z) (d : db) : db :=
  set_campaign_recipients
    (alter (fun r => Recipient.set_error_message (Some message)
                       (Recipient.set_status RecipientStatus.failed r))
       recipientId (campaign_recipients d)) d.

(** [UPDATE campaigns SET sent_count = sent_count + 1, updated_at = NOW()
     WHERE id = $1] *)
Definition incr_sent_count (now : timestamp) (campaignId : Z) (d : db) : db :=
  set_campaigns
    (alter (fun c => Campaign.set_updated_at now
                       (Campaign.set_sent_count (Campaign.sent_count c + 1) c))
       campaignId (campaigns d)) d.

(** [UPDATE campaigns SET failed_count = failed_count + 1,
     updated_at = NOW() WHERE id = $1] *)
Definition incr_failed_count (now : timestamp) (campaignId : Z) (d : db) : db :=
  set_campaigns
    (alter (fun c => Campaign.set_updated_at now
                       (Campaign.set_failed_count (Campaign.failed_count c + 1) c))
       campaignId (campaigns d)) d.

(** The statement assembled by [updateCampaignStatus]:
    [UPDATE campaigns SET status = $1, updated_at = NOW()
     (, started_at = $2) (, completed_at = $3) WHERE id = $n] *)
Definition update_status (now : timestamp) (campaignId : Z)
    (status : CampaignStatus.t) (startedAt completedAt : option timestamp)
    (d : db) : db :=
  set_campaigns
    (alter (fun c =>
              let c := Campaign.set_updated_at now (Campaign.set_status status c) in
              let c := match startedAt with
                       | Some ts => Campaign.set_started_at (Some ts) c
                       | None => c
                       end in
              match completedAt with
              | Some ts => Campaign.set_completed_at (Some ts) c
              | None => c
              end)
       campaignId (campaigns d)) d.

(** [INSERT INTO email_logs (...) VALUES ($1, ..., $8, NOW(), NOW())] *)
Definition insert_email_log (now : timestamp) (userId campaignId recipientId : Z)
    (recipientEmail subject : string) (status : LogStatus.t)
    (messageId errorMessage : option string) (d : db) : db :=
  set_email_logs
    (email_logs d ++
       [EmailLog.mk userId campaignId recipientId recipientEmail subject status
          messageId errorMessage now now]) d.

(** [SELECT gmail_address, app_password_encrypted, from_name
     FROM smtp_configs WHERE user_id = $1] *)
Definition select_smtp_config (userId : Z) (d : db) : option SmtpConfig.t :=
  smtp_configs d !! userId.

(** [UPDATE campaigns SET status = 'queued', updated_at = NOW()
     WHERE id = $2] *)
Definition queue_campaign (now : timestamp) (campaignId : Z) (d : db) : db :=
  update_status now campaignId CampaignStatus.queued None None d.

End Sql.

(* ===================================================================== *)
(** * The world around the pipeline *)
(* ===================================================================== *)

Module Smtp.
(** The error objects of the mail library. *)
Record error : Type := mkError {
  code : option string;
  responseCode : option Z;
  message : string
}.

Record mail : Type := mkMail {
  to : string;
  subject : string;
  text : string;
  html : option string
}.

Record transporter : Type := mkTransporter {
  auth_user : string;
  auth_pass : string;
  from : string
}.
End Smtp.

(** What the pipeline does not decide: the regular-expression engine on
    keys with syntax characters, the storage (the [n]-th [db.query] of a
    run may reject), the decryption of the stored password, and the mail
    server ([transporter.verify()], and [transporter.sendMail(options)]
    for the [n]-th message handed over, answering with a message id or an
    error). *)
Record env : Type := mkEnv {
  engine_replace : string -> string -> string -> outcome string;
  query_fault : nat -> option string;
  decrypt : string -> outcome string;
  verify : Smtp.transporter -> option Smtp.error;
  sendMail : Smtp.transporter -> nat -> Smtp.mail -> Smtp.error + string
}.

(** The mutable state: the database, the wall clock, the number of
    queries issued, every message handed to the mail server with its
    answer, and the callbacks queued by [setImmediate] (all of them are
    [sendCampaign(campaignId, userId)]). *)
Record world : Type := mkWorld {
  database : db;
  clock : timestamp;
  queries : nat;
  wire : list (Smtp.mail * (Smtp.error + string));
  immediates : list (Z * Z)
}.

Definition set_database (d : db) (w : world) : world :=
  mkWorld d (clock w) (queries w) (wire w) (immediates w).
Definition set_clock (t : timestamp) (w : world) : world :=
  mkWorld (database w) t (queries w) (wire w) (immediates w).
Definition set_queries (n : nat) (w : world) : world :=
  mkWorld (database w) (clock w) n (wire w) (immediates w).
Definition set_wire (l : list (Smtp.mail * (Smtp.error + string))) (w : world) : world :=
  mkWorld (database w) (clock w) (queries w) l (immediates w).
Definition set_immediates (l : list (Z * Z)) (w : world) : world :=
  mkWorld (database w) (clock w) (queries w) (wire w) l.

(** ** Promises: state passing with rejection

    A computation runs from a state and either resolves or rejects; what
    it wrote before rejecting stays written. *)
Definition M (S A : Type) : Type := S -> outcome A * S.

#[global] Instance M_ret {S} : MRet (M S) :=
  fun A (a : A) s => (Ok a, s).

#[global] Instance M_bind {S} : MBind (M S) :=
  fun A B (k : A -> M S B) (m : M S A) s =>
    match m s with
    | (Ok a, s') => k a s'
    | (Throw e, s') => (Throw e, s')
    end.

Definition throw {S A} (message : string) : M S A :=
  fun s => (Throw message, s).

(** [try { m } catch (error) { h error }] *)
Definition try_catch {S A} (m : M S A) (h : string -> M S A) : M S A :=
  fun s =>
    match m s with
    | (Ok a, s') => (Ok a, s')
    | (Throw e, s') => h e s'
    end.

(** A pure step that may throw. *)
Definition of_outcome {S A} (o : outcome A) : M S A :=
  fun s => (o, s).

(** [for (const x of xs) { body x }] *)
Fixpoint for_of {S X} (xs : list X) (body : X -> M S unit) : M S unit :=
  match xs with
  | [] => mret tt
  | x :: xs' => body x ;; for_of xs' body
  end.

(** Local variables of a function live beside the world. *)
Definition in_world {L A} (m : M world A) : M (L * world) A :=
  fun '(l, w) => let '(r, w') := m w in (r, (l, w')).

Definition modify_locals {L} (f : L -> L) : M (L * world) unit :=
  fun '(l, w) => (Ok tt, (f l, w)).

Definition get_locals {L} : M (L * world) L :=
  fun '(l, w) => (Ok l, (l, w)).

Definition with_locals {L A} (l0 : L) (m : M (L * world) A) : M world A :=
  fun w => let '(r, (_, w')) := m (l0, w) in (r, w').

Section Pipeline.

Variable E : env.

(** [new Date()] and SQL [NOW()] *)
Definition now : M world timestamp :=
  fun w => (Ok (clock w), w).

(** [db.query(statement)]: count the call; reject if the storage fails on
    it, otherwise run the statement on the database. *)
Definition db_query {A} (statement : db -> A * db) : M world A :=
  fun w =>
    let w' := set_queries (S (queries w)) w in
    match query_fault E (queries w) with
    | Some message => (Throw message, w')
    | None =>
        let '(a, d) := statement (database w) in (Ok a, set_database d w')
    end.

Definition db_select {A} (q : db -> A) : M world A :=
  db_query (fun d => (q d, d)).

Definition db_update (u : timestamp -> db -> db) : M world unit :=
  fun w => db_query (fun d => (tt, u (clock w) d)) w.

(** [sleep(ms)]: the only step at which the clock of the model moves. *)
Definition sleep (ms : Z) : M world unit :=
  fun w => (Ok tt, set_clock (clock w + ms) w).

(* ===================================================================== *)
(** * Transport wrapper (emailService.js) *)
(* ===================================================================== *)

Definition createTransporterFromCredentials (gmailAddress appPassword fromName : string)
  : M world Smtp.transporter :=
  if bool_decide (gmailAddress = "") || bool_decide (appPassword = "")
  then throw "Gmail address and app password are required"
  else mret (Smtp.mkTransporter gmailAddress appPassword
               (dquote +:+ fromName +:+ dquote +:+ " <" +:+ gmailAddress +:+ ">")).

Definition createTransporter (userId : Z) : M world Smtp.transporter :=
  result ← db_select (Sql.select_smtp_config userId);
  match result with
  | None =>
      throw "SMTP configuration not found. Please configure your Gmail SMTP settings."
  | Some config =>
      appPassword ← try_catch
        (of_outcome (decrypt E (SmtpConfig.app_password_encrypted config)))
        (fun _ => throw "Failed to decrypt SMTP credentials. Please reconfigure your SMTP settings.");
      createTransporterFromCredentials
        (SmtpConfig.gmail_address config) appPassword (SmtpConfig.from_name config)
  end.

Definition verifyTransporter (transporter : Smtp.transporter) : M world bool :=
  match verify E transporter with
  | None => mret true
  | Some error =>
      if bool_decide (Smtp.code error = Some "EAUTH") then
        throw "Invalid Gmail credentials. Please check your email and app password."
      else if bool_decide (Smtp.code error = Some "ECONNECTION")
              || bool_decide (Smtp.code error = Some "ETIMEDOUT") then
        throw "Failed to connect to Gmail SMTP server. Please check your internet connection."
      else if bool_decide (Smtp.responseCode error = Some 534) then
        throw "Gmail authentication failed. Make sure you are using an App Password, not your regular Gmail password."
      else throw ("SMTP verification failed: " +:+ Smtp.message error)
  end.

(** [transporter.sendMail(mailOptions)] *)
Definition transporter_sendMail (transporter : Smtp.transporter) (options : Smtp.mail)
  : M world (Smtp.error + string) :=
  fun w =>
    let answer := sendMail E transporter (length (wire w)) options in
    (Ok answer, set_wire (wire w ++ [(options, answer)]) w).

Definition sendEmail (transporter : Smtp.transporter) (options : Smtp.mail)
  : M world string :=
  if bool_decide (Smtp.to options = "") || bool_decide (Smtp.subject options = "")
  then throw "Recipient (to) and subject are required"
  else if bool_decide (Smtp.text options = "")
          && bool_decide (default "" (Smtp.html options) = "")
  then throw "Email must have either text or html content"
  else
    info ← transporter_sendMail transporter options;
    match info with
    | inr messageId => mret messageId
    | inl error =>
        if bool_decide (Smtp.code error = Some "EENVELOPE") then
          throw "Invalid recipient email address"
        else if bool_decide (Smtp.responseCode error = Some 550) then
          throw "Recipient address rejected"
        else throw ("Failed to send email: " +:+ Smtp.message error)
    end.

Definition closeTransporter (transporter : Smtp.transporter) : M world unit :=
  mret tt.

(* ===================================================================== *)
(** * Dispatcher (bulkEmailSender.js) *)
(* ===================================================================== *)

Definition logEmail (userId campaignId recipientId : Z) (recipientEmail subject : string)
    (status : LogStatus.t) (messageId errorMessage : option string) : M world unit :=
  db_update (fun ts =>
    Sql.insert_email_log ts userId campaignId recipientId recipientEmail subject
      status messageId errorMessage).

Definition updateCampaignStatus (campaignId : Z) (status : CampaignStatus.t)
    (startedAt completedAt : option timestamp) : M world unit :=
  db_update (fun ts => Sql.update_status ts campaignId status startedAt completedAt).

Definition render (text : jsval) (data : entries) : M world string :=
  of_outcome (replaceTemplateVariables (engine_replace E) text data).

Definition sendToRecipient (recipient : Z * Recipient.t) (campaign : Z * Campaign.t)
    (transporter : Smtp.transporter) (userId : Z) : M world string :=
  let customFields := default [] (Recipient.custom_fields (snd recipient)) in
  let recipientData :=
    Obj.spread
      [("name", JString (default "" (Recipient.name (snd recipient))));
       ("email", JString (Recipient.email (snd recipient)))]
      customFields in
  let hasCustomSubject :=
    negb (bool_decide (Obj.get "custom_subject" customFields = JUndefined)) in
  let hasCustomBody :=
    negb (bool_decide (Obj.get "custom_body" customFields = JUndefined)) in
  let baseSubject :=
    if hasCustomSubject then Obj.get "custom_subject" customFields
    else JString (Campaign.subject (snd campaign)) in
  let baseBody :=
    if hasCustomBody then Obj.get "custom_body" customFields
    else JString (Campaign.email_body (snd campaign)) in
  subject ← render baseSubject (Obj.entries recipientData);
  textBody ← render baseBody (Obj.entries recipientData);
  htmlBody ←
    match Campaign.html_body (snd campaign) with
    | Some h =>
        if bool_decide (h = "") then mret None
        else h' ← render (JString h) (Obj.entries recipientData); mret (Some h')
    | None => mret None
    end;
  messageId ← sendEmail transporter
    (Smtp.mkMail (Recipient.email (snd recipient)) subject textBody htmlBody);
  logEmail userId (fst campaign) (fst recipient) (Recipient.email (snd recipient))
    subject LogStatus.sent (Some messageId) None;;
  mret messageId.

Record counters : Type := mkCounters { sentCount : Z; failedCount : Z }.

Record send_result : Type := mkResult { success : bool; sent : Z; failed : Z }.

(** The [try]/[catch] statement in the body of the loop. *)
Definition attempt (campaignId userId : Z) (campaign : Campaign.t)
    (transporter : Smtp.transporter) (recipient : Z * Recipient.t)
  : M (counters * world) unit :=
  try_catch
    (in_world (sendToRecipient recipient (campaignId, campaign) transporter userId);;
     modify_locals (fun l => mkCounters (sentCount l + 1) (failedCount l));;
     in_world (db_update (fun ts => Sql.mark_sent ts (fst recipient)));;
     in_world (db_update (fun ts => Sql.incr_sent_count ts campaignId)))
    (fun error =>
     modify_locals (fun l => mkCounters (sentCount l) (failedCount l + 1));;
     in_world (db_update (fun _ => Sql.mark_failed error (fst recipient)));;
     in_world (db_update (fun ts => Sql.incr_failed_count ts campaignId));;
     in_world (logEmail userId campaignId (fst recipient)
                 (Recipient.email (snd recipient)) (Campaign.subject campaign)
                 LogStatus.failed None (Some error))).

(** The body of the loop over the pending recipients. *)
Definition send_one (campaignId userId : Z) (campaign : Campaign.t)
    (transporter : Smtp.transporter) (recipient : Z * Recipient.t)
  : M (counters * world) unit :=
  attempt campaignId userId campaign transporter recipient;;
  in_world (sleep 1000).

Definition send_loop (campaignId userId : Z) (campaign : Campaign.t)
    (transporter : Smtp.transporter) (recipients : list (Z * Recipient.t))
  : M (counters * world) counters :=
  for_of recipients (send_one campaignId userId campaign transporter);;
  get_locals.

(** The [try] block that creates the transporter and checks the connection. *)
Definition connect (userId : Z) : M world Smtp.transporter :=
  transporter ← createTransporter userId;
  verifyTransporter transporter;;
  mret transporter.

(** The [try] block of [sendCampaign]. *)
Definition dispatch (campaignId userId : Z) : M world send_result :=
  campaignResult ← db_select (Sql.select_campaign campaignId userId);
  match campaignResult with
  | None => throw "Campaign not found"
  | Some campaign =>
      if negb (bool_decide (Campaign.status campaign = CampaignStatus.queued))
      then throw ("Cannot send campaign with status: "
                    +:+ CampaignStatus.to_string (Campaign.status campaign))
      else
        recipients ← db_select (Sql.select_pending campaignId);
        match recipients with
        | [] =>
            startedAt ← now;
            updateCampaignStatus campaignId CampaignStatus.completed
              (Some startedAt) None;;
            mret (mkResult true 0 0)
        | _ :: _ =>
            transporter ← try_catch
              (connect userId)
              (fun error =>
               updateCampaignStatus campaignId CampaignStatus.failed None None;;
               throw ("SMTP connection failed: " +:+ error));
            startedAt ← now;
            updateCampaignStatus campaignId CampaignStatus.sending
              (Some startedAt) None;;
            final ← with_locals (mkCounters 0 0)
              (send_loop campaignId userId campaign transporter recipients);
            closeTransporter transporter;;
            completedAt ← now;
            updateCampaignStatus campaignId CampaignStatus.completed
              None (Some completedAt);;
            mret (mkResult true (sentCount final) (failedCount final))
        end
  end.

Definition sendCampaign (campaignId userId : Z) : M world send_result :=
  try_catch
    (dispatch campaignId userId)
    (fun error =>
     try_catch
       (updateCampaignStatus campaignId CampaignStatus.failed None None)
       (fun _ => mret tt);;
     throw error).

(* ===================================================================== *)
(** * The triggering call (routes/campaigns.js, POST /api/campaigns/:id/send) *)
(* ===================================================================== *)

(** [res.status(code).json({ error, message, campaign })] *)
Record response : Type := mkResponse {
  http_status : Z;
  error : option string;
  message : string;
  campaign : option (Z * CampaignStatus.t * Z)
}.

(** [setImmediate(async () => { try { await sendCampaign(campaignId, userId) }
                                catch (error) { console.error(...) } })] *)
Definition setImmediate (campaignId userId : Z) : M world unit :=
  fun w => (Ok tt, set_immediates (immediates w ++ [(campaignId, userId)]) w).

(** The handler; [id] is [parseInt(req.params.id)], [None] for [NaN]. *)
Definition post_send (id : option Z) (userId : Z) : M world response :=
  try_catch
    (match id with
     | None =>
         mret (mkResponse 400 (Some "Invalid campaign ID")
                 "Campaign ID must be a number" None)
     | Some campaignId =>
         campaignResult ← db_select (Sql.select_campaign campaignId userId);
         match campaignResult with
         | None =>
             mret (mkResponse 404 (Some "Campaign not found")
                     "Campaign not found or you do not have permission to access it"
                     None)
         | Some campaign =>
             if negb (bool_decide (Campaign.status campaign = CampaignStatus.draft))
             then
               mret (mkResponse 400 (Some "Cannot send campaign")
                       ("Campaign status is " +:+ dquote
                          +:+ CampaignStatus.to_string (Campaign.status campaign)
                          +:+ dquote +:+ ". Only draft campaigns can be sent.") None)
             else
               smtpResult ← db_select (Sql.select_smtp_config userId);
               match smtpResult with
               | None =>
                   mret (mkResponse 400 (Some "No SMTP configuration")
                           "Please configure your Gmail SMTP settings before sending campaigns"
                           None)
               | Some _ =>
                   db_update (fun ts => Sql.queue_campaign ts campaignId);;
                   setImmediate campaignId userId;;
                   mret (mkResponse 200 None "Campaign sending started"
                           (Some (campaignId, CampaignStatus.queued,
                                  Campaign.recipient_count campaign)))
               end
         end
     end)
    (fun _ =>
     mret (mkResponse 500 (Some "Failed to start campaign")
             "An error occurred while starting the campaign" None)).

(** The callback queued by the handler: the rejection of [sendCampaign]
    ends in the catch of the callback. *)
Definition background (job : Z * Z) : M world unit :=
  try_catch (sendCampaign (fst job) (snd job);; mret tt) (fun _ => mret tt).

(** The check phase of the event loop: run the queued callbacks. *)
Definition run_immediates : M world unit :=
  fun w => for_of (immediates w) background (set_immediates [] w).

(** A request from the handler to the end of the work it started: the
    response is the one the handler sent before the callback ran. *)
Definition serve_send (id : option Z) (userId : Z) : M world response :=
  response ← post_send id userId;
  run_immediates;;
  mret response.

End Pipeline.

(* ===================================================================== *)
(** * Progress aggregator (progressTracker.js, calculateProgress) *)
(* ===================================================================== *)

(** The numbers of the engine are binary64.  A number is the rational it
    stands for; a quotient or a product is the binary64 number nearest
    to the exact one, [binary64] of it.  The exponent is not bounded
    here: the numbers at hand, quotients and products of INTEGER columns
    and of small constants, are far from the limits of the format. *)

(** The integer part of the binary logarithm of a positive rational [x]:
    the [e] with [2^e <= x < 2^(e+1)]. *)
Definition ilog2 (x : Q) : Z :=
  let n := Qnum x in
  let d := Z.pos (Qden x) in
  let a := Z.log2 n in
  let b := Z.log2 d in
  if d * 2 ^ a <=? n * 2 ^ b then a - b else a - b - 1.

(** The integer nearest to [m], a tie going to the even one. *)
Definition round_half_even (m : Q) : Z :=
  let f := Qfloor m in
  match (m - inject_Z f ?= 1 # 2)%Q with
  | Lt => f
  | Gt => f + 1
  | Eq => if Z.even f then f else f + 1
  end.

(** The number with a significand of 53 bits nearest to a positive [x]. *)
Definition nearest53 (x : Q) : Q :=
  let ulp := (2 ^ (ilog2 x - 52))%Q in
  Qred (inject_Z (round_half_even (x / ulp)) * ulp).

(** The binary64 number nearest to [x], a tie going to the even
    significand. *)
Definition binary64 (x : Q) : Q :=
  match (x ?= 0)%Q with
  | Eq => 0%Q
  | Gt => nearest53 x
  | Lt => (- nearest53 (- x))%Q
  end.

(** [Math.round(x)]: the nearest integer, a tie going up; no rounding of
    its own. *)
Definition Math_round (x : Q) : Z := Qfloor (x + (1 # 2))%Q.

(** The numeral [x.toFixed(4)] of a binary64 number [x]: the nearest
    numeral with four decimals to the number itself, a tie going away
    from zero.  [parseFloat] then gives the binary64 number nearest to
    the numeral. *)
Definition toFixed4 (x : Q) : Q :=
  if Qle_bool 0 x
  then (inject_Z (Qfloor (x * 10000 + (1 # 2))) / 10000)%Q
  else (- (inject_Z (Qfloor (- x * 10000 + (1 # 2))) / 10000))%Q.

Module Progress.
Record t : Type := mk {
  total_recipients : Z;
  sent : Z;
  failed : Z;
  pending : Z;
  percentage : Q;
  success_rate : Q
}.
End Progress.

(** The storage answers every query. *)
Definition reliable (E : env) : Prop := forall n, query_fault E n = None.

(** [SELECT COUNT( * ) FROM campaign_recipients
     WHERE campaign_id = $1 AND status = 'pending'] *)
Definition pending_count (campaignId : Z) (d : db) : Z :=
  Z.of_nat (length (Sql.select_pending campaignId d)).

(** The invariant of the data model on the campaign [campaignId]:
    sent_count + failed_count + pending_count = recipient_count. *)
Definition counts_consistent (campaignId : Z) (d : db) : Prop :=
  exists c,
    campaigns d !! campaignId = Some c
    /\ Campaign.sent_count c + Campaign.failed_count c + pending_count campaignId d
       = Campaign.recipient_count c.

(** Between [d] and [d'] the recipient [recipientId], and no other, went
    from 'pending' to 'sent' or 'failed', and the counter of that state,
    and no other, went up by one. *)
Definition moved_to_terminal (campaignId recipientId : Z) (d d' : db) : Prop :=
  exists c c' r r',
    campaigns d !! campaignId = Some c
    /\ campaigns d' !! campaignId = Some c'
    /\ campaign_recipients d !! recipientId = Some r
    /\ Recipient.status r = RecipientStatus.pending
    /\ campaign_recipients d' !! recipientId = Some r'
    /\ (forall j, j <> recipientId ->
          campaign_recipients d' !! j = campaign_recipients d !! j)
    /\ pending_count campaignId d' = pending_count campaignId d - 1
    /\ ((Recipient.status r' = RecipientStatus.sent
         /\ Campaign.sent_count c' = Campaign.sent_count c + 1
         /\ Campaign.failed_count c' = Campaign.failed_count c)
        \/ (Recipient.status r' = RecipientStatus.failed
            /\ Campaign.failed_count c' = Campaign.failed_count c + 1
            /\ Campaign.sent_count c' = Campaign.sent_count c)).

Definition calculateProgress (campaign : Campaign.t) : Progress.t :=
  let total := Campaign.recipient_count campaign in
  let sent := Campaign.sent_count campaign in
  let failed := Campaign.failed_count campaign in
  let pending := total - sent - failed in
  let percentage :=
    if 0 <? total
    then binary64
           (inject_Z
              (Math_round
                 (binary64
                    (binary64 (binary64 (inject_Z (sent + failed) / inject_Z total)
                               * 100)
                     * 10)))
            / 10)%Q
    else 0%Q in
  let successRate :=
    if 0 <? sent + failed
    then binary64 (toFixed4 (binary64 (inject_Z sent / inject_Z (sent + failed))))%Q
    else 0%Q in
  Progress.mk total sent failed pending percentage successRate.

(* ===================================================================== *)
(** * Vocabulary of the proofs *)
(* ===================================================================== *)

(** The tables a statement on [email_logs] leaves alone. *)
Definition tables_kept (d d' : db) : Prop :=
  campaigns d' = campaigns d
  /\ campaign_recipients d' = campaign_recipients d
  /\ smtp_configs d' = smtp_configs d.

(** What an iteration may do to the row of its recipient and to the row of
    the campaign: the identity of the rows stays, the counters do not
    decrease. *)
Definition row_touch (fr : Recipient.t -> Recipient.t) : Prop :=
  forall r, Recipient.campaign_id (fr r) = Recipient.campaign_id r
            /\ Recipient.email (fr r) = Recipient.email r
            /\ Recipient.custom_fields (fr r) = Recipient.custom_fields r.

Definition camp_touch (fc : Campaign.t -> Campaign.t) : Prop :=
  forall c, Campaign.user_id (fc c) = Campaign.user_id c
            /\ Campaign.recipient_count (fc c) = Campaign.recipient_count c
            /\ Campaign.status (fc c) = Campaign.status c
            /\ Campaign.started_at (fc c) = Campaign.started_at c
            /\ Campaign.completed_at (fc c) = Campaign.completed_at c
            /\ Campaign.sent_count c <= Campaign.sent_count (fc c)
            /\ Campaign.failed_count c <= Campaign.failed_count (fc c).

(** A completed iteration: the recipient is terminal and the counter of
    its state, and only that one, went up by one. *)
Definition settled (fr : Recipient.t -> Recipient.t) (fc : Campaign.t -> Campaign.t) : Prop :=
  ((forall r, Recipient.status (fr r) = RecipientStatus.sent)
   /\ (forall c, Campaign.sent_count (fc c) = Campaign.sent_count c + 1
                 /\ Campaign.failed_count (fc c) = Campaign.failed_count c))
  \/
  ((forall r, Recipient.status (fr r) = RecipientStatus.failed)
   /\ (forall c, Campaign.failed_count (fc c) = Campaign.failed_count c + 1
                 /\ Campaign.sent_count (fc c) = Campaign.sent_count c)).

(** [d'] is [d] after the row [rid] of the ledger went through [fr] and
    the row [cid] of the campaigns through [fc]. *)
Definition touched (rid cid : Z) (d d' : db)
    (fr : Recipient.t -> Recipient.t) (fc : Campaign.t -> Campaign.t) : Prop :=
  smtp_configs d' = smtp_configs d
  /\ campaign_recipients d' = alter fr rid (campaign_recipients d)
  /\ campaigns d' = alter fc cid (campaigns d).

(** The states of a campaign whose dispatch has begun. *)
Definition started (s : CampaignStatus.t) : Prop :=
  s = CampaignStatus.sending \/ s = CampaignStatus.completed
  \/ s = CampaignStatus.failed.

(** What a run does to the row of its campaign: it keeps state and
    counters, or it leaves the campaign started. *)
Definition run_mark (g : Campaign.t -> Campaign.t) : Prop :=
  (forall c, Campaign.status (g c) = Campaign.status c
             /\ Campaign.sent_count (g c) = Campaign.sent_count c
             /\ Campaign.failed_count (g c) = Campaign.failed_count c)
  \/ (forall c, started (Campaign.status (g c))).

(** A campaign that is still a draft or queued has both counters at 0:
    so it is created, and so the route and the dispatcher keep it. *)
Definition counters_clear (d : db) : Prop :=
  forall j c,
    campaigns d !! j = Some c ->
    Campaign.status c = CampaignStatus.draft
    \/ Campaign.status c = CampaignStatus.queued ->
    Campaign.sent_count c = 0 /\ Campaign.failed_count c = 0.

(** The loop over the entries, seen on the segments. *)
Definition subst_all (data : entries) (tpl : Template.t) : Template.t :=
  fold_left (fun T kv => Template.subst (fst kv) (or_empty (snd kv)) T) data tpl.

(* ===================================================================== *)
(** * A campaign to run the pipeline on *)
(* ===================================================================== *)

Module Demo.

Definition campaign (status : CampaignStatus.t) (sent failed : Z) : Campaign.t :=
  Campaign.mk 7 "Launch" "Hi {{name}}" "Dear {{name}}, write to {{email}}." None
    3 sent failed status None None 0 0.

Definition recipient (email name : string) (status : RecipientStatus.t)
    (error : option string) : Recipient.t :=
  Recipient.mk 1 email (Some name) None status None error 0.

Definition config : SmtpConfig.t := SmtpConfig.mk "me@gmail.com" "c2VjcmV0" "Me".

(** Three pending recipients. *)
Definition ledger : gmap Z Recipient.t :=
  list_to_map
    [(10, recipient "ana@example.com" "Ana" RecipientStatus.pending None);
     (11, recipient "bob@example.com" "Bob" RecipientStatus.pending None);
     (12, recipient "eve@example.com" "Eve" RecipientStatus.pending None)].

(** The same ledger once every recipient is settled. *)
Definition ledger_done : gmap Z Recipient.t :=
  list_to_map
    [(10, recipient "ana@example.com" "Ana" RecipientStatus.sent None);
     (11, recipient "bob@example.com" "Bob" RecipientStatus.failed
            (Some "Recipient address rejected"));
     (12, recipient "eve@example.com" "Eve" RecipientStatus.sent None)].

(** The ledger after that run, with the times of the two sends. *)
Definition ledger_done_at (first third : timestamp) : gmap Z Recipient.t :=
  list_to_map
    [(10, Recipient.mk 1 "ana@example.com" (Some "Ana") None RecipientStatus.sent
            (Some first) None 0);
     (11, recipient "bob@example.com" "Bob" RecipientStatus.failed
            (Some "Recipient address rejected"));
     (12, Recipient.mk 1 "eve@example.com" (Some "Eve") None RecipientStatus.sent
            (Some third) None 0)].

(** The ledger of a run that stopped after its second recipient. *)
Definition ledger_mixed : gmap Z Recipient.t :=
  list_to_map
    [(10, recipient "ana@example.com" "Ana" RecipientStatus.sent None);
     (11, recipient "bob@example.com" "Bob" RecipientStatus.failed
            (Some "Recipient address rejected"));
     (12, recipient "eve@example.com" "Eve" RecipientStatus.pending None)].

Definition database (status : CampaignStatus.t) (sent failed : Z)
    (rows : gmap Z Recipient.t) : db :=
  mkDb {[ 1 := campaign status sent failed ]} rows [] {[ 7 := config ]}.

Definition start (d : db) : world := mkWorld d 1000 0 [] [].

(** A campaign queued for its first dispatch, one still a draft, one with
    nobody left to send to, and one already completed. *)
Definition queued : world :=
  start (database CampaignStatus.queued 0 0 ledger).
Definition draft : world :=
  start (database CampaignStatus.draft 0 0 ledger).
Definition queued_done : world :=
  start (database CampaignStatus.queued 2 1 ledger_done).
Definition completed : world :=
  start (database CampaignStatus.completed 2 1 ledger_done).
Definition resumed : world :=
  start (database CampaignStatus.queued 1 1 ledger_mixed).

(** A mail server that accepts the handshake and refuses the second
    message, and one that refuses the handshake; the storage never fails. *)
Definition refuse_second : env :=
  mkEnv no_engine (fun _ => None) (fun _ => Ok "app-password") (fun _ => None)
    (fun _ n _ =>
       if Nat.eqb n 1 then inl (Smtp.mkError None (Some 550) "5.1.1 unknown user")
       else inr "<id@gmail.com>").

Definition refuse_handshake : env :=
  mkEnv no_engine (fun _ => None) (fun _ => Ok "app-password")
    (fun _ => Some (Smtp.mkError (Some "EAUTH") (Some 535) "bad credentials"))
    (fun _ _ _ => inr "<id@gmail.com>").

(** The transporter of the demo user. *)
Definition transporter : Smtp.transporter :=
  Smtp.mkTransporter "me@gmail.com" "app-password"
    (dquote +:+ "Me" +:+ dquote +:+ " <me@gmail.com>").

End Demo.

(* ===================================================================== *)
(** * More of JavaScript: texts and numbers *)
(* ===================================================================== *)

(** Texts are sequences of code units below 256; [String.length] counts
    them. *)
Module Text.

(** [hay.includes(needle)] *)
Fixpoint includes (needle hay : string) : bool :=
  match Str.strip_prefix needle hay with
  | Some _ => true
  | None =>
      match hay with
      | String _ hay' => includes needle hay'
      | EmptyString => false
      end
  end.

(** White space and line terminators: TAB, LF, VT, FF, CR, SP, NBSP. *)
Definition is_space (c : ascii) : bool :=
  let n := N_of_ascii c in
  ((9 <=? n) && (n <=? 13) || (n =? 32) || (n =? 160))%N.

Fixpoint trimStart (s : string) : string :=
  match s with
  | String c s' => if is_space c then trimStart s' else s
  | EmptyString => ""
  end.

(** [s] without its trailing white space. *)
Fixpoint trimEnd (s : string) : string :=
  match s with
  | String c s' =>
      match trimEnd s' with
      | EmptyString => if is_space c then "" else String c ""
      | t => String c t
      end
  | EmptyString => ""
  end.

(** [s.trim()] *)
Definition trim (s : string) : string := trimEnd (trimStart s).

(** [c.toLowerCase()] for one code unit: the letters A-Z, and the
    capital letters of the upper half but the multiplication sign. *)
Definition lower (c : ascii) : ascii :=
  let n := N_of_ascii c in
  if ((65 <=? n) && (n <=? 90)
      || (192 <=? n) && (n <=? 222) && negb (n =? 215))%N
  then ascii_of_N (n + 32) else c.

(** [s.toLowerCase()] *)
Fixpoint toLowerCase (s : string) : string :=
  match s with
  | String c s' => String (lower c) (toLowerCase s')
  | EmptyString => ""
  end.

(** Equality of a text with an ASCII literal under the [i] flag of a
    pattern: the letters a-z stand for both cases, every other code unit
    for itself. *)
Definition fold_case (c : ascii) : ascii :=
  let n := N_of_ascii c in
  if ((97 <=? n) && (n <=? 122))%N then ascii_of_N (n - 32) else c.

Fixpoint eqb_ignore_case (literal s : string) : bool :=
  match literal, s with
  | EmptyString, EmptyString => true
  | String a l', String b s' =>
      Ascii.eqb (fold_case a) (fold_case b) && eqb_ignore_case l' s'
  | _, _ => false
  end.

End Text.

(** The value of a digit in the radix [radix]. *)
Definition digit_value (radix : N) (c : ascii) : option N :=
  let n := N_of_ascii c in
  let v :=
    if ((48 <=? n) && (n <=? 57))%N then Some (n - 48)%N
    else if ((97 <=? n) && (n <=? 122))%N then Some (n - 87)%N
    else if ((65 <=? n) && (n <=? 90))%N then Some (n - 55)%N
    else None in
  match v with
  | Some d => if (d <? radix)%N then Some d else None
  | None => None
  end.

(** The longest prefix of digits, read in the radix; [None] when the
    text does not begin with a digit. *)
Fixpoint digits_prefix (radix : N) (s : string) (acc : option N) : option N :=
  match s with
  | String c s' =>
      match digit_value radix c with
      | Some d => digits_prefix radix s' (Some (radix * default 0%N acc + d)%N)
      | None => acc
      end
  | EmptyString => acc
  end.

(** [parseInt(s)] without a radix; [None] is [NaN].  Leading white space
    is skipped, then a sign, then [0x] or [0X] announces radix 16; what
    follows the digits is ignored.  The integer is exact here (the code
    gets the nearest double). *)
Definition parseInt (s : string) : option Z :=
  let s := Text.trimStart s in
  let '(negative, s) :=
    match s with
    | String c s' =>
        if Ascii.eqb c "-" then (true, s')
        else if Ascii.eqb c "+" then (false, s')
        else (false, s)
    | EmptyString => (false, s)
    end in
  let '(radix, s) :=
    match s with
    | String a (String b s') =>
        if Ascii.eqb a "0" && (Ascii.eqb b "x" || Ascii.eqb b "X")
        then (16%N, s') else (10%N, s)
    | _ => (10%N, s)
    end in
  match digits_prefix radix s None with
  | Some n => Some (if negative then - Z.of_N n else Z.of_N n)
  | None => None
  end.

(* ===================================================================== *)
(** * Progress tracker (progressTracker.js): timing, timeline, activity *)
(* ===================================================================== *)

Module Timing.
Record t : Type := mk {
  started_at : option timestamp;
  completed_at : option timestamp;
  elapsed_seconds : option Z;
  estimated_completion : option timestamp;
  estimated_remaining_seconds : option Z
}.
End Timing.

(** ** Numbers

    The numbers of the engine are binary64: a quotient, a product or a
    sum is the number nearest to the exact one.  [fl] stands for that
    rounding; [Math.floor], [Math.ceil] and [Math.round] do not round.
    Of [fl] the proofs use only that it keeps the order and leaves the
    integers up to 2^53 as they are, so that what they prove holds of
    [binary64] and of every other rounding of that kind. *)
Definition rounds (fl : Q -> Q) : Prop :=
  (forall x y, (x <= y)%Q -> (fl x <= fl y)%Q)
  /\ (forall n : Z, Z.abs n <= 2 ^ 53 -> (fl (inject_Z n) == inject_Z n)%Q).

(** The arithmetic of the examples rounds nothing. *)
Definition unrounded : Q -> Q := Qred.

(** The integer part of a number. *)
Definition truncate (x : Q) : Z :=
  if Qle_bool 0 x then Qfloor x else Qceiling x.

(** [new Date(value).toISOString()]: a time value beyond 8.64e15 in
    either direction is no date, and [toISOString] throws on it. *)
Definition toISOString (value : Q) : outcome timestamp :=
  if Qle_bool (-8640000000000000) value && Qle_bool value 8640000000000000
  then Ok (truncate value)
  else Throw "Invalid time value".

(** [calculateTiming(campaign)] when [new Date()] is [now].  A date is
    its instant in milliseconds; [estimated_completion] holds the instant
    whose ISO text the code returns. *)
Definition calculateTiming (fl : Q -> Q) (now : timestamp)
    (campaign : Campaign.t) : outcome Timing.t :=
  match Campaign.started_at campaign with
  | None => Ok (Timing.mk None (Campaign.completed_at campaign) None None None)
  | Some started =>
      let elapsedMs :=
        match Campaign.completed_at campaign with
        | Some completed => fl (inject_Z completed - inject_Z started)%Q
        | None => fl (inject_Z now - inject_Z started)%Q
        end in
      let elapsed_seconds := Qfloor (fl (elapsedMs / 1000)%Q) in
      if bool_decide (Campaign.status campaign = CampaignStatus.sending) then
        let emailsSent :=
          Campaign.sent_count campaign + Campaign.failed_count campaign in
        let remainingEmails := Campaign.recipient_count campaign - emailsSent in
        if 0 <? emailsSent then
          let secondsPerEmail :=
            fl (inject_Z elapsed_seconds / inject_Z emailsSent)%Q in
          let estimated_remaining_seconds :=
            Qceiling (fl (inject_Z remainingEmails * secondsPerEmail)%Q) in
          match toISOString
                  (fl (inject_Z now
                       + fl (inject_Z estimated_remaining_seconds * 1000))%Q)
          with
          | Ok estimated_completion =>
              Ok (Timing.mk (Some started) (Campaign.completed_at campaign)
                    (Some elapsed_seconds) (Some estimated_completion)
                    (Some estimated_remaining_seconds))
          | Throw message => Throw message
          end
        else
          Ok (Timing.mk (Some started) (Campaign.completed_at campaign)
                (Some elapsed_seconds) None None)
      else
        Ok (Timing.mk (Some started) (Campaign.completed_at campaign)
              (Some elapsed_seconds) None None)
  end.

Module Timeline.
Record t : Type := mk {
  event : string;
  status : CampaignStatus.t;
  timestamp : Z;
  description : string
}.
End Timeline.

(** [Math.round(((sent_count + failed_count) / recipient_count) * 100)],
    0 for a campaign without recipients: the [progress_percentage] of
    [getRecentActivity] and of the routes that list campaigns. *)
Definition progress_percentage (fl : Q -> Q) (campaign : Campaign.t) : Z :=
  if 0 <? Campaign.recipient_count campaign
  then Math_round
         (fl (fl (inject_Z (Campaign.sent_count campaign
                            + Campaign.failed_count campaign)
                  / inject_Z (Campaign.recipient_count campaign)) * 100))%Q
  else 0.

Module Activity.
Record t : Type := mk {
  campaign_id : Z;
  campaign_name : string;
  status : CampaignStatus.t;
  progress_percentage : Z;
  last_updated : timestamp
}.
End Activity.

Module RecentSend.
Record t : Type := mk {
  email : string;
  status : LogStatus.t;
  sent_at : timestamp
}.
End RecentSend.

Module Report.
Record head : Type := mkHead {
  id : Z;
  name : string;
  subject : string;
  status : CampaignStatus.t;
  created_at : timestamp;
  started_at : option timestamp;
  completed_at : option timestamp
}.
Record t : Type := mk {
  campaign : head;
  progress : Progress.t;
  timing : Timing.t;
  recent_sends : list RecentSend.t
}.
End Report.

Module Sql2.

(** The ids are INTEGER columns (init.sql): a parameter compared with
    one of them that is outside the range of INTEGER is an error of the
    database. *)
Definition integer (n : Z) : bool :=
  (-2147483648 <=? n) && (n <=? 2147483647).

Definition by_id {A} (id : Z) (q : db -> A) (d : db) : outcome A :=
  if integer id then Ok (q d)
  else Throw "value is out of range for type integer".

(** [ORDER BY sent_at DESC] on the log, [ORDER BY updated_at DESC] on the
    campaigns.  Rows with the same time come in the order they are
    stored in; the database may give them in any order. *)
Definition later_log (x y : EmailLog.t) : Prop :=
  EmailLog.sent_at y <= EmailLog.sent_at x.

#[global] Instance later_log_dec x y : Decision (later_log x y).
Proof. unfold later_log. apply _. Defined.

Definition later_campaign (x y : Z * Campaign.t) : Prop :=
  Campaign.updated_at (snd y) <= Campaign.updated_at (snd x).

#[global] Instance later_campaign_dec x y : Decision (later_campaign x y).
Proof. unfold later_campaign. apply _. Defined.

(** [LIMIT n]: a negative [n] is an error of the database, and so is
    one beyond the range of BIGINT. *)
Definition limit {A} (n : Z) (rows : list A) : outcome (list A) :=
  if n <? 0 then Throw "LIMIT must not be negative"
  else if 9223372036854775807 <? n
  then Throw "value is out of range for type bigint"
  else Ok (take (Z.to_nat n) rows).

(** [SELECT recipient_email as email, status, sent_at FROM email_logs
     WHERE campaign_id = $1 ORDER BY sent_at DESC LIMIT 10] *)
Definition recent_sends (campaignId : Z) (d : db) : list RecentSend.t :=
  (fun l => RecentSend.mk (EmailLog.recipient_email l) (EmailLog.status l)
              (EmailLog.sent_at l))
    <$> take 10 (merge_sort later_log
                   (filter (fun l => EmailLog.campaign_id l = campaignId)
                      (email_logs d))).

(** [SELECT ... FROM campaigns c WHERE c.user_id = $1
     ORDER BY c.updated_at DESC LIMIT $2] *)
Definition recent_campaigns (userId n : Z) (d : db)
  : outcome (list (Z * Campaign.t)) :=
  limit n
    (merge_sort later_campaign
       (filter (fun row => Campaign.user_id (snd row) = userId)
          (map_to_list (campaigns d)))).

(** [SELECT id, email, name, custom_fields, status, sent_at, error_message
     FROM campaign_recipients WHERE campaign_id = $1 ORDER BY id] *)
Definition select_recipients (campaignId : Z) (d : db) : list (Z * Recipient.t) :=
  merge_sort Sql.by_id
    (filter (fun row => Recipient.campaign_id (snd row) = campaignId)
       (map_to_list (campaign_recipients d))).

(** [DELETE FROM campaigns WHERE id = $1 AND user_id = $2 RETURNING id].
    The recipients of the campaign go with it, and so do the log rows of
    the campaign and of those recipients ([ON DELETE CASCADE] on
    [campaign_recipients.campaign_id], [email_logs.campaign_id] and
    [email_logs.recipient_id]). *)
Definition delete_campaign (campaignId userId : Z) (d : db) : option Z * db :=
  match Sql.select_campaign campaignId userId d with
  | None => (None, d)
  | Some _ =>
      let gone : gmap Z Recipient.t :=
        filter (fun row => Recipient.campaign_id (snd row) = campaignId)
          (campaign_recipients d) in
      (Some campaignId,
       mkDb (delete campaignId (campaigns d))
         (filter (fun row => Recipient.campaign_id (snd row) <> campaignId)
            (campaign_recipients d))
         (filter (fun l => EmailLog.campaign_id l <> campaignId
                           /\ gone !! EmailLog.recipient_id l = None)
            (email_logs d))
         (smtp_configs d))
  end.

End Sql2.

Section Tracker.

Variable E : env.
Variable fl : Q -> Q.

(** A query the database may refuse. *)
Definition db_try {A} (q : db -> outcome A) : M world A :=
  result ← db_select E q;
  of_outcome result.

Definition getCampaignProgress (campaignId userId : Z) : M world Report.t :=
  try_catch
    (campaignResult ←
       db_try (Sql2.by_id campaignId (Sql.select_campaign campaignId userId));
     match campaignResult with
     | None => throw "Campaign not found or access denied"
     | Some campaign =>
         let progress := calculateProgress campaign in
         now ← now;
         timing ← of_outcome (calculateTiming fl now campaign);
         recentResult ← db_select E (Sql2.recent_sends campaignId);
         mret (Report.mk
                 (Report.mkHead campaignId (Campaign.name campaign)
                    (Campaign.subject campaign) (Campaign.status campaign)
                    (Campaign.created_at campaign) (Campaign.started_at campaign)
                    (Campaign.completed_at campaign))
                 progress timing recentResult)
     end)
    (fun error => throw error).

Definition getCampaignTimeline (campaignId userId : Z) : M world (list Timeline.t) :=
  try_catch
    (campaignResult ←
       db_try (Sql2.by_id campaignId (Sql.select_campaign campaignId userId));
     match campaignResult with
     | None => throw "Campaign not found or access denied"
     | Some campaign =>
         let created :=
           [Timeline.mk "created" CampaignStatus.draft
              (Campaign.created_at campaign) "Campaign created"] in
         let started :=
           match Campaign.started_at campaign with
           | Some ts =>
               [Timeline.mk "started" CampaignStatus.sending ts
                  "Campaign sending started"]
           | None => []
           end in
         let completed :=
           match Campaign.completed_at campaign with
           | Some ts =>
               [Timeline.mk "completed" (Campaign.status campaign) ts
                  (if bool_decide (Campaign.status campaign
                                   = CampaignStatus.completed)
                   then "Campaign sending completed" else "Campaign failed")]
           | None => []
           end in
         mret (created ++ started ++ completed)
     end)
    (fun error => throw error).

Definition getRecentActivity (userId limit : Z) : M world (list Activity.t) :=
  try_catch
    (result ← db_try (Sql2.recent_campaigns userId limit);
     mret ((fun row =>
              Activity.mk (fst row) (Campaign.name (snd row))
                (Campaign.status (snd row)) (progress_percentage fl (snd row))
                (Campaign.updated_at (snd row))) <$> result))
    (fun error => throw error).

End Tracker.

(* ===================================================================== *)
(** * The other routes of a campaign (routes/campaigns.js) *)
(* ===================================================================== *)

(** What a handler sends: [res.status(code).json(body)], 200 when no
    status is set. *)
Inductive payload : Type :=
  | Failure (error message : string)
  | Details (campaign : Z * Campaign.t) (progress_percentage : Z)
      (recipients : list (Z * Recipient.t))
  | Deleted (message : string) (campaign_id : Z)
  | ProgressOf (report : Report.t)
  | TimelineOf (timeline : list Timeline.t)
  | ActivityOf (activity : list Activity.t).

Record reply : Type := mkReply { code : Z; body : payload }.

Section Routes.

Variable E : env.
Variable fl : Q -> Q.

(** [error.message.includes('not found') ||
     error.message.includes('access denied')] *)
Definition not_found_error (message : string) : bool :=
  Text.includes "not found" message || Text.includes "access denied" message.

Definition invalid_id : reply :=
  mkReply 400 (Failure "Invalid campaign ID" "Campaign ID must be a number").

(** GET /api/campaigns/:id; [id] is [req.params.id]. *)
Definition get_campaign (id : string) (userId : Z) : M world reply :=
  try_catch
    (match parseInt id with
     | None => mret invalid_id
     | Some campaignId =>
         campaignResult ←
           db_try E (Sql2.by_id campaignId
                       (Sql.select_campaign campaignId userId));
         match campaignResult with
         | None =>
             mret (mkReply 404
                     (Failure "Campaign not found"
                        "Campaign not found or you do not have permission to access it"))
         | Some campaign =>
             recipientsResult ← db_select E (Sql2.select_recipients campaignId);
             mret (mkReply 200
                     (Details (campaignId, campaign) (progress_percentage fl campaign)
                        recipientsResult))
         end
     end)
    (fun _ =>
     mret (mkReply 500
             (Failure "Failed to retrieve campaign"
                "An error occurred while retrieving campaign details"))).

(** DELETE /api/campaigns/:id *)
Definition delete_campaign (id : string) (userId : Z) : M world reply :=
  try_catch
    (match parseInt id with
     | None => mret invalid_id
     | Some campaignId =>
         statusResult ←
           db_try E (Sql2.by_id campaignId
                       (Sql.select_campaign campaignId userId));
         match statusResult with
         | None =>
             mret (mkReply 404
                     (Failure "Campaign not found"
                        "Campaign not found or you do not have permission to delete it"))
         | Some row =>
             if bool_decide (Campaign.status row = CampaignStatus.sending) then
               mret (mkReply 400
                       (Failure "Cannot delete campaign"
                          "Cannot delete campaign while it is sending. Please wait for it to complete or cancel it first."))
             else
               result ← db_query E (Sql2.delete_campaign campaignId userId);
               match result with
               | None =>
                   mret (mkReply 404
                           (Failure "Campaign not found"
                              "Campaign not found or you do not have permission to delete it"))
               | Some _ =>
                   mret (mkReply 200
                           (Deleted "Campaign deleted successfully" campaignId))
               end
         end
     end)
    (fun _ =>
     mret (mkReply 500
             (Failure "Deletion failed"
                "An error occurred while deleting the campaign"))).

(** GET /api/campaigns/:id/progress *)
Definition get_progress (id : string) (userId : Z) : M world reply :=
  try_catch
    (match parseInt id with
     | None => mret invalid_id
     | Some campaignId =>
         progress ← getCampaignProgress E fl campaignId userId;
         mret (mkReply 200 (ProgressOf progress))
     end)
    (fun error =>
     if not_found_error error
     then mret (mkReply 404 (Failure "Campaign not found" error))
     else mret (mkReply 500
                  (Failure "Failed to retrieve progress"
                     "An error occurred while retrieving campaign progress"))).

(** GET /api/campaigns/:id/timeline *)
Definition get_timeline (id : string) (userId : Z) : M world reply :=
  try_catch
    (match parseInt id with
     | None => mret invalid_id
     | Some campaignId =>
         timeline ← getCampaignTimeline E campaignId userId;
         mret (mkReply 200 (TimelineOf timeline))
     end)
    (fun error =>
     if not_found_error error
     then mret (mkReply 404 (Failure "Campaign not found" error))
     else mret (mkReply 500
                  (Failure "Failed to retrieve timeline"
                     "An error occurred while retrieving campaign timeline"))).

(** GET /api/campaigns/activity; [limit] is [req.query.limit], absent or
    a text. *)
Definition get_activity (limit : option string) (userId : Z) : M world reply :=
  try_catch
    (let parsed :=
       match limit with
       | Some text => parseInt text
       | None => None
       end in
     let limit :=
       Z.min (match parsed with
              | Some 0 | None => 10
              | Some n => n
              end) 50 in
     activity ← getRecentActivity E fl userId limit;
     mret (mkReply 200 (ActivityOf activity)))
    (fun _ =>
     mret (mkReply 500
             (Failure "Failed to retrieve activity"
                "An error occurred while retrieving recent activity"))).

End Routes.

(** ** The table of the router

    The routes in the order the file registers them.  A request goes to
    the first route of its method whose path matches: every handler
    answers, none passes the request on. *)
Inductive verb : Type := GET | POST | DELETE.

#[global] Instance verb_eq_dec : EqDecision verb.
Proof. solve_decision. Defined.

Inductive handler : Type :=
  | CreateCampaign | ListCampaigns | GetCampaign | DeleteCampaign
  | SendCampaign | GetProgress | GetTimeline | GetActivity
  | GetLogs | ExportLogs.

#[global] Instance handler_eq_dec : EqDecision handler.
Proof. solve_decision. Defined.

(** A piece of a route path: a literal, or a parameter [:name]. *)
Inductive piece : Type :=
  | Lit (text : string)
  | Param (name : string).

Definition routes : list (verb * list piece * handler) :=
  [ (POST, [], CreateCampaign);
    (GET, [], ListCampaigns);
    (GET, [Param "id"], GetCampaign);
    (DELETE, [Param "id"], DeleteCampaign);
    (POST, [Param "id"; Lit "send"], SendCampaign);
    (GET, [Param "id"; Lit "progress"], GetProgress);
    (GET, [Param "id"; Lit "timeline"], GetTimeline);
    (GET, [Lit "activity"], GetActivity);
    (GET, [Param "id"; Lit "logs"], GetLogs);
    (GET, [Param "id"; Lit "logs"; Lit "export"], ExportLogs) ].

(** A path is the list of its segments, the texts between the slashes,
    none of them empty.  A literal matches its text in either case, a
    parameter matches any segment and takes it as its value. *)
Fixpoint match_path (pattern : list piece) (path : list string)
  : option (list (string * string)) :=
  match pattern, path with
  | [], [] => Some []
  | Lit text :: pattern', segment :: path' =>
      if Text.eqb_ignore_case text segment then match_path pattern' path'
      else None
  | Param name :: pattern', segment :: path' =>
      match match_path pattern' path' with
      | Some params => Some ((name, segment) :: params)
      | None => None
      end
  | _, _ => None
  end.

Fixpoint route_in (table : list (verb * list piece * handler))
    (method : verb) (path : list string)
  : option (handler * list (string * string)) :=
  match table with
  | [] => None
  | (v, pattern, h) :: table' =>
      if bool_decide (v = method) then
        match match_path pattern path with
        | Some params => Some (h, params)
        | None => route_in table' method path
        end
      else route_in table' method path
  end.

Definition route : verb -> list string -> option (handler * list (string * string)) :=
  route_in routes.

(* ===================================================================== *)
(** * Patterns without groups to remember: [RegExp.prototype.test] *)
(* ===================================================================== *)

Module Re.

(** The patterns: nothing, the empty text, one character of a class, one
    pattern after another, either of two, any number of times. *)
Inductive t : Type :=
  | Void
  | Eps
  | Class (p : ascii -> bool)
  | Cat (r1 r2 : t)
  | Alt (r1 r2 : t)
  | Star (r : t).

(** [r+], [r?] and [r{0,n}] *)
Definition Plus (r : t) : t := Cat r (Star r).
Definition Opt (r : t) : t := Alt Eps r.
Fixpoint UpTo (n : nat) (r : t) : t :=
  match n with
  | O => Eps
  | S n' => Opt (Cat r (UpTo n' r))
  end.

(** The texts of a pattern. *)
Inductive lang : t -> string -> Prop :=
  | lang_eps : lang Eps ""
  | lang_class p c : p c = true -> lang (Class p) (String c "")
  | lang_cat r1 r2 s1 s2 :
      lang r1 s1 -> lang r2 s2 -> lang (Cat r1 r2) (s1 +:+ s2)
  | lang_alt_l r1 r2 s : lang r1 s -> lang (Alt r1 r2) s
  | lang_alt_r r1 r2 s : lang r2 s -> lang (Alt r1 r2) s
  | lang_star_nil r : lang (Star r) ""
  | lang_star_cons r s1 s2 :
      lang r s1 -> lang (Star r) s2 -> lang (Star r) (s1 +:+ s2).

Fixpoint nullable (r : t) : bool :=
  match r with
  | Void => false
  | Eps => true
  | Class _ => false
  | Cat r1 r2 => nullable r1 && nullable r2
  | Alt r1 r2 => nullable r1 || nullable r2
  | Star _ => true
  end.

Definition cat (r1 r2 : t) : t :=
  match r1, r2 with
  | Void, _ => Void
  | _, Void => Void
  | Eps, _ => r2
  | _, _ => Cat r1 r2
  end.

Definition alt (r1 r2 : t) : t :=
  match r1, r2 with
  | Void, _ => r2
  | _, Void => r1
  | _, _ => Alt r1 r2
  end.

(** What is left of the pattern after the character [c]. *)
Fixpoint deriv (c : ascii) (r : t) : t :=
  match r with
  | Void => Void
  | Eps => Void
  | Class p => if p c then Eps else Void
  | Cat r1 r2 =>
      if nullable r1
      then alt (cat (deriv c r1) r2) (deriv c r2)
      else cat (deriv c r1) r2
  | Alt r1 r2 => alt (deriv c r1) (deriv c r2)
  | Star r' => cat (deriv c r') (Star r')
  end.

(** [/^r$/.test(s)] *)
Fixpoint test (r : t) (s : string) : bool :=
  match s with
  | EmptyString => nullable r
  | String c s' => test (deriv c r) s'
  end.

End Re.

(* ===================================================================== *)
(** * CSV recipients (utils/csvParser.js) *)
(* ===================================================================== *)

Module Csv.

Definition in_range (lo hi : N) (c : ascii) : bool :=
  let n := N_of_ascii c in ((lo <=? n) && (n <=? hi))%N.

(** [[a-zA-Z0-9]] *)
Definition alnum (c : ascii) : bool :=
  in_range 97 122 c || in_range 65 90 c || in_range 48 57 c.

(** [[a-zA-Z0-9.!#$%&'*+/=?^_`{|}~-]] *)
Definition local_char (c : ascii) : bool :=
  alnum c || Str.mem c ".!#$%&'*+/=?^_`{|}~-".

(** [[a-zA-Z0-9-]] *)
Definition alnum_hyphen (c : ascii) : bool :=
  alnum c || Ascii.eqb c "-".

(** [[a-zA-Z0-9](?:[a-zA-Z0-9-]{0,61}[a-zA-Z0-9])?] *)
Definition label : Re.t :=
  Re.Cat (Re.Class alnum)
    (Re.Opt (Re.Cat (Re.UpTo 61 (Re.Class alnum_hyphen)) (Re.Class alnum))).

(** [EMAIL_REGEX], between [^] and [$]. *)
Definition EMAIL_REGEX : Re.t :=
  Re.Cat (Re.Plus (Re.Class local_char))
    (Re.Cat (Re.Class (Ascii.eqb "@"))
       (Re.Cat label
          (Re.Star (Re.Cat (Re.Class (Ascii.eqb ".")) label)))).

Definition MAX_FILE_SIZE : Z := 10 * 1024 * 1024.
Definition MAX_RECIPIENTS : Z := 10000.
Definition MAX_CUSTOM_FIELDS : nat := 20.
Definition MAX_FIELD_LENGTH : nat := 1000.

(** [s.length] *)
Definition length (s : string) : Z := Z.of_nat (String.length s).

(** An entry of [errors] or of [warnings]; the first errors of
    [parseCSV] carry a message only. *)
Record issue : Type := mkIssue {
  row : option Z;
  field : option string;
  message : string;
  value : option string
}.

Record recipient : Type := mkRecipient {
  email : string;
  name : string;
  customFields : Obj.t
}.

Record validation : Type := mkValidation {
  valid : bool;
  errors : list issue;
  warnings : list issue;
  recipients : list recipient;
  duplicates : Z
}.

(** [obj[key] = value] on a plain object: assigning a text to [__proto__]
    sets no property. *)
Definition assign (key : string) (value : jsval) (o : Obj.t) : Obj.t :=
  if String.eqb key "__proto__" then o else Obj.set key value o.

(** [value.substring(0, n)] *)
Definition prefix (n : nat) (s : string) : string := substring 0 n s.

Definition extractRecipientCustomFields (record : Obj.t) : Obj.t :=
  fold_left
    (fun customFields kv =>
       if negb (String.eqb (fst kv) "email") && negb (String.eqb (fst kv) "name")
       then assign (fst kv)
              (if falsy (snd kv) then JString ""
               else JString (prefix MAX_FIELD_LENGTH (or_empty (snd kv))))
              customFields
       else customFields)
    (Obj.entries record) [].

(** [isValidEmail(email)] *)
Definition isValidEmail (email : jsval) : bool :=
  match email with
  | JString s =>
      if String.eqb s "" then false
      else if 255 <? length s then false
      else Re.test EMAIL_REGEX s
  | _ => false
  end.

(** The variables of [validateRecipients]. *)
Record state : Type := mkState {
  st_errors : list issue;
  st_warnings : list issue;
  validRecipients : list recipient;
  seenEmails : gset string;
  duplicateCount : Z
}.

Definition error_at (rowNumber : Z) (message value : string) (s : state) : state :=
  mkState (st_errors s ++ [mkIssue (Some rowNumber) (Some "email") message (Some value)])
    (st_warnings s) (validRecipients s) (seenEmails s) (duplicateCount s).

(** The warnings of the loop over the entries of a record. *)
Definition field_warnings (rowNumber : Z) (record : Obj.t) : list issue :=
  omap
    (fun kv =>
       if negb (String.eqb (fst kv) "email") && negb (String.eqb (fst kv) "name")
          && negb (falsy (snd kv))
          && (Z.of_nat MAX_FIELD_LENGTH <? length (or_empty (snd kv)))
       then Some (mkIssue (Some rowNumber) (Some (fst kv))
                    ("Field " +:+ dquote +:+ fst kv +:+ dquote
                       +:+ " exceeds 1000 characters and will be truncated")
                    (Some (prefix 50 (or_empty (snd kv)) +:+ "...")))
       else None)
    (Obj.entries record).

(** The callback of [records.forEach], on the record at [index]. *)
Definition validate_record (index : nat) (record : Obj.t) (s : state) : state :=
  let rowNumber := Z.of_nat index + 2 in
  let email :=
    if falsy (Obj.get "email" record) then ""
    else Text.trim (or_empty (Obj.get "email" record)) in
  let name :=
    if falsy (Obj.get "name" record) then ""
    else Text.trim (or_empty (Obj.get "name" record)) in
  if String.eqb email "" then
    error_at rowNumber "Email is required" "" s
  else if 255 <? length email then
    error_at rowNumber "Email exceeds maximum length of 255 characters"
      (prefix 50 email +:+ "...") s
  else if negb (Re.test EMAIL_REGEX email) then
    error_at rowNumber "Invalid email format" email s
  else
    let emailLower := Text.toLowerCase email in
    if bool_decide (emailLower ∈ seenEmails s) then
      let s := error_at rowNumber "Duplicate email address" email s in
      mkState (st_errors s) (st_warnings s) (validRecipients s) (seenEmails s)
        (duplicateCount s + 1)
    else
      let long_name :=
        if negb (String.eqb name "") && (255 <? length name)
        then [mkIssue (Some rowNumber) (Some "name")
                "Name exceeds 255 characters and will be truncated"
                (Some (prefix 50 name +:+ "..."))]
        else [] in
      let no_name :=
        if String.eqb name ""
        then [mkIssue (Some rowNumber) (Some "name") "Name field is empty" None]
        else [] in
      mkState (st_errors s)
        (st_warnings s ++ long_name ++ no_name ++ field_warnings rowNumber record)
        (validRecipients s
           ++ [mkRecipient (Text.toLowerCase email) (prefix 255 name)
                 (extractRecipientCustomFields record)])
        ({[ emailLower ]} ∪ seenEmails s)
        (duplicateCount s).

Fixpoint forEach (index : nat) (records : list Obj.t) (s : state) : state :=
  match records with
  | [] => s
  | record :: records' =>
      forEach (S index) records' (validate_record index record s)
  end.

Definition validateRecipients (records : list Obj.t) : validation :=
  let s := forEach 0 records (mkState [] [] [] ∅ 0) in
  mkValidation (bool_decide (st_errors s = [])) (st_errors s) (st_warnings s)
    (validRecipients s) (duplicateCount s).

(** [extractCustomFields(records)] *)
Definition extractCustomFields (records : list Obj.t) : list string :=
  match records with
  | [] => []
  | first :: _ =>
      take MAX_CUSTOM_FIELDS
        (List.filter
           (fun field => negb (String.eqb field "email")
                         && negb (String.eqb field "name"))
           (map fst (Obj.entries first)))
  end.

Record summary : Type := mkSummary {
  totalRows : Z;
  validRows : Z;
  errorRows : Z;
  sum_duplicates : Z
}.

Record result : Type := mkResult {
  res_valid : bool;
  res_errors : list issue;
  res_warnings : option (list issue);
  res_recipients : list recipient;
  res_customFields : list string;
  res_summary : option summary
}.

Definition rejected (message : string) : result :=
  mkResult false [mkIssue None None message None] None [] [] None.

Section Parse.

(** [parse(fileBuffer, { columns: true, skip_empty_lines: true,
    trim: true, relax_column_count: true, cast: false })] of the
    csv-parse library: the records, one object for each data row with a
    property for each column, or an error. *)
Variable parse : string -> outcome (list Obj.t).

(** [parseCSV(fileBuffer)]; the buffer is the text of its bytes. *)
Definition parseCSV (fileBuffer : string) : result :=
  if MAX_FILE_SIZE <? length fileBuffer then
    rejected "File size exceeds maximum of 10MB"
  else if length fileBuffer =? 0 then
    rejected "CSV file is empty"
  else
    match parse fileBuffer with
    | Throw message => rejected ("CSV parse error: " +:+ message)
    | Ok [] => rejected "CSV file contains no data rows"
    | Ok ((first :: _) as records) =>
        let headers := map fst (Obj.entries first) in
        if negb (existsb (fun h => String.eqb (Text.toLowerCase h) "email") headers)
        then
          rejected ("Required column " +:+ dquote +:+ "email" +:+ dquote
                      +:+ " not found in CSV. Column names are case-insensitive.")
        else
          let normalizedRecords :=
            map (fun record =>
                   fold_left
                     (fun normalized kv =>
                        assign (Text.toLowerCase (fst kv)) (snd kv) normalized)
                     (Obj.entries record) [])
              records in
          if MAX_RECIPIENTS <? Z.of_nat (List.length normalizedRecords) then
            rejected ("CSV contains "
                        +:+ NilZero.string_of_uint
                              (Nat.to_uint (List.length normalizedRecords))
                        +:+ " recipients. Maximum allowed is 10000.")
          else
            let validation := validateRecipients normalizedRecords in
            let customFields := extractCustomFields normalizedRecords in
            mkResult (valid validation) (errors validation)
              (Some (warnings validation)) (recipients validation) customFields
              (Some (mkSummary (Z.of_nat (List.length normalizedRecords))
                       (Z.of_nat (List.length (recipients validation)))
                       (Z.of_nat (List.length (errors validation)))
                       (duplicates validation)))
    end.

End Parse.

End Csv.

(* ===================================================================== *)
(** * Vocabulary of the proofs, continued *)
(* ===================================================================== *)

(** ** What a computation keeps

    [respects R m]: whatever [m] does and however it ends, the state it
    leaves is related by [R] to the state it started from. *)
Definition respects {S A} (R : S -> S -> Prop) (m : M S A) : Prop :=
  forall s o s', m s = (o, s') -> R s s'.

(** A relation on worlds, seen beside the local variables. *)
Definition on_world {L} (R : world -> world -> Prop) : L * world -> L * world -> Prop :=
  fun s s' => R (snd s) (snd s').

(** The statements the dispatcher of the campaign [cid] sends to the
    database, each one a function on databases. *)
Inductive statement_of (cid : Z) : (db -> db) -> Prop :=
  | st_mark_sent ts rid : statement_of cid (Sql.mark_sent ts rid)
  | st_mark_failed e rid : statement_of cid (Sql.mark_failed e rid)
  | st_incr_sent_count ts : statement_of cid (Sql.incr_sent_count ts cid)
  | st_incr_failed_count ts : statement_of cid (Sql.incr_failed_count ts cid)
  | st_update_status ts st sa ca :
      started st -> statement_of cid (Sql.update_status ts cid st sa ca)
  | st_insert_email_log ts u c r e s st mid err :
      statement_of cid (Sql.insert_email_log ts u c r e s st mid err).

(** The world after some steps of the pipeline, for a relation [Rd] its
    statements keep on the database: the wire has only grown, the clock
    has not gone back, and no callback was queued. *)
Definition world_rel (Rd : db -> db -> Prop) (w w' : world) : Prop :=
  Rd (database w) (database w')
  /\ wire w `prefix_of` wire w'
  /\ clock w <= clock w'
  /\ immediates w' = immediates w.

(** Steps that neither hand a message to the mail server nor let time
    pass. *)
Definition quiet (w w' : world) : Prop :=
  wire w' = wire w /\ clock w' = clock w.

(** The log has only grown and the stored configurations are as they
    were. *)
Definition log_grows (d d' : db) : Prop :=
  email_logs d `prefix_of` email_logs d'
  /\ smtp_configs d' = smtp_configs d.

(** The columns of a campaign and of a recipient that say what they are. *)
Definition same_campaign (c c' : Campaign.t) : Prop :=
  Campaign.user_id c' = Campaign.user_id c
  /\ Campaign.name c' = Campaign.name c
  /\ Campaign.subject c' = Campaign.subject c
  /\ Campaign.email_body c' = Campaign.email_body c
  /\ Campaign.html_body c' = Campaign.html_body c
  /\ Campaign.recipient_count c' = Campaign.recipient_count c
  /\ Campaign.created_at c' = Campaign.created_at c.

Definition same_recipient (r r' : Recipient.t) : Prop :=
  Recipient.campaign_id r' = Recipient.campaign_id r
  /\ Recipient.email r' = Recipient.email r
  /\ Recipient.name r' = Recipient.name r
  /\ Recipient.custom_fields r' = Recipient.custom_fields r
  /\ Recipient.created_at r' = Recipient.created_at r.

(** No row was created or deleted, the rows kept those columns, and no
    campaign but [cid] was written. *)
Definition rows_kept (cid : Z) (d d' : db) : Prop :=
  (forall j, option_Forall2 same_campaign (campaigns d !! j) (campaigns d' !! j))
  /\ (forall j, j <> cid -> campaigns d' !! j = campaigns d !! j)
  /\ (forall j, option_Forall2 same_recipient
                  (campaign_recipients d !! j) (campaign_recipients d' !! j)).

(** The campaigns only moved forward: counters did not go down, a state
    changed only to one of a started campaign, and a time once written
    was not cleared. *)
Definition moved_forward (d d' : db) : Prop :=
  forall j,
    option_Forall2
      (fun c c' =>
         Campaign.sent_count c <= Campaign.sent_count c'
         /\ Campaign.failed_count c <= Campaign.failed_count c'
         /\ (Campaign.status c' = Campaign.status c
             \/ started (Campaign.status c'))
         /\ (is_Some (Campaign.started_at c) -> is_Some (Campaign.started_at c'))
         /\ (is_Some (Campaign.completed_at c)
             -> is_Some (Campaign.completed_at c')))
      (campaigns d !! j) (campaigns d' !! j).

(** The log row [row] tells what the ledger of [d] tells about the
    recipient [p] of the campaign [cid]: both 'sent', or both 'failed'
    with the same error. *)
Definition log_agrees (cid uid : Z) (d : db) (p : Z * Recipient.t) (row : EmailLog.t)
  : Prop :=
  EmailLog.recipient_id row = fst p
  /\ EmailLog.campaign_id row = cid
  /\ EmailLog.user_id row = uid
  /\ EmailLog.recipient_email row = Recipient.email (snd p)
  /\ exists r',
       campaign_recipients d !! fst p = Some r'
       /\ ((EmailLog.status row = LogStatus.sent
            /\ Recipient.status r' = RecipientStatus.sent)
           \/ (EmailLog.status row = LogStatus.failed
               /\ Recipient.status r' = RecipientStatus.failed
               /\ Recipient.error_message r' = EmailLog.error_message row
               /\ is_Some (EmailLog.error_message row))).

(** The number of rows of a log with the status 'sent', and 'failed'. *)
Definition is_sent (row : EmailLog.t) : bool :=
  match EmailLog.status row with LogStatus.sent => true | _ => false end.

Definition is_failed (row : EmailLog.t) : bool :=
  match EmailLog.status row with LogStatus.failed => true | _ => false end.

Definition count_rows (p : EmailLog.t -> bool) (rows : list EmailLog.t) : Z :=
  Z.of_nat (length (List.filter p rows)).

(** The row of the campaign [cid] is still there, with its owner and its
    completed_at. *)
Definition completion_kept (cid : Z) (d d' : db) : Prop :=
  forall c, campaigns d !! cid = Some c ->
    exists c', campaigns d' !! cid = Some c'
               /\ Campaign.user_id c' = Campaign.user_id c
               /\ Campaign.completed_at c' = Campaign.completed_at c.

Module ReFacts.

(** Every class of the pattern holds [f c] when it holds [c]. *)
Fixpoint closed (f : ascii -> ascii) (r : Re.t) : Prop :=
  match r with
  | Re.Class p => forall c, p c = true -> p (f c) = true
  | Re.Cat r1 r2 | Re.Alt r1 r2 => closed f r1 /\ closed f r2
  | Re.Star r' => closed f r'
  | _ => True
  end.

(** The characters some class of the pattern holds. *)
Fixpoint alphabet (r : Re.t) (c : ascii) : bool :=
  match r with
  | Re.Class p => p c
  | Re.Cat r1 r2 | Re.Alt r1 r2 => alphabet r1 c || alphabet r2 c
  | Re.Star r' => alphabet r' c
  | _ => false
  end.

End ReFacts.

(** The characters that would end or split a header line or an address
    list: white space and the other control characters, what lies beyond
    ASCII, the double quote, the comma, the semicolon, the colon and the
    angle brackets. *)
Definition breaks_a_header (c : ascii) : bool :=
  Csv.in_range 0 32 c || Csv.in_range 127 255 c
  || Ascii.eqb c (ascii_of_nat 34) || Str.mem c ",;:<>".

(** [[a-zA-Z0-9-.]], the characters of a domain. *)
Definition domain_char (c : ascii) : bool :=
  Csv.alnum c || Ascii.eqb c "-" || Ascii.eqb c ".".

(** The address of a record as the loop of [validateRecipients] reads
    it: the [email] property without the white space around it, the
    empty text when the property is absent. *)
Definition address (record : Obj.t) : string :=
  Text.trim (or_empty (Obj.get "email" record)).

(** A custom field as it is handed on: not [email], not [name], a text
    of at most 1000 characters. *)
Definition clean_field (kv : string * jsval) : Prop :=
  fst kv <> "email" /\ fst kv <> "name"
  /\ exists v, snd kv = JString v /\ (String.length v <= Csv.MAX_FIELD_LENGTH)%nat.

(** A recipient as it is handed on: a valid address in lower case, a
    name of at most 255 characters, clean custom fields. *)
Definition clean (r : Csv.recipient) : Prop :=
  Csv.isValidEmail (JString (Csv.email r)) = true
  /\ Text.toLowerCase (Csv.email r) = Csv.email r
  /\ Csv.length (Csv.name r) <= 255
  /\ Forall clean_field (Csv.customFields r).

(** An entry of [errors] that reports a repeated address. *)
Definition is_duplicate (e : Csv.issue) : bool :=
  String.eqb (Csv.message e) "Duplicate email address".

(** The text a record's address is compared and stored as. *)
Definition stored_address (record : Obj.t) : string :=
  Text.toLowerCase (address record).

(** Two data rows as the parser hands them on, for the examples. *)
Module DemoCsv.

Definition records : list Obj.t :=
  [[("Email", JString " Ann@Example.org "); ("Name", JString "Ann");
    ("City", JString "Oslo")];
   [("Email", JString "bob@example.org"); ("Name", JString "");
    ("City", JString "Rome")]].

Definition parse (_ : string) : outcome (list Obj.t) := Ok records.

End DemoCsv.

(* ===================================================================== *)
(** * Reasoning about runs *)
(* ===================================================================== *)

Lemma tables_kept_refl d : tables_kept d d.
Proof. by repeat split. Qed.

Lemma tables_kept_trans d1 d2 d3 :
  tables_kept d1 d2 -> tables_kept d2 d3 -> tables_kept d1 d3.
Proof. intros (?&?&?) (?&?&?). repeat split; congruence. Qed.

Lemma tables_kept_insert_email_log ts u c r e s st mid err d :
  tables_kept d (Sql.insert_email_log ts u c r e s st mid err d).
Proof. by repeat split. Qed.

Create HintDb pipeline.
#[global] Hint Resolve tables_kept_refl tables_kept_insert_email_log : pipeline.

Ltac run_queries Hrel :=
  unfold db_select, db_update, db_query; rewrite ?Hrel; simpl.

Ltac unfold_monad :=
  unfold mbind, M_bind, mret, M_ret, throw, try_catch, of_outcome, in_world,
    modify_locals, get_locals, with_locals in *.

Lemma bind_inv {S A B} (m : M S A) (k : A -> M S B) s o s'' :
  (m ≫= k) s = (o, s'') ->
  (exists a s', m s = (Ok a, s') /\ k a s' = (o, s''))
  \/ (exists e, m s = (Throw e, s'') /\ o = Throw e).
Proof.
  unfold mbind, M_bind. destruct (m s) as [[a|e] s'].
  - intros H. left. eauto.
  - intros [= <- <-]. right. eauto.
Qed.

Lemma try_catch_inv {S A} (m : M S A) (h : string -> M S A) s o s'' :
  try_catch m h s = (o, s'') ->
  (exists a, m s = (Ok a, s'') /\ o = Ok a)
  \/ (exists e s', m s = (Throw e, s') /\ h e s' = (o, s'')).
Proof.
  unfold try_catch. destruct (m s) as [[a|e] s'].
  - intros [= <- <-]. left. eauto.
  - intros H. right. eauto.
Qed.

Section Runs.

Context (E : env).

Lemma db_query_inv {A} (statement : db -> A * db) w o w' :
  db_query E statement w = (o, w') ->
  clock w' = clock w /\ wire w' = wire w /\ immediates w' = immediates w
  /\ queries w' = S (queries w)
  /\ ((exists e, o = Throw e /\ query_fault E (queries w) = Some e
                 /\ database w' = database w)
      \/ (o = Ok (fst (statement (database w)))
          /\ query_fault E (queries w) = None
          /\ database w' = snd (statement (database w)))).
Proof.
  unfold db_query. destruct (query_fault E (queries w)) as [e|] eqn:Hq.
  - intros [= <- <-]. simpl. repeat split; eauto.
  - destruct (statement (database w)) as [a d] eqn:Hs.
    intros [= <- <-]. simpl. repeat split; eauto.
Qed.

Lemma db_select_inv {A} (q : db -> A) w o w' :
  db_select E q w = (o, w') ->
  clock w' = clock w /\ wire w' = wire w /\ immediates w' = immediates w
  /\ database w' = database w
  /\ ((exists e, o = Throw e) \/ o = Ok (q (database w))).
Proof.
  intros H. apply db_query_inv in H as (?&?&?&?&[(e&->&?&?)|(->&?&?)]);
    simpl in *; repeat split; eauto.
Qed.

Lemma db_update_inv (u : timestamp -> db -> db) w o w' :
  db_update E u w = (o, w') ->
  clock w' = clock w /\ wire w' = wire w /\ immediates w' = immediates w
  /\ ((exists e, o = Throw e /\ database w' = database w)
      \/ (o = Ok tt /\ database w' = u (clock w) (database w))).
Proof.
  intros H. apply db_query_inv in H as (?&?&?&?&[(e&->&?&?)|(->&?&?)]);
    simpl in *; repeat split; eauto.
Qed.

Lemma logEmail_inv u c r e s st mid err w o w' :
  logEmail E u c r e s st mid err w = (o, w') ->
  clock w' = clock w /\ wire w' = wire w /\ immediates w' = immediates w
  /\ tables_kept (database w) (database w').
Proof.
  intros H. apply db_update_inv in H as (?&?&?&[(?&->&->)|(->&->)]);
    repeat split; auto.
Qed.

Lemma sendEmail_inv t m w o w' :
  sendEmail E t m w = (o, w') ->
  clock w' = clock w /\ immediates w' = immediates w /\ queries w' = queries w
  /\ database w' = database w.
Proof.
  unfold sendEmail, transporter_sendMail. unfold_monad.
  repeat case_match; by intros [= <- <-].
Qed.

Lemma render_inv text data w o w' :
  render E text data w = (o, w') -> w' = w.
Proof. unfold render. unfold_monad. by intros [= _ <-]. Qed.

Lemma sendToRecipient_inv r c t u w o w' :
  sendToRecipient E r c t u w = (o, w') ->
  clock w' = clock w /\ immediates w' = immediates w
  /\ tables_kept (database w) (database w').
Proof.
  unfold sendToRecipient. cbv zeta. intros H.
  apply bind_inv in H as [(subject&w1&H1&H)|(e&H1&->)];
    apply render_inv in H1 as ->; [|auto with pipeline].
  apply bind_inv in H as [(body&w1&H1&H)|(e&H1&->)];
    apply render_inv in H1 as ->; [|auto with pipeline].
  apply bind_inv in H as [(h&w1&Hh&H)|(e&Hh&->)].
  2:{ repeat case_match; unfold_monad; simplify_eq; auto with pipeline.
      destruct (render E _ _ w) as [[?|?] w2] eqn:Hrend;
        apply render_inv in Hrend as ->; simplify_eq; auto with pipeline. }
  assert (w1 = w) as ->.
  { repeat case_match; unfold_monad; simplify_eq; auto.
    destruct (render E _ _ w) as [[?|?] w2] eqn:Hrend;
      apply render_inv in Hrend as ->; by simplify_eq. }
  clear Hh.
  apply bind_inv in H as [(mid&w1&H1&H)|(e&H1&->)];
    apply sendEmail_inv in H1 as (Hc&Hi&_&Hd);
    [|rewrite Hc, Hi, Hd; auto with pipeline].
  apply bind_inv in H as [([]&w2&H2&H)|(e&H2&->)];
    apply logEmail_inv in H2 as (Hc2&_&Hi2&Hk); rewrite Hd in Hk.
  - unfold_monad. simplify_eq. repeat split; try congruence; apply Hk.
  - repeat split; try congruence; apply Hk.
Qed.

Lemma in_world_inv {L A} (m : M world A) (l : L) w o l' w' :
  in_world m (l, w) = (o, (l', w')) -> l' = l /\ m w = (o, w').
Proof.
  unfold in_world. destruct (m w) as [o1 w1]. by intros [= <- <- <-].
Qed.

Lemma alter_self {A} (m : gmap Z A) i : m = alter id i m.
Proof. symmetry. by apply alter_id. Qed.

Lemma modify_locals_inv {L} (f : L -> L) l w o l' w' :
  modify_locals f (l, w) = (o, (l', w')) -> o = Ok tt /\ w' = w.
Proof. unfold modify_locals. by intros [= <- <- <-]. Qed.

Lemma touched_kept rid cid d d' :
  tables_kept d d' -> touched rid cid d d' id id.
Proof.
  intros (Hc&Hr&Hs). repeat split; auto.
  - rewrite Hr. apply alter_self.
  - rewrite Hc. apply alter_self.
Qed.

Lemma touched_trans rid cid d1 d2 d3 fr1 fc1 fr2 fc2 :
  touched rid cid d1 d2 fr1 fc1 -> touched rid cid d2 d3 fr2 fc2 ->
  touched rid cid d1 d3 (fr2 ∘ fr1) (fc2 ∘ fc1).
Proof.
  intros (Hs1&Hr1&Hc1) (Hs2&Hr2&Hc2). repeat split.
  - congruence.
  - rewrite Hr2, Hr1. by rewrite alter_alter_eq.
  - rewrite Hc2, Hc1. by rewrite alter_alter_eq.
Qed.

Lemma touched_mark_sent rid cid ts d :
  touched rid cid d (Sql.mark_sent ts rid d)
    (fun r => Recipient.set_sent_at (Some ts)
                (Recipient.set_status RecipientStatus.sent r)) id.
Proof. repeat split. apply alter_self. Qed.

Lemma touched_mark_failed rid cid e d :
  touched rid cid d (Sql.mark_failed e rid d)
    (fun r => Recipient.set_error_message (Some e)
                (Recipient.set_status RecipientStatus.failed r)) id.
Proof. repeat split. apply alter_self. Qed.

Lemma touched_incr_sent rid cid ts d :
  touched rid cid d (Sql.incr_sent_count ts cid d) id
    (fun c => Campaign.set_updated_at ts
                (Campaign.set_sent_count (Campaign.sent_count c + 1) c)).
Proof. repeat split. apply alter_self. Qed.

Lemma touched_incr_failed rid cid ts d :
  touched rid cid d (Sql.incr_failed_count ts cid d) id
    (fun c => Campaign.set_updated_at ts
                (Campaign.set_failed_count (Campaign.failed_count c + 1) c)).
Proof. repeat split. apply alter_self. Qed.

Lemma row_touch_id : row_touch id.
Proof. by intros r. Qed.

Lemma camp_touch_id : camp_touch id.
Proof. intros c. simpl. repeat split; lia. Qed.

Lemma row_touch_compose f g : row_touch f -> row_touch g -> row_touch (f ∘ g).
Proof.
  intros Hf Hg r. destruct (Hf (g r)) as (?&?&?), (Hg r) as (?&?&?).
  simpl. repeat split; congruence.
Qed.

Lemma camp_touch_compose f g : camp_touch f -> camp_touch g -> camp_touch (f ∘ g).
Proof.
  intros Hf Hg c.
  destruct (Hf (g c)) as (?&?&?&?&?&?&?), (Hg c) as (?&?&?&?&?&?&?).
  simpl. repeat split; try congruence; lia.
Qed.

#[local] Hint Resolve row_touch_id camp_touch_id row_touch_compose
  camp_touch_compose : pipeline.

Lemma row_touch_mark_sent ts :
  row_touch (fun r => Recipient.set_sent_at (Some ts)
                        (Recipient.set_status RecipientStatus.sent r)).
Proof. by intros r. Qed.

Lemma row_touch_mark_failed e :
  row_touch (fun r => Recipient.set_error_message (Some e)
                        (Recipient.set_status RecipientStatus.failed r)).
Proof. by intros r. Qed.

Lemma camp_touch_incr_sent ts :
  camp_touch (fun c => Campaign.set_updated_at ts
                         (Campaign.set_sent_count (Campaign.sent_count c + 1) c)).
Proof. intros c. simpl. repeat split; lia. Qed.

Lemma camp_touch_incr_failed ts :
  camp_touch (fun c => Campaign.set_updated_at ts
                         (Campaign.set_failed_count (Campaign.failed_count c + 1) c)).
Proof. intros c. simpl. repeat split; lia. Qed.

#[local] Hint Resolve row_touch_mark_sent row_touch_mark_failed
  camp_touch_incr_sent camp_touch_incr_failed : pipeline.

(** The [try] block. *)
Lemma attempt_try_inv cid uid c t rid r l w o l' w' :
  (in_world (sendToRecipient E (rid, r) (cid, c) t uid);;
   modify_locals (fun l => mkCounters (sentCount l + 1) (failedCount l));;
   in_world (db_update E (fun ts => Sql.mark_sent ts rid));;
   in_world (db_update E (fun ts => Sql.incr_sent_count ts cid))) (l, w)
  = (o, (l', w')) ->
  immediates w' = immediates w
  /\ exists fr fc,
       touched rid cid (database w) (database w') fr fc
       /\ row_touch fr /\ camp_touch fc
       /\ (o = Ok tt -> settled fr fc)
       /\ (forall e, o = Throw e -> fc = id).
Proof.
  intros H.
  apply bind_inv in H as [(mid&[l1 w1]&H1&H)|(e&H1&->)];
    apply in_world_inv in H1 as [-> H1];
    apply sendToRecipient_inv in H1 as (Hc1&Hi1&Hk1).
  2:{ split; [done|]. exists id, id. split; [by apply touched_kept|].
      repeat split; auto with pipeline; done. }
  apply bind_inv in H as [([]&[l2 w2]&H2&H)|(e&H2&->)];
    apply modify_locals_inv in H2 as [? ->]; [|done].
  apply bind_inv in H as [([]&[l3 w3]&H3&H)|(e&H3&->)];
    apply in_world_inv in H3 as [-> H3];
    apply db_update_inv in H3 as (Hc3&_&Hi3&[(?&?&Hd3)|(?&Hd3)]); try done.
  2:{ split; [congruence|]. exists id, id. rewrite Hd3.
    split; [by apply touched_kept|]. repeat split; auto with pipeline; done. }
  apply in_world_inv in H as [-> H].
  apply db_update_inv in H as (Hc4&_&Hi4&[(?&->&Hd4)|(->&Hd4)]).
  - split; [congruence|]. do 2 eexists. split.
    { eapply touched_trans; [apply touched_kept, Hk1|].
      rewrite Hd4, Hd3. apply touched_mark_sent. }
    repeat split; auto with pipeline; done.
  - split; [congruence|]. do 2 eexists. split.
    { eapply touched_trans; [apply touched_kept, Hk1|].
      eapply touched_trans; rewrite ?Hd4, ?Hd3;
        [apply touched_mark_sent|apply touched_incr_sent]. }
    repeat split; simpl; try lia; try done.
    intros _. left. split; intros; simpl; auto.
Qed.

(** The [catch] block. *)
Lemma attempt_catch_inv cid uid c rid r e l w o l' w' :
  (modify_locals (fun l => mkCounters (sentCount l) (failedCount l + 1));;
   in_world (db_update E (fun _ => Sql.mark_failed e rid));;
   in_world (db_update E (fun ts => Sql.incr_failed_count ts cid));;
   in_world (logEmail E uid cid rid (Recipient.email r) (Campaign.subject c)
               LogStatus.failed None (Some e))) (l, w)
  = (o, (l', w')) ->
  immediates w' = immediates w
  /\ exists fr fc,
       touched rid cid (database w) (database w') fr fc
       /\ row_touch fr /\ camp_touch fc
       /\ (o = Ok tt ->
           (forall r, Recipient.status (fr r) = RecipientStatus.failed)
           /\ (forall c, Campaign.failed_count (fc c) = Campaign.failed_count c + 1
                         /\ Campaign.sent_count (fc c) = Campaign.sent_count c)).
Proof.
  intros H.
  apply bind_inv in H as [([]&[l2 w2]&H2&H)|(e'&H2&->)];
    apply modify_locals_inv in H2 as [? ->]; [|done].
  apply bind_inv in H as [([]&[l3 w3]&H3&H)|(e'&H3&->)];
    apply in_world_inv in H3 as [-> H3];
    apply db_update_inv in H3 as (Hc3&_&Hi3&[(?&?&Hd3)|(?&Hd3)]); try done.
  2:{ split; [congruence|]. exists id, id. rewrite Hd3.
    split; [apply touched_kept, tables_kept_refl|].
    repeat split; auto with pipeline; done. }
  apply bind_inv in H as [([]&[l4 w4]&H4&H)|(e'&H4&->)];
    apply in_world_inv in H4 as [-> H4];
    apply db_update_inv in H4 as (Hc4&_&Hi4&[(?&?&Hd4)|(?&Hd4)]); try done.
  2:{ split; [congruence|]. do 2 eexists. split.
    { rewrite Hd4, Hd3. apply touched_mark_failed. }
    repeat split; auto with pipeline; done. }
  apply in_world_inv in H as [-> H].
  apply logEmail_inv in H as (Hc5&_&Hi5&Hk5).
  split; [congruence|]. do 2 eexists. split.
  { eapply touched_trans; [|apply touched_kept, Hk5].
    eapply touched_trans; rewrite ?Hd4, ?Hd3;
      [apply touched_mark_failed|apply touched_incr_failed]. }
  repeat split; simpl; try lia; try done.
Qed.

Lemma attempt_inv cid uid c t rid r l w o l' w' :
  attempt E cid uid c t (rid, r) (l, w) = (o, (l', w')) ->
  immediates w' = immediates w
  /\ exists fr fc,
       touched rid cid (database w) (database w') fr fc
       /\ row_touch fr /\ camp_touch fc /\ (o = Ok tt -> settled fr fc).
Proof.
  unfold attempt. simpl fst. simpl snd. intros H.
  apply try_catch_inv in H as [([]&H&->)|(e&[l0 w0]&H&Hh)].
  - apply attempt_try_inv in H as (?&fr&fc&?&?&?&?&?). eauto 10.
  - apply attempt_try_inv in H as (Hi&fr&fc&Ht&Hr&Hc&_&Hid).
    rewrite (Hid e eq_refl) in Ht. clear Hid Hc fc.
    apply attempt_catch_inv in Hh as (Hi'&fr'&fc'&Ht'&Hr'&Hc'&Hok).
    split; [congruence|]. exists (fr' ∘ fr), (fc' ∘ id).
    split; [by eapply touched_trans|].
    split; [auto with pipeline|]. split; [auto with pipeline|].
    intros Ho. destruct (Hok Ho) as [Hst Hcnt]. right. split.
    + intros r0. apply Hst.
    + intros c0. apply Hcnt.
Qed.

Lemma send_one_inv cid uid c t rid r l w o l' w' :
  send_one E cid uid c t (rid, r) (l, w) = (o, (l', w')) ->
  immediates w' = immediates w
  /\ exists fr fc,
       touched rid cid (database w) (database w') fr fc
       /\ row_touch fr /\ camp_touch fc /\ (o = Ok tt -> settled fr fc).
Proof.
  unfold send_one. intros H.
  apply bind_inv in H as [([]&[l1 w1]&H1&H)|(e&H1&->)].
  - apply in_world_inv in H as [-> H]. unfold sleep in H. simplify_eq.
    apply attempt_inv in H1 as (?&fr&fc&?&?&?&Hs). simpl.
    split; [done|]. exists fr, fc. auto.
  - apply attempt_inv in H1 as (?&fr&fc&?&?&?&Hs).
    split; [done|]. exists fr, fc. do 3 (split; [done|]). done.
Qed.

(** ** The ledger seen through [select_pending] *)

Lemma elem_of_select_pending cid d i r :
  (i, r) ∈ Sql.select_pending cid d <->
  campaign_recipients d !! i = Some r
  /\ Recipient.campaign_id r = cid
  /\ Recipient.status r = RecipientStatus.pending.
Proof.
  unfold Sql.select_pending. rewrite merge_sort_Permutation.
  rewrite list_elem_of_filter, elem_of_map_to_list.
  unfold Sql.is_pending_of. simpl. tauto.
Qed.

Lemma NoDup_select_pending_ids cid d : NoDup (Sql.select_pending cid d).*1.
Proof.
  unfold Sql.select_pending. rewrite merge_sort_Permutation.
  eapply sublist_NoDup;
    [apply (NoDup_fst_map_to_list (campaign_recipients d))|].
  apply fmap_sublist, sublist_filter.
Qed.

Lemma NoDup_select_pending cid d : NoDup (Sql.select_pending cid d).
Proof. eapply NoDup_fmap_1, NoDup_select_pending_ids. Qed.

(** ** The loop *)

Lemma send_loop_body_inv cid uid c t rs : forall l w o l' w',
  NoDup rs.*1 ->
  for_of rs (send_one E cid uid c t) (l, w) = (o, (l', w')) ->
  immediates w' = immediates w
  /\ smtp_configs (database w') = smtp_configs (database w)
  /\ (forall j, j ∉ rs.*1 ->
        campaign_recipients (database w') !! j = campaign_recipients (database w) !! j)
  /\ (exists fc,
        campaigns (database w') = alter fc cid (campaigns (database w))
        /\ camp_touch fc
        /\ (o = Ok tt ->
            forall c0, Campaign.sent_count (fc c0) + Campaign.failed_count (fc c0)
                       = Campaign.sent_count c0 + Campaign.failed_count c0
                         + Z.of_nat (length rs)))
  /\ (o = Ok tt ->
      forall j r0, j ∈ rs.*1 -> campaign_recipients (database w) !! j = Some r0 ->
        exists r1, campaign_recipients (database w') !! j = Some r1
                   /\ Recipient.campaign_id r1 = Recipient.campaign_id r0
                   /\ Recipient.status r1 <> RecipientStatus.pending).
Proof.
  induction rs as [|[rid r] rs IH]; intros l w o l' w' Hnd H.
  - simpl in H. unfold_monad. simplify_eq. split; [done|]. split; [done|].
    split; [done|]. split.
    + exists id. split; [apply alter_self|]. split; [apply camp_touch_id|].
      intros _ c0. simpl. lia.
    + intros _ j r0 Hj. by apply elem_of_nil in Hj.
  - simpl in H. rewrite fmap_cons in Hnd. apply NoDup_cons in Hnd as [Hrid Hnd].
    apply bind_inv in H as [([]&[l1 w1]&H1&H)|(e&H1&->)].
    + apply send_one_inv in H1 as (Hi1&fr&fc&(Hs1&Hr1&Hc1)&Hrt&Hct&Hset).
      specialize (Hset eq_refl).
      apply IH in H as (Hi&Hs&Hfr&(fc'&Hc&Hct'&Hsum)&Hterm); [|done].
      split; [congruence|]. split; [congruence|]. split; [|split].
      * intros j Hj. rewrite fmap_cons, not_elem_of_cons in Hj.
        destruct Hj as [Hne Hj]. rewrite Hfr, Hr1 by done.
        by rewrite lookup_alter_ne.
      * exists (fc' ∘ fc). split; [by rewrite Hc, Hc1, alter_alter_eq|].
        split; [by apply camp_touch_compose|].
        intros Ho c0. simpl. rewrite (Hsum Ho).
        destruct Hset as [[_ Hcnt]|[_ Hcnt]]; destruct (Hcnt c0); lia.
      * intros Ho j r0 Hj Hr0. rewrite fmap_cons in Hj. simpl in Hj.
        destruct (decide (j = rid)) as [->|Hne].
        -- exists (fr r0). rewrite Hfr, Hr1, lookup_alter_eq, Hr0 by done.
           split; [done|]. split; [apply Hrt|].
           destruct Hset as [[Hst _]|[Hst _]]; by rewrite Hst.
        -- apply elem_of_cons in Hj as [?|Hj]; [done|].
           apply (Hterm Ho j r0 Hj).
           by rewrite Hr1, lookup_alter_ne.
    + apply send_one_inv in H1 as (Hi1&fr&fc&(Hs1&Hr1&Hc1)&Hrt&Hct&_).
      split; [done|]. split; [done|]. split; [|split].
      * intros j Hj. rewrite fmap_cons, not_elem_of_cons in Hj.
        destruct Hj as [Hne Hj]. by rewrite Hr1, lookup_alter_ne.
      * exists fc. split; [done|]. split; done.
      * done.
Qed.

Lemma select_pending_after cid uid c t d done rest l w l' w' :
  database w = d ->
  Sql.select_pending cid d = done ++ rest ->
  for_of done (send_one E cid uid c t) (l, w) = (Ok tt, (l', w')) ->
  Sql.select_pending cid (database w') ≡ₚ rest.
Proof.
  intros <- Hsel H.
  pose proof (NoDup_select_pending_ids cid (database w)) as Hnd.
  rewrite Hsel, fmap_app in Hnd. apply NoDup_app in Hnd as (Hnd1&Hdisj&Hnd2).
  apply send_loop_body_inv in H as (_&_&Hfr&_&Hterm); [|done].
  specialize (Hterm eq_refl).
  apply NoDup_Permutation.
  - apply NoDup_select_pending.
  - by eapply NoDup_fmap_1.
  - intros [j r]. rewrite elem_of_select_pending. split.
    + intros (Hj&Hc&Hp). destruct (decide (j ∈ done.*1)) as [Hin|Hout].
      * apply list_elem_of_fmap in Hin as ([j0 r0]&->&Hin). simpl in *.
        assert ((j0, r0) ∈ Sql.select_pending cid (database w)) as Hsp
          by (rewrite Hsel; set_solver).
        apply elem_of_select_pending in Hsp as (Hr0&_&_).
        destruct (Hterm j0 r0) as (r1&Hr1&_&Hnp); [set_solver|done|].
        congruence.
      * rewrite Hfr in Hj by done.
        assert ((j, r) ∈ Sql.select_pending cid (database w)) as Hsp
          by (by apply elem_of_select_pending).
        rewrite Hsel in Hsp. apply elem_of_app in Hsp as [Hd|?]; [|done].
        exfalso. apply Hout. apply list_elem_of_fmap. by exists (j, r).
    + intros Hin.
      assert ((j, r) ∈ Sql.select_pending cid (database w)) as Hsp
        by (rewrite Hsel; set_solver).
      apply elem_of_select_pending in Hsp as (Hr&Hc&Hp).
      rewrite Hfr; [done|]. intros Hd. apply (Hdisj j Hd).
      apply list_elem_of_fmap. by exists (j, r).
Qed.

(** ** [sendCampaign] *)

Lemma createTransporter_inv uid w o w' :
  createTransporter E uid w = (o, w') ->
  clock w' = clock w /\ wire w' = wire w /\ immediates w' = immediates w
  /\ database w' = database w.
Proof.
  unfold createTransporter. intros H.
  apply bind_inv in H as [(cfg&w1&H1&H)|(e&H1&->)];
    apply db_select_inv in H1 as (?&?&?&?&_); [|done].
  destruct cfg as [cfg|]; [|unfold_monad; by simplify_eq].
  unfold createTransporterFromCredentials in H. unfold_monad.
  repeat case_match; by simplify_eq.
Qed.

Lemma connect_inv uid w o w' :
  connect E uid w = (o, w') ->
  clock w' = clock w /\ wire w' = wire w /\ immediates w' = immediates w
  /\ database w' = database w.
Proof.
  unfold connect. intros H.
  apply bind_inv in H as [(t&w1&H1&H)|(e&H1&->)];
    apply createTransporter_inv in H1 as (?&?&?&?); [|done].
  unfold verifyTransporter in H. unfold_monad.
  repeat case_match; by simplify_eq.
Qed.

Lemma updateCampaignStatus_inv cid st sa ca w o w' :
  updateCampaignStatus E cid st sa ca w = (o, w') ->
  clock w' = clock w /\ wire w' = wire w /\ immediates w' = immediates w
  /\ ((exists e, o = Throw e /\ database w' = database w)
      \/ (o = Ok tt
          /\ database w' = Sql.update_status (clock w) cid st sa ca (database w))).
Proof. apply db_update_inv. Qed.

Lemma with_locals_inv {L A} (l0 : L) (m : M (L * world) A) w o w' :
  with_locals l0 m w = (o, w') -> exists l', m (l0, w) = (o, (l', w')).
Proof.
  unfold with_locals. destruct (m (l0, w)) as [o1 [l1 w1]].
  intros [= <- <-]. eauto.
Qed.

Lemma now_inv w o w' : now w = (o, w') -> o = Ok (clock w) /\ w' = w.
Proof. unfold now. by intros [= <- <-]. Qed.

(** A run that resolves: what it found and how it got there. *)
Lemma sendCampaign_ok_inv cid uid w res w' :
  sendCampaign E cid uid w = (Ok res, w') ->
  exists c,
    Sql.select_campaign cid uid (database w) = Some c
    /\ Campaign.status c = CampaignStatus.queued
    /\ ((Sql.select_pending cid (database w) = []
         /\ res = mkResult true 0 0
         /\ wire w' = wire w
         /\ database w'
            = Sql.update_status (clock w) cid CampaignStatus.completed
                (Some (clock w)) None (database w))
        \/ (Sql.select_pending cid (database w) <> []
            /\ exists t w1 l2 w2,
                 database w1
                 = Sql.update_status (clock w) cid CampaignStatus.sending
                     (Some (clock w)) None (database w)
                 /\ for_of (Sql.select_pending cid (database w))
                      (send_one E cid uid c t) (mkCounters 0 0, w1)
                    = (Ok tt, (l2, w2))
                 /\ database w'
                    = Sql.update_status (clock w2) cid CampaignStatus.completed
                        None (Some (clock w2)) (database w2)
                 /\ res = mkResult true (sentCount l2) (failedCount l2))).
Proof.
  unfold sendCampaign, dispatch. intros H.
  apply try_catch_inv in H as [(a&H&[= <-])|(e&w0&_&H)].
  2:{ apply bind_inv in H as [(?&?&_&H)|(?&_&?)]; [|done].
      unfold_monad. by simplify_eq. }
  apply bind_inv in H as [(oc&w1&H1&H)|(e&_&?)]; [|done].
  apply db_select_inv in H1 as (Hc1&Hw1&_&Hd1&[(?&?)|[= ->]]); [done|].
  destruct (Sql.select_campaign cid uid (database w)) as [c|] eqn:Hsel;
    [|unfold_monad; by simplify_eq].
  exists c. split; [done|].
  destruct (bool_decide (Campaign.status c = CampaignStatus.queued)) eqn:Hq;
    simpl in H; [|unfold_monad; by simplify_eq].
  apply bool_decide_eq_true in Hq. split; [done|].
  apply bind_inv in H as [(rs&w2&H2&H)|(e&_&?)]; [|done].
  apply db_select_inv in H2 as (Hc2&Hw2&_&Hd2&[(?&?)|[= ->]]); [done|].
  rewrite Hd1 in *.
  destruct (Sql.select_pending cid (database w)) as [|r0 rs] eqn:Hrs.
  - left. split; [done|].
    apply bind_inv in H as [(ts&w3&H3&H)|(e&_&?)]; [|done].
    apply now_inv in H3 as [[= ->] ->].
    apply bind_inv in H as [([]&w4&H4&H)|(e&_&?)]; [|done].
    apply updateCampaignStatus_inv in H4 as (_&?&_&[(?&?&_)|(_&Hd4)]); [done|].
    unfold_monad. simplify_eq. split; [done|]. split; [congruence|].
    rewrite Hd4, Hd2. congruence.
  - right. split; [done|].
    apply bind_inv in H as [(t&w3&H3&H)|(e&_&?)]; [|done].
    apply try_catch_inv in H3 as [(t'&H3&[= <-])|(e&w0&_&H3)].
    2:{ apply bind_inv in H3 as [(?&?&_&H3)|(?&_&?)]; [|done].
        unfold_monad. by simplify_eq. }
    apply connect_inv in H3 as (Hc3&_&_&Hd3).
    apply bind_inv in H as [(ts&w4&H4&H)|(e&_&?)]; [|done].
    apply now_inv in H4 as [[= ->] ->].
    apply bind_inv in H as [([]&w5&H5&H)|(e&_&?)]; [|done].
    apply updateCampaignStatus_inv in H5 as (_&_&_&[(?&?&_)|(_&Hd5)]); [done|].
    apply bind_inv in H as [(final&w6&H6&H)|(e&_&?)]; [|done].
    apply with_locals_inv in H6 as (l6&H6). unfold send_loop in H6.
    apply bind_inv in H6 as [([]&[l7 w7]&H7&H6)|(e&_&?)]; [|done].
    unfold get_locals in H6. simplify_eq.
    apply bind_inv in H as [([]&w8&H8&H)|(e&_&?)]; [|done].
    unfold closeTransporter, mret, M_ret in H8. simplify_eq.
    apply bind_inv in H as [(ts&w9&H9&H)|(e&_&?)]; [|done].
    apply now_inv in H9 as [[= ->] ->].
    apply bind_inv in H as [([]&w10&H10&H)|(e&_&?)]; [|done].
    apply updateCampaignStatus_inv in H10 as (_&_&_&[(?&?&_)|(_&Hd10)]); [done|].
    unfold_monad. simplify_eq.
    exists t, w5, final, w8. split; [|done].
    rewrite Hd5, Hc3, Hc2, Hc1, Hd3, Hd2. done.
Qed.

Lemma updateCampaignStatus_ledger cid st sa ca w o w' :
  updateCampaignStatus E cid st sa ca w = (o, w') ->
  wire w' = wire w
  /\ campaign_recipients (database w') = campaign_recipients (database w).
Proof.
  intros H.
  apply updateCampaignStatus_inv in H as (_&?&_&[(?&_&->)|(_&->)]); done.
Qed.

(** Whatever the outcome, a run writes no row of the ledger but those it
    selected as pending. *)
Lemma sendCampaign_frame cid uid w o w' j :
  sendCampaign E cid uid w = (o, w') ->
  j ∉ (Sql.select_pending cid (database w)).*1 ->
  campaign_recipients (database w') !! j = campaign_recipients (database w) !! j.
Proof.
  unfold sendCampaign. intros H Hj.
  assert (Hhandler : forall e w0 o0 w1,
    (try_catch (updateCampaignStatus E cid CampaignStatus.failed None None)
       (fun _ => mret tt);; throw e) w0 = (o0 : outcome send_result, w1) ->
    campaign_recipients (database w1) = campaign_recipients (database w0)).
  { intros e w0 o0 w1 Hh.
    apply bind_inv in Hh as [([]&w2&Hh&Ht)|(e'&Hh&_)].
    - unfold throw in Ht. simplify_eq.
      apply try_catch_inv in Hh as [(?&Hh&_)|(?&?&Hh&Hr)].
      + by apply updateCampaignStatus_ledger in Hh as [_ ?].
      + apply updateCampaignStatus_ledger in Hh as [_ ?].
        unfold mret, M_ret in Hr. by simplify_eq.
    - apply try_catch_inv in Hh as [(?&Hh&_)|(?&?&Hh&Hr)].
      + by apply updateCampaignStatus_ledger in Hh as [_ ?].
      + unfold mret, M_ret in Hr. by simplify_eq. }
  cut (forall ob wb,
    dispatch E cid uid w = (ob, wb) ->
    campaign_recipients (database wb) !! j = campaign_recipients (database w) !! j).
  { intros Hbody.
    apply try_catch_inv in H as [(a&H&->)|(e&w0&H&Hh)].
    - by apply Hbody in H.
    - apply Hbody in H. apply Hhandler in Hh. by rewrite Hh. }
  clear H Hhandler. intros ob wb H. unfold dispatch in H.
  apply bind_inv in H as [(oc&w1&H1&H)|(e&H1&->)];
    apply db_select_inv in H1 as (_&_&_&Hd1&Ho1); [|by rewrite Hd1].
  destruct oc as [c|]; [|unfold throw in H; simplify_eq; by rewrite Hd1].
  destruct (negb _); [unfold throw in H; simplify_eq; by rewrite Hd1|].
  apply bind_inv in H as [(rs&w2&H2&H)|(e&H2&->)];
    apply db_select_inv in H2 as (_&_&_&Hd2&Ho2); [|by rewrite Hd2, Hd1].
  destruct Ho2 as [(?&?)|[= ->]]; [done|]. rewrite Hd1 in *.
  destruct (Sql.select_pending cid (database w)) as [|r0 rs] eqn:Hrs.
  - apply bind_inv in H as [(ts&w3&H3&H)|(e&H3&->)];
      apply now_inv in H3 as [? ->]; [|done].
    apply bind_inv in H as [([]&w4&H4&H)|(e&H4&->)];
      apply updateCampaignStatus_ledger in H4 as [_ Hd4];
      [unfold mret, M_ret in H; simplify_eq|]; by rewrite Hd4, Hd2.
  - apply bind_inv in H as [(t&w3&H3&H)|(e&H3&->)].
    2:{ apply try_catch_inv in H3 as [(?&H3&?)|(e'&w0&H3&Hc)]; [done|].
        apply connect_inv in H3 as (_&_&_&Hd3).
        apply bind_inv in Hc as [([]&w4&H4&Hc)|(e''&H4&_)];
          apply updateCampaignStatus_ledger in H4 as [_ Hd4];
          [unfold throw in Hc; simplify_eq|]; by rewrite Hd4, Hd3, Hd2. }
    apply try_catch_inv in H3 as [(?&H3&[= <-])|(e'&w0&H3&Hc)].
    2:{ apply bind_inv in Hc as [([]&w4&H4&Hc)|(e''&H4&?)]; [|done].
        unfold throw in Hc. by simplify_eq. }
    apply connect_inv in H3 as (_&_&_&Hd3).
    apply bind_inv in H as [(ts&w4&H4&H)|(e&H4&->)];
      apply now_inv in H4 as [? ->]; [|done].
    apply bind_inv in H as [([]&w5&H5&H)|(e&H5&->)];
      apply updateCampaignStatus_ledger in H5 as [_ Hd5];
      [|by rewrite Hd5, Hd3, Hd2].
    assert (Hloop : forall o6 w6,
      with_locals (mkCounters 0 0) (send_loop E cid uid c t (r0 :: rs)) w5
        = (o6, w6) ->
      campaign_recipients (database w6) !! j
        = campaign_recipients (database w) !! j).
    { intros o6 w6 H6. apply with_locals_inv in H6 as (l6&H6).
      unfold send_loop in H6.
      assert (forall o7 l7 w7,
        for_of (r0 :: rs) (send_one E cid uid c t) (mkCounters 0 0, w5)
          = (o7, (l7, w7)) ->
        campaign_recipients (database w7) !! j
          = campaign_recipients (database w) !! j) as Hfor.
      { intros o7 l7 w7 H7.
        apply send_loop_body_inv in H7 as (_&_&Hfr&_).
        - rewrite Hfr by done. by rewrite Hd5, Hd3, Hd2.
        - rewrite <- Hrs. apply NoDup_select_pending_ids. }
      apply bind_inv in H6 as [([]&[l7 w7]&H7&H6)|(e&H7&->)].
      - unfold get_locals in H6. simplify_eq. by eapply Hfor.
      - by eapply Hfor. }
    apply bind_inv in H as [(final&w6&H6&H)|(e&H6&->)];
      apply Hloop in H6; [|done].
    apply bind_inv in H as [([]&w7&H7&H)|(e&H7&->)];
      unfold closeTransporter, mret, M_ret in H7; simplify_eq.
    apply bind_inv in H as [(ts&w8&H8&H)|(e&H8&->)];
      apply now_inv in H8 as [? ->]; [|done].
    apply bind_inv in H as [([]&w9&H9&H)|(e&H9&->)];
      apply updateCampaignStatus_ledger in H9 as [_ Hd9];
      [unfold mret, M_ret in H; simplify_eq|]; by rewrite Hd9.
Qed.

(** ** Runs on a reliable storage *)

Lemma sendCampaign_no_pending cid uid w c :
  reliable E ->
  Sql.select_campaign cid uid (database w) = Some c ->
  Campaign.status c = CampaignStatus.queued ->
  Sql.select_pending cid (database w) = [] ->
  exists w',
    sendCampaign E cid uid w = (Ok (mkResult true 0 0), w')
    /\ wire w' = wire w
    /\ database w'
       = Sql.update_status (clock w) cid CampaignStatus.completed
           (Some (clock w)) None (database w).
Proof.
  intros Hrel Hsel Hq Hrs. eexists.
  unfold sendCampaign, dispatch, updateCampaignStatus, now. unfold_monad.
  run_queries Hrel. rewrite Hsel, Hq. simpl. run_queries Hrel.
  rewrite Hrs. run_queries Hrel. split; [reflexivity|]. by simpl.
Qed.

(** On a reliable storage the outcome of [connect] is decided by the
    stored configuration and the mail server alone. *)
Lemma connect_outcome uid w1 w2 :
  reliable E ->
  smtp_configs (database w1) = smtp_configs (database w2) ->
  fst (connect E uid w1) = fst (connect E uid w2).
Proof.
  intros Hrel Hdb.
  unfold connect, createTransporter, createTransporterFromCredentials,
    verifyTransporter, Sql.select_smtp_config.
  unfold_monad. run_queries Hrel. rewrite Hdb.
  destruct (smtp_configs (database w2) !! uid) as [cfg|]; simpl; [|done].
  destruct (decrypt E _) as [pw|]; simpl; [|done].
  destruct (bool_decide _ || bool_decide _); simpl; [done|].
  destruct (verify E _) as [err|]; simpl; [|done].
  destruct (bool_decide (Smtp.code err = Some "EAUTH")); [done|].
  destruct (bool_decide _ || bool_decide _); [done|].
  by destruct (bool_decide (Smtp.responseCode err = Some 534)).
Qed.

Lemma campaigns_update_status ts cid st sa ca d :
  campaigns (Sql.update_status ts cid st sa ca d)
  = alter (fun c =>
             let c := Campaign.set_updated_at ts (Campaign.set_status st c) in
             let c := match sa with
                      | Some ts => Campaign.set_started_at (Some ts) c
                      | None => c
                      end in
             match ca with
             | Some ts => Campaign.set_completed_at (Some ts) c
             | None => c
             end) cid (campaigns d).
Proof. done. Qed.

Lemma select_campaign_lookup cid uid d c :
  Sql.select_campaign cid uid d = Some c -> campaigns d !! cid = Some c.
Proof.
  unfold Sql.select_campaign. destruct (campaigns d !! cid); [|done].
  case_bool_decide; by intros [= ->].
Qed.

Lemma sendCampaign_connect_fails cid uid w c e :
  reliable E ->
  Sql.select_campaign cid uid (database w) = Some c ->
  Campaign.status c = CampaignStatus.queued ->
  Sql.select_pending cid (database w) <> [] ->
  fst (connect E uid w) = Throw e ->
  exists w',
    sendCampaign E cid uid w = (Throw ("SMTP connection failed: " +:+ e), w')
    /\ wire w' = wire w
    /\ immediates w' = immediates w
    /\ campaign_recipients (database w') = campaign_recipients (database w)
    /\ campaigns (database w')
       = alter (fun c => Campaign.set_updated_at (clock w)
                           (Campaign.set_status CampaignStatus.failed c))
           cid (campaigns (database w)).
Proof.
  intros Hrel Hsel Hq Hrs Hconn.
  unfold sendCampaign, dispatch, updateCampaignStatus, now. unfold_monad.
  run_queries Hrel. rewrite Hsel, Hq. simpl. run_queries Hrel.
  destruct (Sql.select_pending cid (database w)) as [|r0 rs]; [done|].
  match goal with |- context [connect E uid ?w2] =>
    destruct (connect E uid w2) as [o3 w3] eqn:H3;
    pose proof (connect_outcome uid w2 w Hrel eq_refl) as Ho;
    rewrite H3, Hconn in Ho; simpl in Ho; subst o3;
    apply connect_inv in H3 as (Hc3&Hw3&Hi3&Hd3); simpl in *
  end.
  run_queries Hrel. eexists. split; [reflexivity|]. simpl.
  rewrite Hw3, Hi3, Hd3, Hc3. do 3 (split; [done|]).
  rewrite alter_alter_eq. apply alter_ext. done.
Qed.

(** ** The row of the campaign through a run *)

Lemma updateCampaignStatus_campaigns cid st sa ca w o w' :
  updateCampaignStatus E cid st sa ca w = (o, w') ->
  ((exists e, o = Throw e) /\ campaigns (database w') = campaigns (database w))
  \/ (o = Ok tt
      /\ exists u, campaigns (database w') = alter u cid (campaigns (database w))
                   /\ forall c, Campaign.status (u c) = st).
Proof.
  intros H. apply updateCampaignStatus_inv in H as (_&_&_&[(e&->&->)|(->&->)]).
  - left. eauto.
  - right. split; [done|]. eexists. split; [by rewrite campaigns_update_status|].
    intros c. by destruct sa, ca.
Qed.

Lemma run_mark_kept cid (m m' : gmap Z Campaign.t) :
  m' = m -> exists g, m' = alter g cid m /\ run_mark g.
Proof.
  intros ->. exists id. split; [apply alter_self|]. left. by intros c.
Qed.

(** A status update after anything leaves the campaign started, or leaves
    the table as it was. *)
Lemma run_mark_update cid st sa ca w0 w1 w2 o :
  started st ->
  (exists g, campaigns (database w1) = alter g cid (campaigns (database w0))
             /\ run_mark g) ->
  updateCampaignStatus E cid st sa ca w1 = (o, w2) ->
  exists g, campaigns (database w2) = alter g cid (campaigns (database w0))
            /\ run_mark g.
Proof.
  intros Hst (g&Hg&Hmark) H.
  apply updateCampaignStatus_campaigns in H as [[_ ->]|(_&u&->&Hu)];
    [by exists g|].
  exists (u ∘ g). split; [by rewrite Hg, alter_alter_eq|].
  right. intros c. simpl. by rewrite Hu.
Qed.

Lemma dispatch_campaigns cid uid w o w' :
  dispatch E cid uid w = (o, w') ->
  exists g, campaigns (database w') = alter g cid (campaigns (database w))
            /\ run_mark g.
Proof.
  unfold dispatch. intros H.
  apply bind_inv in H as [(oc&w1&H1&H)|(e&H1&->)];
    apply db_select_inv in H1 as (_&_&_&Hd1&_);
    [|apply run_mark_kept; by rewrite Hd1].
  destruct oc as [c|];
    [|unfold throw in H; simplify_eq; apply run_mark_kept; by rewrite Hd1].
  destruct (negb _);
    [unfold throw in H; simplify_eq; apply run_mark_kept; by rewrite Hd1|].
  apply bind_inv in H as [(rs&w2&H2&H)|(e&H2&->)];
    apply db_select_inv in H2 as (_&_&_&Hd2&_);
    [|apply run_mark_kept; by rewrite Hd2, Hd1].
  assert (exists g, campaigns (database w2) = alter g cid (campaigns (database w))
                    /\ run_mark g) as Hk2
    by (apply run_mark_kept; by rewrite Hd2, Hd1).
  destruct rs as [|r0 rs].
  - apply bind_inv in H as [(ts&w3&H3&H)|(e&H3&->)];
      apply now_inv in H3 as [? ->]; [|done].
    apply bind_inv in H as [([]&w4&H4&H)|(e&H4&->)];
      (eapply run_mark_update in H4; [|right; by left|done]);
      [unfold mret, M_ret in H; by simplify_eq|done].
  - apply bind_inv in H as [(t&w3&H3&H)|(e&H3&->)].
    2:{ apply try_catch_inv in H3 as [(?&H3&?)|(e'&w0&H3&Hc)]; [done|].
        apply connect_inv in H3 as (_&_&_&Hd3). rewrite <- Hd3 in Hk2.
        apply bind_inv in Hc as [([]&w4&H4&Hc)|(e''&H4&_)];
          (eapply run_mark_update in H4; [|right; by right|done]);
          [unfold throw in Hc; by simplify_eq|done]. }
    apply try_catch_inv in H3 as [(?&H3&[= <-])|(e'&w0&H3&Hc)].
    2:{ apply bind_inv in Hc as [([]&w4&H4&Hc)|(e''&H4&?)]; [|done].
        unfold throw in Hc. by simplify_eq. }
    apply connect_inv in H3 as (_&_&_&Hd3). rewrite <- Hd3 in Hk2.
    apply bind_inv in H as [(ts&w4&H4&H)|(e&H4&->)];
      apply now_inv in H4 as [? ->]; [|done].
    apply bind_inv in H as [([]&w5&H5&H)|(e&H5&->)].
    2:{ by eapply run_mark_update in H5; [|by left|done]. }
    apply updateCampaignStatus_campaigns in H5 as [[[? ?] _]|(_&u&Hu&Hst)];
      [done|].
    rewrite Hd3, Hd2, Hd1 in Hu. clear Hk2.
    (* from here on the campaign is started *)
    assert (Hloop : forall o6 w6,
      with_locals (mkCounters 0 0) (send_loop E cid uid c t (r0 :: rs)) w5
        = (o6, w6) ->
      exists g, campaigns (database w6) = alter g cid (campaigns (database w))
                /\ forall c0, started (Campaign.status (g c0))).
    { intros o6 w6 H6. apply with_locals_inv in H6 as (l6&H6).
      unfold send_loop in H6.
      assert (forall o7 l7 w7,
        for_of (r0 :: rs) (send_one E cid uid c t) (mkCounters 0 0, w5)
          = (o7, (l7, w7)) ->
        exists g, campaigns (database w7) = alter g cid (campaigns (database w))
                  /\ forall c0, started (Campaign.status (g c0))) as Hfor.
      { intros o7 l7 w7 H7.
        assert (forall xs la wa ob lb wb,
          for_of xs (send_one E cid uid c t) (la, wa) = (ob, (lb, wb)) ->
          exists fc, campaigns (database wb) = alter fc cid (campaigns (database wa))
                     /\ camp_touch fc) as Hany.
        { induction xs as [|[rid r] xs IH]; intros la wa ob lb wb Hxs; simpl in Hxs.
          - unfold mret, M_ret in Hxs. simplify_eq. exists id.
            split; [apply alter_self|apply camp_touch_id].
          - apply bind_inv in Hxs as [([]&[lc wc]&Hone&Hxs)|(e&Hone&->)];
              apply send_one_inv in Hone as (_&fr&fc&(_&_&Hc1)&_&Hct&_);
              [|by exists fc].
            apply IH in Hxs as (fc'&Hc2&Hct'). exists (fc' ∘ fc).
            split; [by rewrite Hc2, Hc1, alter_alter_eq|].
            by apply camp_touch_compose. }
        apply Hany in H7 as (fc&Hfc&Hct). exists (fc ∘ u).
        split; [by rewrite Hfc, Hu, alter_alter_eq|].
        intros c0. simpl. destruct (Hct (u c0)) as (_&_&->&_).
        rewrite Hst. by left. }
      apply bind_inv in H6 as [([]&[l7 w7]&H7&H6)|(e&H7&->)].
      - unfold get_locals in H6. simplify_eq. by eapply Hfor.
      - by eapply Hfor. }
    assert (forall w6 g,
      campaigns (database w6) = alter g cid (campaigns (database w)) ->
      (forall c0, started (Campaign.status (g c0))) ->
      exists g, campaigns (database w6) = alter g cid (campaigns (database w))
                /\ run_mark g) as Hweak.
    { intros w6 g Hg Hs. exists g. split; [done|]. by right. }
    apply bind_inv in H as [(final&w6&H6&H)|(e&H6&->)];
      apply Hloop in H6 as (g6&Hg6&Hs6); [|by eapply Hweak].
    apply bind_inv in H as [([]&w7&H7&H)|(e&H7&->)];
      unfold closeTransporter, mret, M_ret in H7; simplify_eq.
    apply bind_inv in H as [(ts&w8&H8&H)|(e&H8&->)];
      apply now_inv in H8 as [? ->]; [|done].
    apply bind_inv in H as [([]&w9&H9&H)|(e&H9&->)];
      (eapply run_mark_update in H9;
       [|right; by left|by eapply (Hweak w7 g6)]);
      [unfold mret, M_ret in H; by simplify_eq|done].
Qed.

Lemma sendCampaign_campaigns cid uid w o w' :
  sendCampaign E cid uid w = (o, w') ->
  exists g, campaigns (database w') = alter g cid (campaigns (database w))
            /\ run_mark g.
Proof.
  unfold sendCampaign. intros H.
  apply try_catch_inv in H as [(a&H&->)|(e&w0&H&Hh)];
    apply dispatch_campaigns in H; [done|].
  apply bind_inv in Hh as [([]&w1&Hh&Ht)|(e'&Hh&_)].
  - unfold throw in Ht. simplify_eq.
    apply try_catch_inv in Hh as [(?&Hh&_)|(?&?&Hh&Hr)].
    + by eapply run_mark_update in Hh; [|right; by right|done].
    + eapply run_mark_update in Hh; [|right; by right|done].
      unfold mret, M_ret in Hr. by simplify_eq.
  - apply try_catch_inv in Hh as [(?&Hh&_)|(?&?&Hh&Hr)].
    + by eapply run_mark_update in Hh; [|right; by right|done].
    + unfold mret, M_ret in Hr. by simplify_eq.
Qed.

(** The dispatcher keeps the counters of drafts and queued campaigns at 0:
    it counts only after it has marked the campaign 'sending', and it
    never marks a campaign 'draft' or 'queued'. *)
Lemma sendCampaign_keeps_counters_clear cid uid w o w' :
  counters_clear (database w) ->
  sendCampaign E cid uid w = (o, w') ->
  counters_clear (database w').
Proof.
  intros Hclear H j c' Hj Hst.
  apply sendCampaign_campaigns in H as (g&Hg&Hmark). rewrite Hg in Hj.
  destruct (decide (j = cid)) as [->|Hne].
  - rewrite lookup_alter_eq in Hj.
    destruct (campaigns (database w) !! cid) as [c|] eqn:Hc; [|done].
    simpl in Hj. injection Hj as <-.
    destruct Hmark as [Hkept|Hstarted].
    + destruct (Hkept c) as (Hs&->&->). rewrite Hs in Hst. by eapply Hclear.
    + destruct (Hstarted c) as [Hs|[Hs|Hs]]; rewrite Hs in Hst;
        by destruct Hst.
  - rewrite lookup_alter_ne in Hj by done. by eapply Hclear.
Qed.

End Runs.

Lemma select_pending_ext cid d d' :
  campaign_recipients d' = campaign_recipients d ->
  Sql.select_pending cid d' = Sql.select_pending cid d.
Proof. unfold Sql.select_pending. by intros ->. Qed.

Lemma pending_count_ext cid d d' :
  campaign_recipients d' = campaign_recipients d ->
  pending_count cid d' = pending_count cid d.
Proof. unfold pending_count. by intros ->%(select_pending_ext cid). Qed.

Lemma for_of_snoc {S X} (body : X -> M S unit) xs x s s1 s2 :
  for_of xs body s = (Ok tt, s1) ->
  body x s1 = (Ok tt, s2) ->
  for_of (xs ++ [x]) body s = (Ok tt, s2).
Proof.
  revert s. induction xs as [|y xs IH]; intros s; simpl.
  - unfold_monad. intros [= <-] ->. done.
  - unfold mbind, M_bind. destruct (body y s) as [[[]|e] s'] eqn:Hy; [|done].
    intros H1 H2. by apply IH.
Qed.

(* ===================================================================== *)
(** * The dispatcher: properties of a run *)
(* ===================================================================== *)

(** ** Runs resolve on a reliable storage *)

Lemma send_one_resolves E cid uid c t r s :
  reliable E ->
  exists s', send_one E cid uid c t r s = (Ok tt, s').
Proof.
  intros Hrel. destruct s as [l w].
  unfold send_one, attempt, logEmail, sleep. unfold_monad.
  destruct (sendToRecipient E r (cid, c) t uid w) as [[mid|e] w1];
    run_queries Hrel; eauto.
Qed.

Lemma for_of_resolves {S X} (body : X -> M S unit) :
  (forall x s, exists s', body x s = (Ok tt, s')) ->
  forall xs s, exists s', for_of xs body s = (Ok tt, s').
Proof.
  intros Hbody. induction xs as [|x xs IH]; intros s; simpl.
  - by eexists.
  - unfold mbind, M_bind. destruct (Hbody x s) as [s1 ->]. apply IH.
Qed.

(** When the storage answers and the transport can be set up, the run of a
    queued campaign resolves, whatever the mail server makes of each
    message. *)
Lemma sendCampaign_resolves E cid uid w c t :
  reliable E ->
  Sql.select_campaign cid uid (database w) = Some c ->
  Campaign.status c = CampaignStatus.queued ->
  fst (connect E uid w) = Ok t ->
  exists res w', sendCampaign E cid uid w = (Ok res, w').
Proof.
  intros Hrel Hsel Hq Hconn.
  unfold sendCampaign, dispatch, updateCampaignStatus, now, closeTransporter. unfold_monad.
  run_queries Hrel. rewrite Hsel, Hq. simpl. run_queries Hrel.
  destruct (Sql.select_pending cid (database w)) as [|r0 rs].
  { run_queries Hrel. by do 2 eexists. }
  match goal with |- context [connect E uid ?w2] =>
    destruct (connect E uid w2) as [o3 w3] eqn:H3;
    pose proof (connect_outcome E uid w2 w Hrel eq_refl) as Ho;
    rewrite H3, Hconn in Ho; simpl in Ho; subst o3
  end.
  run_queries Hrel. unfold send_loop. unfold_monad.
  match goal with |- context [for_of ?xs ?body ?s0] =>
    destruct (for_of_resolves body
                (fun x s => send_one_resolves E cid uid c t x s Hrel) xs s0)
      as [[l4 w4] ->]
  end.
  run_queries Hrel. by do 2 eexists.
Qed.

(** C10.  A queued campaign with no pending recipient goes straight to
    'completed' and the call returns sent 0, failed 0; on this path the
    time of the call is written to started_at and completed_at is left as
    it was, so a campaign not dispatched before ends 'completed' with a
    started_at and no completed_at. *)
Theorem no_pending_completes_without_completed_at E w cid uid c :
  reliable E ->
  Sql.select_campaign cid uid (database w) = Some c ->
  Campaign.status c = CampaignStatus.queued ->
  Sql.select_pending cid (database w) = [] ->
  exists w' c',
    sendCampaign E cid uid w = (Ok (mkResult true 0 0), w')
    /\ campaigns (database w') !! cid = Some c'
    /\ Campaign.status c' = CampaignStatus.completed
    /\ Campaign.started_at c' = Some (clock w)
    /\ Campaign.completed_at c' = Campaign.completed_at c
    /\ (Campaign.completed_at c = None -> Campaign.completed_at c' = None).
Proof.
  intros Hrel Hsel Hq Hrs.
  destruct (sendCampaign_no_pending E cid uid w c Hrel Hsel Hq Hrs)
    as (w'&Hrun&_&Hd).
  apply select_campaign_lookup in Hsel.
  eexists w', _. split; [done|]. split.
  { rewrite Hd, campaigns_update_status, lookup_alter_eq, Hsel. done. }
  simpl. by repeat split.
Qed.

Lemma no_pending_completes_without_completed_at_witness :
  reliable Demo.refuse_second
  /\ Sql.select_campaign 1 7 (database Demo.queued_done)
     = Some (Demo.campaign CampaignStatus.queued 2 1)
  /\ Sql.select_pending 1 (database Demo.queued_done) = []
  /\ exists w' c',
       sendCampaign Demo.refuse_second 1 7 Demo.queued_done
       = (Ok (mkResult true 0 0), w')
       /\ campaigns (database w') !! 1 = Some c'
       /\ Campaign.status c' = CampaignStatus.completed
       /\ Campaign.started_at c' = Some 1000
       /\ Campaign.completed_at c' = None
       /\ (Campaign.completed_at (Demo.campaign CampaignStatus.queued 2 1) = None ->
           Campaign.completed_at c' = None).
Proof.
  split; [intros n; reflexivity|]. split; [reflexivity|]. split; [reflexivity|].
  apply (no_pending_completes_without_completed_at Demo.refuse_second
           Demo.queued_done 1 7 (Demo.campaign CampaignStatus.queued 2 1)).
  - intros n. reflexivity.
  - reflexivity.
  - reflexivity.
  - reflexivity.
Defined.

(** C8.  When the transport cannot be set up, a queued campaign with
    pending recipients becomes 'failed'; its counters are left as they
    were (0 and 0 for a campaign not dispatched before), no message is
    handed to the mail server, and no recipient row is written: every
    pending recipient is still pending. *)
Theorem transport_failure_fails_campaign_only E w cid uid c e :
  reliable E ->
  Sql.select_campaign cid uid (database w) = Some c ->
  Campaign.status c = CampaignStatus.queued ->
  Sql.select_pending cid (database w) <> [] ->
  fst (connect E uid w) = Throw e ->
  exists w' c',
    sendCampaign E cid uid w = (Throw ("SMTP connection failed: " +:+ e), w')
    /\ campaigns (database w') !! cid = Some c'
    /\ Campaign.status c' = CampaignStatus.failed
    /\ Campaign.sent_count c' = Campaign.sent_count c
    /\ Campaign.failed_count c' = Campaign.failed_count c
    /\ (Campaign.sent_count c = 0 -> Campaign.failed_count c = 0 ->
        Campaign.sent_count c' = 0 /\ Campaign.failed_count c' = 0)
    /\ wire w' = wire w
    /\ campaign_recipients (database w') = campaign_recipients (database w)
    /\ Sql.select_pending cid (database w') = Sql.select_pending cid (database w).
Proof.
  intros Hrel Hsel Hq Hrs Hconn.
  destruct (sendCampaign_connect_fails E cid uid w c e Hrel Hsel Hq Hrs Hconn)
    as (w'&Hrun&Hw&_&Hr&Hc).
  apply select_campaign_lookup in Hsel.
  eexists w', _. split; [done|]. split.
  { rewrite Hc, lookup_alter_eq, Hsel. done. }
  simpl. repeat split; auto using select_pending_ext.
Qed.

Lemma transport_failure_fails_campaign_only_witness :
  reliable Demo.refuse_handshake
  /\ Sql.select_campaign 1 7 (database Demo.queued)
     = Some (Demo.campaign CampaignStatus.queued 0 0)
  /\ Sql.select_pending 1 (database Demo.queued) <> []
  /\ fst (connect Demo.refuse_handshake 7 Demo.queued)
     = Throw "Invalid Gmail credentials. Please check your email and app password."
  /\ exists w' c',
       sendCampaign Demo.refuse_handshake 1 7 Demo.queued
       = (Throw ("SMTP connection failed: "
                   +:+ "Invalid Gmail credentials. Please check your email and app password."),
          w')
       /\ campaigns (database w') !! 1 = Some c'
       /\ Campaign.status c' = CampaignStatus.failed
       /\ Campaign.sent_count c' = 0
       /\ Campaign.failed_count c' = 0
       /\ (0 = 0 -> 0 = 0 ->
           Campaign.sent_count c' = 0 /\ Campaign.failed_count c' = 0)
       /\ wire w' = []
       /\ campaign_recipients (database w') = Demo.ledger
       /\ Sql.select_pending 1 (database w') = Sql.select_pending 1 (database Demo.queued).
Proof.
  split; [intros n; reflexivity|]. split; [reflexivity|].
  split; [by vm_compute|]. split; [reflexivity|].
  apply (transport_failure_fails_campaign_only Demo.refuse_handshake
           Demo.queued 1 7 (Demo.campaign CampaignStatus.queued 0 0)).
  - intros n. reflexivity.
  - reflexivity.
  - reflexivity.
  - by vm_compute.
  - reflexivity.
Defined.

(** C1.  After a dispatch run in which every iteration of the loop
    completes, the campaign is 'completed' even if some sends failed, its
    two counters have grown by the number N of recipients that were
    pending, so they add up to N for a campaign whose counters were 0, and
    no recipient is pending any more. *)
Theorem completed_run_settles_every_recipient E w cid uid c res w' :
  Sql.select_campaign cid uid (database w) = Some c ->
  sendCampaign E cid uid w = (Ok res, w') ->
  exists c',
    campaigns (database w') !! cid = Some c'
    /\ Campaign.status c' = CampaignStatus.completed
    /\ Campaign.sent_count c' + Campaign.failed_count c'
       = Campaign.sent_count c + Campaign.failed_count c
         + pending_count cid (database w)
    /\ (Campaign.sent_count c = 0 -> Campaign.failed_count c = 0 ->
        Campaign.sent_count c' + Campaign.failed_count c'
        = pending_count cid (database w))
    /\ pending_count cid (database w') = 0
    /\ Sql.select_pending cid (database w') = [].
Proof.
  intros Hsel Hrun.
  apply sendCampaign_ok_inv in Hrun as (c0&Hsel0&_&Hcase).
  assert (c0 = c) as -> by congruence. clear Hsel0.
  apply select_campaign_lookup in Hsel.
  destruct Hcase as [(Hrs&_&_&Hd)|(Hrs&t&w1&l2&w2&Hd1&Hloop&Hd&_)].
  - assert (Sql.select_pending cid (database w') = []) as Hrs'.
    { rewrite <- Hrs. apply select_pending_ext. by rewrite Hd. }
    eexists. split.
    { rewrite Hd, campaigns_update_status, lookup_alter_eq, Hsel. done. }
    unfold pending_count. rewrite Hrs', Hrs. simpl.
    repeat split; auto; lia.
  - assert (Sql.select_pending cid (database w1)
            = Sql.select_pending cid (database w)) as Hrs1.
    { apply select_pending_ext. by rewrite Hd1. }
    pose proof Hloop as Hafter.
    eapply (select_pending_after E cid uid c t _ _ []) in Hafter;
      [|done|by rewrite app_nil_r].
    apply Permutation_nil_r in Hafter.
    apply send_loop_body_inv in Hloop as (_&_&_&(fc&Hc2&Hct&Hsum)&_);
      [|apply NoDup_select_pending_ids].
    specialize (Hsum eq_refl).
    assert (Sql.select_pending cid (database w') = []) as Hrs'.
    { rewrite <- Hafter. apply select_pending_ext. by rewrite Hd. }
    eexists. split.
    { rewrite Hd, campaigns_update_status, lookup_alter_eq, Hc2, lookup_alter_eq,
        Hd1, campaigns_update_status, lookup_alter_eq, Hsel. done. }
    unfold pending_count. rewrite Hrs'. simpl.
    rewrite Hsum. simpl. repeat split; auto; lia.
Qed.

Lemma completed_run_settles_every_recipient_witness :
  Sql.select_campaign 1 7 (database Demo.queued)
  = Some (Demo.campaign CampaignStatus.queued 0 0)
  /\ fst (sendCampaign Demo.refuse_second 1 7 Demo.queued) = Ok (mkResult true 2 1)
  /\ pending_count 1 (database Demo.queued) = 3
  /\ exists c',
       campaigns (database (snd (sendCampaign Demo.refuse_second 1 7 Demo.queued))) !! 1
       = Some c'
       /\ Campaign.status c' = CampaignStatus.completed
       /\ Campaign.sent_count c' + Campaign.failed_count c' = 0 + 0 + 3
       /\ (0 = 0 -> 0 = 0 ->
           Campaign.sent_count c' + Campaign.failed_count c' = 3)
       /\ pending_count 1
            (database (snd (sendCampaign Demo.refuse_second 1 7 Demo.queued))) = 0
       /\ Sql.select_pending 1
            (database (snd (sendCampaign Demo.refuse_second 1 7 Demo.queued))) = [].
Proof.
  split; [reflexivity|]. split; [by vm_compute|]. split; [reflexivity|].
  apply (completed_run_settles_every_recipient Demo.refuse_second Demo.queued
           1 7 (Demo.campaign CampaignStatus.queued 0 0) (mkResult true 2 1)).
  - reflexivity.
  - by vm_compute.
Defined.

(** C9.  Taking a completed iteration of the loop as a step: if the
    invariant sent_count + failed_count + pending_count = recipient_count
    holds when the loop starts on the pending recipients, it holds after
    every completed iteration; the pending count the progress aggregator
    derives is the one of the ledger; and an iteration that completes
    moves its recipient, and no other, from 'pending' to 'sent' or
    'failed' and adds one to the counter of that state, and to no other. *)
Theorem counters_track_the_ledger E cid uid c t l w done rest l1 w1 :
  counts_consistent cid (database w) ->
  Sql.select_pending cid (database w) = done ++ rest ->
  for_of done (send_one E cid uid c t) (l, w) = (Ok tt, (l1, w1)) ->
  counts_consistent cid (database w1)
  /\ pending_count cid (database w1) = Z.of_nat (length rest)
  /\ (exists c1, campaigns (database w1) !! cid = Some c1
                 /\ Progress.pending (calculateProgress c1)
                    = pending_count cid (database w1))
  /\ (forall rid r rest' l2 w2,
        rest = (rid, r) :: rest' ->
        send_one E cid uid c t (rid, r) (l1, w1) = (Ok tt, (l2, w2)) ->
        moved_to_terminal cid rid (database w1) (database w2)
        /\ counts_consistent cid (database w2)).
Proof.
  intros (c0&Hc0&Hinv) Hsel Hloop.
  pose proof (NoDup_select_pending_ids cid (database w)) as Hnd.
  rewrite Hsel, fmap_app in Hnd. apply NoDup_app in Hnd as (Hnd1&_&_).
  pose proof (select_pending_after E cid uid c t _ _ _ _ _ _ _ eq_refl Hsel Hloop)
    as Hafter.
  pose proof Hloop as Hl.
  apply send_loop_body_inv in Hl as (_&_&_&(fc&Hc1&Hct&Hsum)&_); [|done].
  specialize (Hsum eq_refl c0). destruct (Hct c0) as (_&Hrc&_).
  assert (campaigns (database w1) !! cid = Some (fc c0)) as Hlk1
    by (by rewrite Hc1, lookup_alter_eq, Hc0).
  assert (pending_count cid (database w1) = Z.of_nat (length rest)) as Hp1
    by (unfold pending_count; by rewrite Hafter).
  assert (pending_count cid (database w)
          = Z.of_nat (length done) + Z.of_nat (length rest)) as Hp0
    by (unfold pending_count; rewrite Hsel, length_app; lia).
  assert (counts_consistent cid (database w1)) as Hinv1.
  { exists (fc c0). split; [done|]. lia. }
  split; [done|]. split; [done|]. split.
  { exists (fc c0). split; [done|]. simpl. lia. }
  intros rid r rest' l2 w2 -> Hone.
  pose proof (for_of_snoc _ _ _ _ _ _ Hloop Hone) as Hloop2.
  replace (done ++ (rid, r) :: rest') with ((done ++ [(rid, r)]) ++ rest') in Hsel
    by (by rewrite <- app_assoc).
  pose proof (select_pending_after E cid uid c t _ _ _ _ _ _ _ eq_refl Hsel Hloop2)
    as Hafter2.
  assert (pending_count cid (database w2) = Z.of_nat (length rest')) as Hp2
    by (unfold pending_count; by rewrite Hafter2).
  assert ((rid, r) ∈ Sql.select_pending cid (database w1)) as Hin
    by (rewrite Hafter; set_solver).
  apply elem_of_select_pending in Hin as (Hr1&_&Hpend).
  apply send_one_inv in Hone as (_&fr&fc'&(_&Hr2&Hc2)&_&Hct'&Hset).
  specialize (Hset eq_refl).
  assert (campaigns (database w2) !! cid = Some (fc' (fc c0))) as Hlk2
    by (by rewrite Hc2, lookup_alter_eq, Hlk1).
  assert (campaign_recipients (database w2) !! rid = Some (fr r)) as Hrow2
    by (by rewrite Hr2, lookup_alter_eq, Hr1).
  cbn [length] in Hp0, Hp1.
  assert (Campaign.sent_count (fc' (fc c0)) + Campaign.failed_count (fc' (fc c0))
          = Campaign.sent_count (fc c0) + Campaign.failed_count (fc c0) + 1) as Hstep
    by (destruct Hset as [[_ Hcnt]|[_ Hcnt]]; destruct (Hcnt (fc c0)); lia).
  split.
  - exists (fc c0), (fc' (fc c0)), r, (fr r).
    do 5 (split; [done|]). split.
    { intros j Hj. by rewrite Hr2, lookup_alter_ne. }
    split; [lia|].
    destruct Hset as [[Hst Hcnt]|[Hst Hcnt]]; destruct (Hcnt (fc c0));
      [left|right]; by rewrite Hst.
  - exists (fc' (fc c0)). split; [done|].
    destruct (Hct' (fc c0)) as (_&Hrc'&_). lia.
Qed.

Lemma counters_track_the_ledger_witness :
  let ana := (10, Demo.recipient "ana@example.com" "Ana" RecipientStatus.pending None) in
  let bob := (11, Demo.recipient "bob@example.com" "Bob" RecipientStatus.pending None) in
  let eve := (12, Demo.recipient "eve@example.com" "Eve" RecipientStatus.pending None) in
  let body := send_one Demo.refuse_second 1 7
                (Demo.campaign CampaignStatus.queued 0 0) Demo.transporter in
  let first := for_of [ana] body (mkCounters 0 0, Demo.queued) in
  let l1 := fst (snd first) in
  let w1 := snd (snd first) in
  counts_consistent 1 (database Demo.queued)
  /\ Sql.select_pending 1 (database Demo.queued) = [ana] ++ [bob; eve]
  /\ first = (Ok tt, (l1, w1))
  /\ counts_consistent 1 (database w1)
  /\ pending_count 1 (database w1) = Z.of_nat (length [bob; eve])
  /\ (exists c1, campaigns (database w1) !! 1 = Some c1
                 /\ Progress.pending (calculateProgress c1)
                    = pending_count 1 (database w1))
  /\ (forall rid r rest' l2 w2,
        [bob; eve] = (rid, r) :: rest' ->
        body (rid, r) (l1, w1) = (Ok tt, (l2, w2)) ->
        moved_to_terminal 1 rid (database w1) (database w2)
        /\ counts_consistent 1 (database w2)).
Proof.
  intros ana bob eve body first l1 w1.
  assert (counts_consistent 1 (database Demo.queued)) as Hinv
    by (eexists; split; [reflexivity|by vm_compute]).
  assert (Sql.select_pending 1 (database Demo.queued) = [ana] ++ [bob; eve]) as Hsel
    by (by vm_compute).
  assert (first = (Ok tt, (l1, w1))) as Hfirst by (by vm_compute).
  split; [exact Hinv|]. split; [exact Hsel|]. split; [exact Hfirst|].
  exact (counters_track_the_ledger Demo.refuse_second 1 7
           (Demo.campaign CampaignStatus.queued 0 0) Demo.transporter
           (mkCounters 0 0) Demo.queued [ana] [bob; eve] l1 w1 Hinv Hsel Hfirst).
Defined.

(** C2, as stated, fails: the two mark statements carry no condition on
    the state of the row; applied to a terminal entry they rewrite it. *)
Lemma mark_statements_rewrite_terminal_entries :
  ~ (forall d rid r ts,
       campaign_recipients d !! rid = Some r ->
       Recipient.status r <> RecipientStatus.pending ->
       campaign_recipients (Sql.mark_sent ts rid d) !! rid = Some r)
  /\ ~ (forall d rid r e,
          campaign_recipients d !! rid = Some r ->
          Recipient.status r <> RecipientStatus.pending ->
          campaign_recipients (Sql.mark_failed e rid d) !! rid = Some r).
Proof.
  split; intros H.
  - specialize (H (database Demo.completed) 11
                  (Demo.recipient "bob@example.com" "Bob" RecipientStatus.failed
                     (Some "Recipient address rejected")) 5000 eq_refl).
    by discriminate H.
  - specialize (H (database Demo.completed) 10
                  (Demo.recipient "ana@example.com" "Ana" RecipientStatus.sent None)
                  "Mailbox full" eq_refl).
    by discriminate H.
Qed.

(** C2, amended.  The mark statements are unconditional; the dispatcher
    applies them only to the rows it selected as pending when the run
    started, so an entry that is 'sent' or 'failed' when a run starts is
    the same row, state, sent_at and error_message included, when the run
    ends, whatever the outcome of the run. *)
Theorem terminal_entries_survive_a_run E w cid uid o w' rid r :
  campaign_recipients (database w) !! rid = Some r ->
  Recipient.status r <> RecipientStatus.pending ->
  sendCampaign E cid uid w = (o, w') ->
  campaign_recipients (database w') !! rid = Some r.
Proof.
  intros Hr Hterm Hrun.
  rewrite (sendCampaign_frame E cid uid w o w' rid Hrun); [done|].
  intros ([j r0]&->&Hin)%list_elem_of_fmap.
  apply elem_of_select_pending in Hin as (Hr0&_&Hp). simpl in *. congruence.
Qed.

Lemma terminal_entries_survive_a_run_witness :
  let bob := Demo.recipient "bob@example.com" "Bob" RecipientStatus.failed
               (Some "Recipient address rejected") in
  let run := sendCampaign Demo.refuse_second 1 7 Demo.resumed in
  campaign_recipients (database Demo.resumed) !! 11 = Some bob
  /\ Recipient.status bob <> RecipientStatus.pending
  /\ campaign_recipients (database (snd run)) !! 11 = Some bob.
Proof.
  intros bob run. split; [reflexivity|]. split; [discriminate|].
  apply (terminal_entries_survive_a_run Demo.refuse_second Demo.resumed
           1 7 (fst run) (snd run) 11 bob).
  - reflexivity.
  - discriminate.
  - apply surjective_pairing.
Defined.

(** A run on a campaign that is not 'queued' is refused, sends nothing,
    writes no recipient row, and leaves the campaign 'failed'. *)
Lemma sendCampaign_wrong_status E cid uid w c :
  reliable E ->
  Sql.select_campaign cid uid (database w) = Some c ->
  Campaign.status c <> CampaignStatus.queued ->
  exists w',
    sendCampaign E cid uid w
    = (Throw ("Cannot send campaign with status: "
                +:+ CampaignStatus.to_string (Campaign.status c)), w')
    /\ wire w' = wire w
    /\ campaign_recipients (database w') = campaign_recipients (database w)
    /\ campaigns (database w')
       = alter (fun c => Campaign.set_updated_at (clock w)
                           (Campaign.set_status CampaignStatus.failed c))
           cid (campaigns (database w)).
Proof.
  intros Hrel Hsel Hq. eexists.
  unfold sendCampaign, dispatch, updateCampaignStatus. unfold_monad.
  run_queries Hrel. rewrite Hsel.
  rewrite (bool_decide_eq_false_2 _ Hq). simpl. run_queries Hrel.
  split; [reflexivity|]. by simpl.
Qed.

(** C3: the run on a campaign that is already 'completed'.  Nothing is
    sent and no recipient row is written, but the campaign does not stay
    as it was: the refusal is thrown inside the [try] whose [catch] marks
    the campaign 'failed'. *)
Theorem resend_of_completed_campaign_marks_it_failed :
  let run := sendCampaign Demo.refuse_second 1 7 Demo.completed in
  Campaign.status <$> campaigns (database Demo.completed) !! 1
  = Some CampaignStatus.completed
  /\ fst run = Throw "Cannot send campaign with status: completed"
  /\ wire (snd run) = []
  /\ campaign_recipients (database (snd run))
     = campaign_recipients (database Demo.completed)
  /\ Campaign.status <$> campaigns (database (snd run)) !! 1
     = Some CampaignStatus.failed.
Proof. by vm_compute. Qed.

(* ===================================================================== *)
(** * The triggering call: what the caller is told *)
(* ===================================================================== *)



Lemma select_campaign_queued ts cid uid d c :
  Sql.select_campaign cid uid d = Some c ->
  Sql.select_campaign cid uid (Sql.queue_campaign ts cid d)
  = Some (Campaign.set_updated_at ts (Campaign.set_status CampaignStatus.queued c)).
Proof.
  unfold Sql.select_campaign, Sql.queue_campaign.
  rewrite campaigns_update_status, lookup_alter_eq.
  destruct (campaigns d !! cid) as [c0|]; [|done]. simpl.
  case_bool_decide; [|done]. intros [= ->]. done.
Qed.


(** The route keeps the counters of drafts and queued campaigns at 0 as
    well: it queues drafts only, and so does the whole request, callbacks
    included. *)
Lemma post_send_keeps_counters_clear E id uid w o w' :
  counters_clear (database w) ->
  post_send E id uid w = (o, w') ->
  counters_clear (database w').
Proof.
  intros Hclear H. unfold post_send in H.
  assert (forall w0 o0 w1 (resp : response),
    counters_clear (database w0) -> (mret resp : M world response) w0 = (o0, w1) ->
    counters_clear (database w1)) as Hret
    by (intros w0 o0 w1 resp ?; unfold mret, M_ret; by intros [= _ <-]).
  destruct id as [cid|].
  2:{ unfold try_catch, mret, M_ret in H. by simplify_eq. }
  match type of H with try_catch ?m ?h w = _ =>
    cut (forall ob wb, m w = (ob, wb) -> counters_clear (database wb))
  end.
  { intros Hbody. apply try_catch_inv in H as [(a&H&->)|(e&w0&H&Hh)].
    - by eapply Hbody.
    - eapply Hret; [|done]. by eapply Hbody. }
  clear H. intros ob wb H.
  apply bind_inv in H as [(oc&w1&H1&H)|(e&H1&->)];
    apply db_select_inv in H1 as (_&_&_&Hd1&Ho1); [|by rewrite Hd1].
  destruct Ho1 as [(?&?)|[= ->]]; [done|].
  rewrite <- Hd1 in Hclear.
  destruct (Sql.select_campaign cid uid (database w)) as [c|] eqn:Hsel;
    [|by eapply Hret].
  destruct (bool_decide (Campaign.status c = CampaignStatus.draft)) eqn:Hdraft;
    simpl in H; [|by eapply Hret].
  apply bool_decide_eq_true in Hdraft. apply select_campaign_lookup in Hsel.
  apply bind_inv in H as [(os&w2&H2&H)|(e&H2&->)];
    apply db_select_inv in H2 as (_&_&_&Hd2&_); [|by rewrite Hd2].
  rewrite <- Hd2 in Hclear. destruct os as [cfg|]; [|by eapply Hret].
  assert (counters_clear (Sql.queue_campaign (clock w2) cid (database w2))) as Hq.
  { intros j c' Hj Hst. unfold Sql.queue_campaign in Hj.
    rewrite campaigns_update_status in Hj.
    destruct (decide (j = cid)) as [->|Hne].
    - rewrite lookup_alter_eq, Hd2, Hd1, Hsel in Hj. simpl in Hj.
      injection Hj as <-. simpl.
      eapply (Hclear cid c); [by rewrite Hd2, Hd1|by left].
    - rewrite lookup_alter_ne in Hj by done. by eapply Hclear. }
  apply bind_inv in H as [([]&w3&H3&H)|(e&H3&->)];
    apply db_update_inv in H3 as (_&_&_&[(?&?&Hd3)|(?&Hd3)]); try done.
  2:{ rewrite Hd3. exact Hclear. }
  rewrite <- Hd3 in Hq.
  apply bind_inv in H as [([]&w4&H4&H)|(e&H4&?)]; [|done].
  unfold setImmediate in H4. simplify_eq.
  eapply Hret; [|exact H]. exact Hq.
Qed.

Lemma for_of_keeps {S X} (P : S -> Prop) (body : X -> M S unit) :
  (forall x s o s', P s -> body x s = (o, s') -> P s') ->
  forall xs s o s', P s -> for_of xs body s = (o, s') -> P s'.
Proof.
  intros Hbody. induction xs as [|x xs IH]; intros s o s' Hs H; simpl in H.
  - unfold mret, M_ret in H. by simplify_eq.
  - apply bind_inv in H as [([]&s1&H1&H)|(e&H1&->)].
    + eapply IH; [|done]. by eapply Hbody.
    + by eapply Hbody.
Qed.

Lemma background_keeps_counters_clear E job w o w' :
  counters_clear (database w) ->
  background E job w = (o, w') ->
  counters_clear (database w').
Proof.
  intros Hclear H. unfold background in H.
  apply try_catch_inv in H as [(a&H&->)|(e&w0&H&Hh)].
  - apply bind_inv in H as [(res&w1&H1&H)|(e&H1&?)]; [|done].
    apply sendCampaign_keeps_counters_clear in H1; [|done].
    unfold mret, M_ret in H. by simplify_eq.
  - unfold mret, M_ret in Hh. simplify_eq.
    apply bind_inv in H as [(res&w1&H1&H)|(e'&H1&_)].
    + unfold mret, M_ret in H. by simplify_eq.
    + by apply sendCampaign_keeps_counters_clear in H1.
Qed.

Lemma serve_send_keeps_counters_clear E id uid w o w' :
  counters_clear (database w) ->
  serve_send E id uid w = (o, w') ->
  counters_clear (database w').
Proof.
  intros Hclear H. unfold serve_send in H.
  apply bind_inv in H as [(resp&w1&H1&H)|(e&H1&->)];
    apply post_send_keeps_counters_clear in H1; try done.
  assert (forall o2 w2, run_immediates E w1 = (o2, w2) ->
                        counters_clear (database w2)) as Hrun.
  { intros o2 w2 H2. unfold run_immediates in H2.
    eapply (for_of_keeps (fun w => counters_clear (database w)));
      [|exact (H1 : counters_clear (database (set_immediates [] w1)))|exact H2].
    intros x s o0 s'. apply background_keeps_counters_clear. }
  apply bind_inv in H as [([]&w2&H2&H)|(e&H2&->)]; apply Hrun in H2; [|done].
  unfold mret, M_ret in H. by simplify_eq.
Qed.




(* ===================================================================== *)
(** * The progress aggregator *)
(* ===================================================================== *)

Lemma Math_round_bounds (x : Q) :
  (inject_Z (Math_round x) <= x + (1 # 2) /\ x - (1 # 2) < inject_Z (Math_round x))%Q.
Proof.
  unfold Math_round.
  pose proof (Qfloor_le (x + (1 # 2))) as Hle.
  pose proof (Qlt_floor (x + (1 # 2))) as Hlt.
  rewrite inject_Z_plus in Hlt. change (inject_Z 1) with 1%Q in Hlt. split; lra.
Qed.

Lemma toFixed4_bounds (x : Q) :
  exists n : Z,
    (toFixed4 x == inject_Z n / 10000
     /\ x - (1 # 20000) <= toFixed4 x /\ toFixed4 x <= x + (1 # 20000))%Q.
Proof.
  unfold toFixed4. destruct (Qle_bool 0 x).
  - exists (Qfloor (x * 10000 + (1 # 2))). split; [reflexivity|].
    pose proof (Qfloor_le (x * 10000 + (1 # 2))) as Hle.
    pose proof (Qlt_floor (x * 10000 + (1 # 2))) as Hlt.
    rewrite inject_Z_plus in Hlt. change (inject_Z 1) with 1%Q in Hlt.
    unfold Qdiv. change (/ 10000)%Q with (1 # 10000)%Q. split; lra.
  - exists (- Qfloor (- x * 10000 + (1 # 2)))%Z.
    pose proof (Qfloor_le (- x * 10000 + (1 # 2))) as Hle.
    pose proof (Qlt_floor (- x * 10000 + (1 # 2))) as Hlt.
    rewrite inject_Z_plus in Hlt. change (inject_Z 1) with 1%Q in Hlt.
    rewrite inject_Z_opp.
    unfold Qdiv. change (/ 10000)%Q with (1 # 10000)%Q.
    split; [ring|]. split; lra.
Qed.

(** ** Rounding to binary64 *)

Section Binary64.

Lemma Qdiv_le_cross (a b c d : Z) :
  0 < b -> 0 < d -> a * d <= c * b ->
  (inject_Z a / inject_Z b <= inject_Z c / inject_Z d)%Q.
Proof.
  intros Hb Hd Hle.
  assert (0 < inject_Z b)%Q as Hb' by (change 0%Q with (inject_Z 0); by rewrite <- Zlt_Qlt).
  assert (0 < inject_Z d)%Q as Hd' by (change 0%Q with (inject_Z 0); by rewrite <- Zlt_Qlt).
  apply Qle_shift_div_r; [done|].
  assert (inject_Z c / inject_Z d * inject_Z b
          == inject_Z c * inject_Z b / inject_Z d)%Q as ->.
  { field. intros Heq. rewrite Heq in Hd'. by apply Qlt_irrefl in Hd'. }
  apply Qle_shift_div_l; [done|].
  rewrite <- !inject_Z_mult, <- Zle_Qle. done.
Qed.

Lemma ilog2_le x : (0 < x)%Q -> (2 ^ ilog2 x <= x)%Q.
Proof.
  destruct x as [n d]. intros Hx.
  assert (0 < n) as Hn by (unfold Qlt in Hx; simpl in Hx; lia).
  unfold ilog2. cbn [Qnum Qden].
  pose proof (Z.log2_nonneg n) as Ha0. pose proof (Z.log2_nonneg (Z.pos d)) as Hb0.
  destruct (Z.log2_spec n Hn) as [Ha _].
  destruct (Z.log2_spec (Z.pos d) eq_refl) as [_ Hb].
  rewrite Z.pow_succ_r in Hb by done.
  set (a := Z.log2 n) in *. set (b := Z.log2 (Z.pos d)) in *.
  assert (0 < 2 ^ a) as Hpa by (by apply Z.pow_pos_nonneg).
  assert (0 < 2 ^ b) as Hpb by (by apply Z.pow_pos_nonneg).
  assert (forall e, (2 ^ (a - b - e) == inject_Z (2 ^ a) / inject_Z (2 ^ b * 2 ^ e))%Q
                    \/ e < 0) as Hpow.
  { intros e. destruct (Z.le_gt_cases 0 e) as [He|]; [left|by right].
    rewrite <- (Z.pow_add_r 2 b e) by done.
    rewrite !Zpower_Qpower by lia. change (inject_Z 2) with 2%Q.
    replace (a - b - e) with (a - (b + e)) by lia.
    apply Qpower_minus. discriminate. }
  rewrite (Qmake_Qdiv n d).
  destruct (Z.leb_spec (Z.pos d * 2 ^ a) (n * 2 ^ b)) as [Hle|Hgt].
  - destruct (Hpow 0) as [Heq|]; [|lia].
    rewrite Z.sub_0_r in Heq. rewrite Heq. apply Qdiv_le_cross; lia.
  - destruct (Hpow 1) as [Heq|]; [|lia].
    rewrite Heq. apply Qdiv_le_cross; [lia|lia|]. nia.
Qed.

Lemma round_half_even_bounds m :
  (m - (1 # 2) <= inject_Z (round_half_even m)
   /\ inject_Z (round_half_even m) <= m + (1 # 2))%Q.
Proof.
  unfold round_half_even.
  pose proof (Qfloor_le m) as Hle. pose proof (Qlt_floor m) as Hlt.
  rewrite inject_Z_plus in Hlt. change (inject_Z 1) with 1%Q in Hlt.
  destruct (Qcompare_spec (m - inject_Z (Qfloor m)) (1 # 2)) as [Heq|Hl|Hg].
  - destruct (Z.even (Qfloor m)).
    + split; lra.
    + rewrite inject_Z_plus. change (inject_Z 1) with 1%Q. split; lra.
  - split; lra.
  - rewrite inject_Z_plus. change (inject_Z 1) with 1%Q. split; lra.
Qed.

(** Rounding to binary64 moves a number by at most one part in 2^53. *)
Lemma nearest53_accurate x :
  (0 < x)%Q ->
  (x - x * (1 # 9007199254740992) <= nearest53 x
   /\ nearest53 x <= x + x * (1 # 9007199254740992))%Q.
Proof.
  intros Hx. unfold nearest53. rewrite Qred_correct.
  pose proof (ilog2_le x Hx) as Hlog.
  set (e := ilog2 x) in *. set (ulp := (2 ^ (e - 52))%Q).
  assert (0 < ulp)%Q as Hulp by (by apply Qpower_0_lt).
  assert (ulp * 4503599627370496 == 2 ^ e)%Q as Hscale.
  { unfold ulp. change 4503599627370496%Q with (2 ^ 52)%Q.
    rewrite <- Qpower_plus by discriminate.
    by replace (e - 52 + 52) with e by lia. }
  destruct (round_half_even_bounds (x / ulp)) as [Hlo Hhi].
  set (M := inject_Z (round_half_even (x / ulp))) in *.
  assert (x / ulp * ulp == x)%Q as Hm.
  { field. intros Heq. rewrite Heq in Hulp. by apply Qlt_irrefl in Hulp. }
  assert ((x / ulp - (1 # 2)) * ulp <= M * ulp)%Q as H1
    by (apply Qmult_le_compat_r; [done|by apply Qlt_le_weak]).
  assert (M * ulp <= (x / ulp + (1 # 2)) * ulp)%Q as H2
    by (apply Qmult_le_compat_r; [done|by apply Qlt_le_weak]).
  rewrite <- Hscale in Hlog.
  split; lra.
Qed.

Lemma binary64_accurate x :
  (0 <= x)%Q ->
  (x - x * (1 # 9007199254740992) <= binary64 x
   /\ binary64 x <= x + x * (1 # 9007199254740992))%Q.
Proof.
  intros Hx. unfold binary64.
  destruct (Qcompare_spec x 0) as [Heq|Hlt|Hgt].
  - rewrite Heq. split; lra.
  - lra.
  - by apply nearest53_accurate.
Qed.

Lemma Qdiv_lt_cross (a b c d : Z) :
  0 < b -> 0 < d -> a * d < c * b ->
  (inject_Z a / inject_Z b < inject_Z c / inject_Z d)%Q.
Proof.
  intros Hb Hd Hlt.
  assert (0 < inject_Z b)%Q as Hb' by (change 0%Q with (inject_Z 0); by rewrite <- Zlt_Qlt).
  assert (0 < inject_Z d)%Q as Hd' by (change 0%Q with (inject_Z 0); by rewrite <- Zlt_Qlt).
  apply Qlt_shift_div_r; [done|].
  assert (inject_Z c / inject_Z d * inject_Z b
          == inject_Z c * inject_Z b / inject_Z d)%Q as ->.
  { field. intros Heq. rewrite Heq in Hd'. by apply Qlt_irrefl in Hd'. }
  apply Qlt_shift_div_l; [done|].
  rewrite <- !inject_Z_mult, <- Zlt_Qlt. done.
Qed.

Lemma ilog2_lt x : (0 < x)%Q -> (x < 2 ^ (ilog2 x + 1))%Q.
Proof.
  destruct x as [n d]. intros Hx.
  assert (0 < n) as Hn by (unfold Qlt in Hx; simpl in Hx; lia).
  unfold ilog2. cbn [Qnum Qden].
  pose proof (Z.log2_nonneg n) as Ha0. pose proof (Z.log2_nonneg (Z.pos d)) as Hb0.
  destruct (Z.log2_spec n Hn) as [_ Ha].
  destruct (Z.log2_spec (Z.pos d) eq_refl) as [Hb _].
  rewrite Z.pow_succ_r in Ha by done.
  set (a := Z.log2 n) in *. set (b := Z.log2 (Z.pos d)) in *.
  assert (0 < 2 ^ a) as Hpa by (by apply Z.pow_pos_nonneg).
  assert (0 < 2 ^ b) as Hpb by (by apply Z.pow_pos_nonneg).
  assert (forall e, 0 <= e ->
            (2 ^ (a + e - b) == inject_Z (2 ^ a * 2 ^ e) / inject_Z (2 ^ b))%Q)
    as Hpow.
  { intros e He. rewrite <- (Z.pow_add_r 2 a e) by done.
    rewrite !Zpower_Qpower by lia. change (inject_Z 2) with 2%Q.
    apply Qpower_minus. discriminate. }
  rewrite (Qmake_Qdiv n d).
  destruct (Z.leb_spec (Z.pos d * 2 ^ a) (n * 2 ^ b)) as [Hle|Hgt].
  - replace (a - b + 1) with (a + 1 - b) by lia.
    rewrite (Hpow 1) by lia. apply Qdiv_lt_cross; [lia|lia|]. nia.
  - replace (a - b - 1 + 1) with (a + 0 - b) by lia.
    rewrite (Hpow 0) by lia. apply Qdiv_lt_cross; [lia|lia|]. lia.
Qed.

(** The number [binary64] gives for a positive [x] has a significand of
    53 bits, and none is nearer to [x]. *)
Lemma nearest53_significand x :
  (0 < x)%Q ->
  exists M : Z,
    (nearest53 x == inject_Z M * 2 ^ (ilog2 x - 52))%Q
    /\ 2 ^ 52 <= M <= 2 ^ 53
    /\ (x / 2 ^ (ilog2 x - 52) - (1 # 2) <= inject_Z M
        /\ inject_Z M <= x / 2 ^ (ilog2 x - 52) + (1 # 2))%Q.
Proof.
  intros Hx. exists (round_half_even (x / 2 ^ (ilog2 x - 52))).
  split; [unfold nearest53; by rewrite Qred_correct|].
  split; [|apply round_half_even_bounds].
  pose proof (ilog2_le x Hx) as Hlo. pose proof (ilog2_lt x Hx) as Hhi.
  set (e := ilog2 x) in *. set (ulp := (2 ^ (e - 52))%Q).
  assert (0 < ulp)%Q as Hulp by (by apply Qpower_0_lt).
  assert (ulp * 4503599627370496 == 2 ^ e)%Q as Hscale.
  { unfold ulp. change 4503599627370496%Q with (2 ^ 52)%Q.
    rewrite <- Qpower_plus by discriminate.
    by replace (e - 52 + 52) with e by lia. }
  assert (ulp * 9007199254740992 == 2 ^ (e + 1))%Q as Hscale'.
  { unfold ulp. change 9007199254740992%Q with (2 ^ 53)%Q.
    rewrite <- Qpower_plus by discriminate.
    by replace (e - 52 + 53) with (e + 1) by lia. }
  rewrite <- Hscale in Hlo. rewrite <- Hscale' in Hhi.
  assert (4503599627370496 <= x / ulp)%Q as Hm1.
  { apply Qle_shift_div_l; [done|]. lra. }
  assert (x / ulp <= 9007199254740992)%Q as Hm2.
  { apply Qle_shift_div_r; [done|]. lra. }
  unfold round_half_even.
  pose proof (Qfloor_le (x / ulp)) as Hfl. pose proof (Qlt_floor (x / ulp)) as Hfl'.
  assert (2 ^ 52 <= Qfloor (x / ulp)) as Hf1.
  { rewrite <- (Qfloor_Z (2 ^ 52)). by apply Qfloor_resp_le. }
  assert (Qfloor (x / ulp) <= 2 ^ 53) as Hf2.
  { rewrite <- (Qfloor_Z (2 ^ 53)). by apply Qfloor_resp_le. }
  assert (Qfloor (x / ulp) = 2 ^ 53 -> (x / ulp == inject_Z (Qfloor (x / ulp)))%Q)
    as Htop.
  { intros Heq. apply Qle_antisym; [|done]. rewrite Heq. exact Hm2. }
  destruct (Qcompare_spec (x / ulp - inject_Z (Qfloor (x / ulp))) (1 # 2))
    as [Heq|Hl|Hg].
  - destruct (Z.even (Qfloor (x / ulp))); [lia|].
    destruct (Z.eq_dec (Qfloor (x / ulp)) (2 ^ 53)) as [Htwo|]; [|lia].
    apply Htop in Htwo. rewrite <- Htwo in Heq. lra.
  - lia.
  - destruct (Z.eq_dec (Qfloor (x / ulp)) (2 ^ 53)) as [Htwo|]; [|lia].
    apply Htop in Htwo. rewrite <- Htwo in Hg. lra.
Qed.

End Binary64.

(** C6, as stated, fails on its last clause: the success rate is not the
    quotient but the quotient rounded to four decimals; for 1 sent and 2
    failed it is 0.3333, not 1/3. *)
Lemma success_rate_is_not_the_exact_quotient :
  ~ (forall c, 0 < Campaign.sent_count c + Campaign.failed_count c ->
       (Progress.success_rate (calculateProgress c)
        == inject_Z (Campaign.sent_count c)
           / inject_Z (Campaign.sent_count c + Campaign.failed_count c))%Q).
Proof.
  intros H. specialize (H (Demo.campaign CampaignStatus.completed 1 2) eq_refl).
  vm_compute in H. discriminate H.
Qed.

(** A tie of the exact arithmetic need not be one of the engine: for 23
    processed out of 80 the product is a little below 287.5 and the
    percentage is 28.7, and for 3 sent out of 160 processed the quotient
    is a little below 0.01875 and the success rate is 0.0187. *)
Example ties_of_the_exact_arithmetic :
  let p := calculateProgress
             (Campaign.mk 7 "Launch" "Hi" "Hello" None 80 23 0
                CampaignStatus.sending None None 0 0) in
  let r := calculateProgress
             (Campaign.mk 7 "Launch" "Hi" "Hello" None 160 3 157
                CampaignStatus.sending None None 0 0) in
  Progress.percentage p = binary64 (287 # 10)
  /\ (inject_Z 23 / inject_Z 80 * 100 == 2875 # 100)%Q
  /\ Progress.success_rate r = binary64 (187 # 10000)
  /\ (inject_Z 3 / inject_Z 160 == 1875 # 100000)%Q.
Proof. by vm_compute. Qed.

Lemma Qdiv_nonneg (a b : Z) : 0 <= a -> 0 < b -> (0 <= inject_Z a / inject_Z b)%Q.
Proof.
  intros Ha Hb. apply Qle_shift_div_l.
  - change 0%Q with (inject_Z 0). by rewrite <- Zlt_Qlt.
  - rewrite Qmult_0_l. change 0%Q with (inject_Z 0). by rewrite <- Zle_Qle.
Qed.

(** C6, amended.  [calculateProgress] is total and divides only behind its
    guards: with no recipients the percentage is 0, with nothing sent or
    failed the success rate is 0.  Otherwise, for counters that are not
    negative, the percentage is the binary64 number nearest to n/10 for
    an integer n, and n/10 is at most 1/20 away from
    (sent+failed)/total*100, up to the three roundings of the
    arithmetic, one part in 2^51; the success rate is the binary64
    number nearest to n/10000 for an integer n, and n/10000 is at most
    1/20000 away from sent/(sent+failed), up to the rounding of the
    quotient, one part in 2^53. *)
Theorem progress_is_guarded_and_rounded (c : Campaign.t) :
  let p := calculateProgress c in
  let total := Campaign.recipient_count c in
  let sent := Campaign.sent_count c in
  let failed := Campaign.failed_count c in
  (total <= 0 -> Progress.percentage p = 0%Q)
  /\ (sent + failed <= 0 -> Progress.success_rate p = 0%Q)
  /\ (0 < total -> 0 <= sent + failed ->
      exists n : Z,
        let share := (inject_Z (sent + failed) / inject_Z total * 100)%Q in
        (Progress.percentage p = binary64 (inject_Z n / 10)
         /\ share - (1 # 20) - share * (1 # 2251799813685248) <= inject_Z n / 10
         /\ inject_Z n / 10 <= share + (1 # 20) + share * (1 # 2251799813685248)
         /\ inject_Z n / 10 - inject_Z n / 10 * (1 # 9007199254740992)
            <= Progress.percentage p
         /\ Progress.percentage p
            <= inject_Z n / 10 + inject_Z n / 10 * (1 # 9007199254740992))%Q)
  /\ (0 < sent + failed -> 0 <= sent ->
      exists n : Z,
        let rate := (inject_Z sent / inject_Z (sent + failed))%Q in
        (Progress.success_rate p = binary64 (inject_Z n / 10000)
         /\ rate - (1 # 20000) - rate * (1 # 9007199254740992)
            <= inject_Z n / 10000
         /\ inject_Z n / 10000
            <= rate + (1 # 20000) + rate * (1 # 9007199254740992)
         /\ inject_Z n / 10000 - inject_Z n / 10000 * (1 # 9007199254740992)
            <= Progress.success_rate p
         /\ Progress.success_rate p
            <= inject_Z n / 10000
               + inject_Z n / 10000 * (1 # 9007199254740992))%Q).
Proof.
  intros p total sent failed. subst p. unfold calculateProgress.
  fold total sent failed. cbn [Progress.percentage Progress.success_rate].
  split; [|split; [|split]].
  - intros Ht. destruct (Z.ltb_spec 0 total); [lia|done].
  - intros Hs. destruct (Z.ltb_spec 0 (sent + failed)); [lia|done].
  - intros Ht Hp. destruct (Z.ltb_spec 0 total); [|lia].
    pose proof (Qdiv_nonneg _ _ Hp Ht) as Hq.
    set (q := (inject_Z (sent + failed) / inject_Z total)%Q) in *.
    destruct (binary64_accurate q Hq) as [H1 H1'].
    set (y1 := binary64 q) in *.
    destruct (binary64_accurate (y1 * 100)) as [H2 H2']; [lra|].
    set (y2 := binary64 (y1 * 100)) in *.
    destruct (binary64_accurate (y2 * 10)) as [H3 H3']; [lra|].
    set (y3 := binary64 (y2 * 10)) in *.
    destruct (Math_round_bounds y3) as [Hn Hn'].
    set (n := Math_round y3) in *.
    exists n. cbv zeta.
    assert (0 <= inject_Z n)%Q as Hn0.
    { assert (inject_Z (-1) < inject_Z n)%Q as Hlt
        by (change (inject_Z (-1)) with (-1)%Q; lra).
      rewrite <- Zlt_Qlt in Hlt.
      change 0%Q with (inject_Z 0). rewrite <- Zle_Qle. lia. }
    destruct (binary64_accurate (inject_Z n / 10)) as [H4 H4'].
    { unfold Qdiv. change (/ 10)%Q with (1 # 10)%Q. lra. }
    split; [done|]. split; [|split; [|split; [done|done]]].
    + unfold Qdiv. change (/ 10)%Q with (1 # 10)%Q. lra.
    + unfold Qdiv. change (/ 10)%Q with (1 # 10)%Q. lra.
  - intros Hs Hsent. destruct (Z.ltb_spec 0 (sent + failed)); [|lia].
    pose proof (Qdiv_nonneg _ _ Hsent Hs) as Hq.
    set (q := (inject_Z sent / inject_Z (sent + failed))%Q) in *.
    destruct (binary64_accurate q Hq) as [H1 H1'].
    set (y1 := binary64 q) in *.
    assert (toFixed4 y1
            = (inject_Z (Qfloor (y1 * 10000 + (1 # 2))) / 10000)%Q) as Hfix.
    { unfold toFixed4.
      assert (Qle_bool 0 y1 = true) as -> by (apply Qle_bool_iff; lra). done. }
    rewrite Hfix.
    pose proof (Qfloor_le (y1 * 10000 + (1 # 2))) as Hle.
    pose proof (Qlt_floor (y1 * 10000 + (1 # 2))) as Hlt.
    rewrite inject_Z_plus in Hlt. change (inject_Z 1) with 1%Q in Hlt.
    set (n := Qfloor (y1 * 10000 + (1 # 2))) in *.
    exists n. cbv zeta.
    assert (0 <= inject_Z n)%Q as Hn0.
    { assert (inject_Z (-1) < inject_Z n)%Q as Hneg
        by (change (inject_Z (-1)) with (-1)%Q; lra).
      rewrite <- Zlt_Qlt in Hneg.
      change 0%Q with (inject_Z 0). rewrite <- Zle_Qle. lia. }
    destruct (binary64_accurate (inject_Z n / 10000)) as [H4 H4'].
    { unfold Qdiv. change (/ 10000)%Q with (1 # 10000)%Q. lra. }
    split; [done|]. split; [|split; [|split; [done|done]]].
    + unfold Qdiv. change (/ 10000)%Q with (1 # 10000)%Q. lra.
    + unfold Qdiv. change (/ 10000)%Q with (1 # 10000)%Q. lra.
Qed.

Lemma progress_is_guarded_and_rounded_witness :
  let p := calculateProgress (Demo.campaign CampaignStatus.completed 1 2) in
  (Progress.percentage p == 100 /\ Progress.success_rate p = binary64 (3333 # 10000))%Q
  /\ (0 < 1 + 2 -> 0 <= 1 ->
      exists n : Z,
        let rate := (inject_Z 1 / inject_Z (1 + 2))%Q in
        (Progress.success_rate p = binary64 (inject_Z n / 10000)
         /\ rate - (1 # 20000) - rate * (1 # 9007199254740992)
            <= inject_Z n / 10000
         /\ inject_Z n / 10000
            <= rate + (1 # 20000) + rate * (1 # 9007199254740992)
         /\ inject_Z n / 10000 - inject_Z n / 10000 * (1 # 9007199254740992)
            <= Progress.success_rate p
         /\ Progress.success_rate p
            <= inject_Z n / 10000
               + inject_Z n / 10000 * (1 # 9007199254740992))%Q).
Proof.
  intros p. split; [split; by vm_compute|].
  apply (progress_is_guarded_and_rounded
           (Demo.campaign CampaignStatus.completed 1 2)).
Defined.

(* ===================================================================== *)
(** * The template renderer *)
(* ===================================================================== *)

Example render_hello :
  replaceTemplateVariables no_engine (JString "Hello {{name}}, id {{missing}}")
    [("name", JString "Ana")] = Ok "Hello Ana, id ".
Proof. reflexivity. Qed.

Example render_malformed :
  replaceTemplateVariables no_engine (JString "Hello {name} and {{name}")
    [("name", JString "John")] = Ok "Hello {name} and {{name}".
Proof. reflexivity. Qed.

Example render_dollar :
  replaceTemplateVariables no_engine (JString "Total: {{amount}}")
    [("amount", JString "$$5")] = Ok "Total: $5".
Proof. reflexivity. Qed.

Example render_straddle :
  replaceTemplateVariables no_engine (JString "{{ab}{{x}}}") [] = Ok "{{ab}}".
Proof. reflexivity. Qed.

Example entries_order :
  Obj.entries [("name", JString "a"); ("7", JNull); ("email", JString "b"); ("3", JNull)]
  = [("3", JNull); ("7", JNull); ("name", JString "a"); ("email", JString "b")].
Proof. reflexivity. Qed.

Section RendererFacts.

#[local] Arguments String.append !s1 s2 /.
#[local] Arguments Ascii.eqb : simpl never.

Lemma append_nil_r s : s +:+ "" = s.
Proof. induction s; simpl; congruence. Qed.

Lemma append_assoc s1 s2 s3 : (s1 +:+ s2) +:+ s3 = s1 +:+ s2 +:+ s3.
Proof. induction s1; simpl; congruence. Qed.

Lemma length_append s1 s2 :
  String.length (s1 +:+ s2) = (String.length s1 + String.length s2)%nat.
Proof. induction s1; simpl; congruence. Qed.

Lemma mem_append c s1 s2 : Str.mem c (s1 +:+ s2) = Str.mem c s1 || Str.mem c s2.
Proof. induction s1; simpl; [done|]. rewrite IHs1. by rewrite orb_assoc. Qed.

Lemma span_not_close_inv s n u :
  Str.span_not_close s = (n, u) ->
  exists run,
    s = run +:+ u /\ String.length run = n /\ Str.mem "}" run = false
    /\ (forall c v, u = String c v -> c = "}"%char).
Proof.
  revert n u. induction s as [|c s IH]; intros n u; simpl.
  - intros [= <- <-]. exists "". by repeat split.
  - destruct (Ascii.eqb_spec c "}") as [->|Hc].
    + intros [= <- <-]. exists "". repeat split. by intros c v [= <- _].
    + destruct (Str.span_not_close s) as [n' r] eqn:Hs. intros [= <- <-].
      destruct (IH _ _ eq_refl) as (run&->&Hlen&Hmem&Hu).
      exists (String c run). cbn [String.append String.length Str.mem].
      repeat split; auto.
      rewrite Hmem, orb_false_r. apply Ascii.eqb_neq. congruence.
Qed.

Lemma span_not_close_key key v :
  Str.mem "}" key = false ->
  Str.span_not_close (key +:+ String "}" v) = (String.length key, String "}" v).
Proof.
  induction key as [|c key IH]; simpl; [done|].
  intros [Hc Hk]%orb_false_elim.
  rewrite Ascii.eqb_sym, Hc. by rewrite IH.
Qed.

Lemma placeholder_matcher_sound s m rest :
  RegExp.placeholder_matcher s = Some (m, rest) ->
  matches_at s rest /\ (String.length rest < String.length s)%nat.
Proof.
  unfold RegExp.placeholder_matcher.
  destruct s as [|a [|b t]]; try done.
  destruct (Ascii.eqb_spec a "{") as [->|]; [|done].
  destruct (Ascii.eqb_spec b "{") as [->|]; [|done]. simpl andb. cbv iota.
  destruct (Str.span_not_close t) as [n u] eqn:Hspan.
  destruct n as [|n]; [done|]. destruct u as [|c [|d rest']]; try done.
  destruct (Ascii.eqb_spec c "}") as [->|]; [|done].
  destruct (Ascii.eqb_spec d "}") as [->|]; [|done]. simpl andb. cbv iota.
  intros [= _ <-].
  apply span_not_close_inv in Hspan as (run&->&Hlen&Hmem&_).
  split.
  - exists run. split; [by destruct run|]. split; [done|]. done.
  - simpl. rewrite length_append. simpl. lia.
Qed.

Lemma placeholder_matcher_complete s rest :
  matches_at s rest ->
  exists m, RegExp.placeholder_matcher s = Some (m, rest).
Proof.
  intros (key&Hne&Hmem&->). simpl.
  rewrite (span_not_close_key key (String "}" rest) Hmem).
  destruct key as [|c key]; [done|]. simpl. eauto.
Qed.

Lemma placeholder_at_rest s rest1 rest2 :
  matches_at s rest1 -> matches_at s rest2 -> rest1 = rest2.
Proof.
  intros [m1 H1]%placeholder_matcher_complete [m2 H2]%placeholder_matcher_complete.
  congruence.
Qed.

Lemma expand_empty before matched after :
  RegExp.expand "" before matched after = "".
Proof. done. Qed.

Lemma replace_from_swept fuel : forall s before,
  (String.length s <= fuel)%nat ->
  swept s (RegExp.replace_from fuel RegExp.placeholder_matcher "" before s).
Proof.
  induction fuel as [|fuel IH]; intros s before Hlen.
  - destruct s; [constructor|simpl in Hlen; lia].
  - simpl. destruct (RegExp.placeholder_matcher s) as [[m rest]|] eqn:Hm.
    + apply placeholder_matcher_sound in Hm as [Hat Hlt].
      eapply swept_placeholder; [done|]. apply IH. lia.
    + destruct s as [|c s]; [constructor|].
      apply swept_char.
      * intros rest [m Hm']%placeholder_matcher_complete. congruence.
      * apply IH. simpl in Hlen. lia.
Qed.

Lemma swept_deterministic s r1 : swept s r1 -> forall r2, swept s r2 -> r1 = r2.
Proof.
  induction 1 as [|s rest r Hat _ IH|c s r Hno _ IH]; intros r2 H2.
  - inversion H2 as [|s' rest' r' Hat'|]; subst; [done|].
    destruct Hat' as (key&_&_&?). done.
  - inversion H2 as [|s' rest' r' Hat' Hr'|c' s' r' Hno' Hr']; subst.
    + destruct Hat as (key&_&_&?). done.
    + rewrite (placeholder_at_rest _ _ _ Hat Hat') in IH. by apply IH.
    + by destruct (Hno' rest).
  - inversion H2 as [|s' rest' r' Hat' Hr'|c' s' r' Hno' Hr']; subst.
    + by destruct (Hno rest').
    + f_equal. by apply IH.
Qed.

Lemma swept_verbatim s r :
  swept s r ->
  (forall pre s' rest, s = pre +:+ s' -> ~ matches_at s' rest) ->
  r = s.
Proof.
  induction 1 as [|s rest r Hat _ _|c s r _ _ IH]; intros Hnone.
  - done.
  - by destruct (Hnone "" s rest).
  - f_equal. apply IH. intros pre s' rest ->.
    by apply (Hnone (String c pre)).
Qed.

Lemma render_no_fields_eq engine T :
  replaceTemplateVariables engine (JString T) []
  = Ok (RegExp.replace RegExp.placeholder_matcher "" T).
Proof.
  unfold replaceTemplateVariables, falsy. destruct (string_dec T "") as [->|]; done.
Qed.

(** Rendering with no fields sweeps the template: the result is the one
    text [R] with [swept T R], and a template in which the pattern finds
    no match anywhere is returned as it is. *)
Lemma render_without_fields_sweeps engine (T : string) :
  exists R,
    replaceTemplateVariables engine (JString T) [] = Ok R
    /\ swept T R
    /\ (forall R', swept T R' -> R' = R)
    /\ ((forall pre s rest, T = pre +:+ s -> ~ matches_at s rest) -> R = T).
Proof.
  exists (RegExp.replace RegExp.placeholder_matcher "" T).
  assert (swept T (RegExp.replace RegExp.placeholder_matcher "" T)) as Hs
    by (by apply replace_from_swept).
  split; [apply render_no_fields_eq|]. split; [done|]. split.
  - intros R' HR'. by apply (swept_deterministic T R' HR').
  - by apply swept_verbatim.
Qed.

Example render_unterminated :
  replaceTemplateVariables no_engine (JString "Hello {{name") [] = Ok "Hello {{name"
  /\ replaceTemplateVariables no_engine (JString "Hello {{name}}, {{id}}!") []
     = Ok "Hello , !".
Proof. by vm_compute. Qed.

(** ** Substitution on well-formed templates *)

Lemma strip_prefix_append p r : Str.strip_prefix p (p +:+ r) = Some r.
Proof. induction p as [|a p IH]; simpl; [done|]. by rewrite Ascii.eqb_refl. Qed.

Lemma strip_prefix_inv p s r : Str.strip_prefix p s = Some r -> s = p +:+ r.
Proof.
  revert s. induction p as [|a p IH]; intros s; simpl; [by intros [= ->]|].
  destruct s as [|b s]; [done|].
  destruct (Ascii.eqb_spec a b) as [->|]; [|done]. by intros ->%IH.
Qed.

Lemma expand_plain v before matched after :
  Str.mem "$" v = false -> RegExp.expand v before matched after = v.
Proof.
  induction v as [|c v IH]; simpl; [done|]. intros [Hc Hv]%orb_false_elim.
  rewrite Ascii.eqb_sym, Hc. by rewrite IH.
Qed.

Lemma all_mem p s c : Str.all p s = true -> Str.mem c s = true -> p c = true.
Proof.
  induction s as [|d s IH]; simpl; [done|].
  intros [Hd Hs]%andb_prop [Hc|Hc]%orb_prop; [|by apply IH].
  apply Ascii.eqb_eq in Hc. by subst.
Qed.

Lemma literal_no_syntax key c :
  RegExp.literal key = true -> Str.mem c RegExp.syntax_chars = true ->
  Str.mem c key = false.
Proof.
  intros Hlit Hc. destruct (Str.mem c key) eqn:Hmem; [|done].
  pose proof (all_mem _ _ _ Hlit Hmem) as H. cbv beta in H. by rewrite Hc in H.
Qed.

Lemma literal_no_braces key :
  RegExp.literal key = true ->
  Str.mem "{" key = false /\ Str.mem "}" key = false.
Proof. intros H. split; by apply literal_no_syntax. Qed.

(** A key matches the placeholder of that key and of no other. *)
Lemma key_prefix_inv k k' X r :
  Str.mem "}" k = false -> Str.mem "}" k' = false ->
  Str.strip_prefix (k +:+ "}}") (k' +:+ "}}" +:+ X) = Some r ->
  k = k' /\ r = X.
Proof.
  revert k'. induction k as [|a k IH]; intros [|b k']; simpl.
  - intros _ _. by intros [= ->].
  - intros _ [Hb _]%orb_false_elim. by rewrite Hb.
  - intros [Ha _]%orb_false_elim _. by rewrite Ascii.eqb_sym, Ha.
  - intros [_ Hk]%orb_false_elim [_ Hk']%orb_false_elim.
    destruct (Ascii.eqb_spec a b) as [->|]; [|done].
    intros H. destruct (IH k' Hk Hk' H) as [-> ->]. done.
Qed.

Lemma token_matcher_hole k k' X m r :
  Str.mem "}" k = false -> Str.mem "}" k' = false ->
  RegExp.token_matcher k (RegExp.token k' +:+ X) = Some (m, r) ->
  k = k' /\ r = X.
Proof.
  unfold RegExp.token_matcher, RegExp.token. intros Hk Hk'.
  destruct (Str.strip_prefix _ _) as [r'|] eqn:H; [|done]. intros [= _ <-].
  simpl in H. rewrite ?Ascii.eqb_refl in H.
  rewrite append_assoc in H. by apply key_prefix_inv in H.
Qed.

Lemma token_matcher_same k X :
  RegExp.token_matcher k (RegExp.token k +:+ X) = Some (RegExp.token k, X).
Proof. unfold RegExp.token_matcher. by rewrite strip_prefix_append. Qed.

Lemma token_matcher_text k c s :
  c <> "{"%char -> RegExp.token_matcher k (String c s) = None.
Proof.
  intros Hc. unfold RegExp.token_matcher, RegExp.token. simpl.
  destruct (Ascii.eqb_spec "{" c); [congruence|done].
Qed.

Lemma token_matcher_single_brace k c s :
  c <> "{"%char -> RegExp.token_matcher k (String "{" (String c s)) = None.
Proof.
  intros Hc. unfold RegExp.token_matcher, RegExp.token. simpl.
  rewrite ?Ascii.eqb_refl. destruct (Ascii.eqb_spec "{" c); [congruence|done].
Qed.

Lemma token_matcher_shrinks k s m rest :
  RegExp.token_matcher k s = Some (m, rest) ->
  (String.length rest < String.length s)%nat.
Proof.
  unfold RegExp.token_matcher.
  destruct (Str.strip_prefix _ _) as [r|] eqn:H; [|done]. intros [= _ <-].
  apply strip_prefix_inv in H as ->. rewrite length_append. simpl. lia.
Qed.

(** Enough fuel is enough, and the text before a match does not matter to
    a value without dollar sign. *)
Lemma replace_from_token_fuel k v fuel1 : forall fuel2 s b1 b2,
  Str.mem "$" v = false ->
  (String.length s <= fuel1)%nat -> (String.length s <= fuel2)%nat ->
  RegExp.replace_from fuel1 (RegExp.token_matcher k) v b1 s
  = RegExp.replace_from fuel2 (RegExp.token_matcher k) v b2 s.
Proof.
  induction fuel1 as [|fuel1 IH]; intros fuel2 s b1 b2 Hv H1 H2.
  - destruct s; [|simpl in H1; lia]. by destruct fuel2.
  - destruct fuel2 as [|fuel2].
    { destruct s; [done|simpl in H2; lia]. }
    simpl. destruct (RegExp.token_matcher k s) as [[m rest]|] eqn:Hm.
    + pose proof (token_matcher_shrinks _ _ _ _ Hm).
      rewrite !expand_plain by done. f_equal. apply IH; [done|lia|lia].
    + destruct s as [|c s]; [done|]. f_equal. simpl in *. apply IH; [done|lia|lia].
Qed.

(** [scan k v s]: one turn of the loop on [s]. *)
#[local] Abbreviation scan k v s := (RegExp.replace (RegExp.token_matcher k) v s).

Lemma scan_char k v c s :
  Str.mem "$" v = false ->
  RegExp.token_matcher k (String c s) = None ->
  scan k v (String c s) = String c (scan k v s).
Proof.
  intros Hv Hm. unfold RegExp.replace. simpl String.length.
  cbn [RegExp.replace_from]. rewrite Hm. f_equal.
  by apply replace_from_token_fuel.
Qed.

Lemma scan_text k v s X :
  Str.mem "$" v = false -> Str.mem "{" s = false ->
  scan k v (s +:+ X) = s +:+ scan k v X.
Proof.
  intros Hv. induction s as [|c s IH]; simpl; [done|].
  intros [Hc Hs]%orb_false_elim.
  rewrite scan_char, IH; try done.
  apply token_matcher_text. intros ->. by rewrite Ascii.eqb_refl in Hc.
Qed.

Lemma scan_same k v X :
  Str.mem "$" v = false ->
  scan k v (RegExp.token k +:+ X) = v +:+ scan k v X.
Proof.
  intros Hv. unfold RegExp.replace.
  destruct (String.length (RegExp.token k +:+ X)) as [|fuel] eqn:Hlen.
  { rewrite length_append in Hlen. simpl in Hlen. lia. }
  cbn [RegExp.replace_from]. rewrite token_matcher_same, expand_plain by done.
  f_equal. apply replace_from_token_fuel; [done| |done].
  rewrite length_append in Hlen. unfold RegExp.token in Hlen. simpl in Hlen. lia.
Qed.

Lemma scan_other k v k' X :
  Str.mem "$" v = false ->
  Str.mem "}" k = false ->
  k' <> "" -> Str.mem "{" k' = false -> Str.mem "}" k' = false ->
  k <> k' ->
  scan k v (RegExp.token k' +:+ X) = RegExp.token k' +:+ scan k v X.
Proof.
  intros Hv Hk Hne Hopen Hclose Hkk'.
  assert (RegExp.token_matcher k (RegExp.token k' +:+ X) = None) as Hm.
  { destruct (RegExp.token_matcher k _) as [[m r]|] eqn:H; [|done].
    by apply token_matcher_hole in H as [? _]. }
  destruct k' as [|c k']; [done|]. simpl in Hopen.
  apply orb_false_elim in Hopen as [Hc Hopen].
  assert (c <> "{"%char) as Hc' by (intros ->; by rewrite Ascii.eqb_refl in Hc).
  unfold RegExp.token in *. simpl in *.
  rewrite (scan_char k v _ _ Hv Hm).
  rewrite (scan_char k v _ _ Hv (token_matcher_single_brace k c _ Hc')).
  rewrite (scan_char k v _ _ Hv (token_matcher_text k c _ Hc')).
  do 3 f_equal. rewrite scan_text; [done|done|].
  rewrite mem_append, Hopen. done.
Qed.

Lemma scan_empty k v : scan k v "" = "".
Proof. done. Qed.

Lemma scan_template k v tpl :
  Str.mem "$" v = false -> Str.mem "}" k = false ->
  Template.well_formed tpl ->
  scan k v (Template.flatten tpl) = Template.flatten (Template.subst k v tpl).
Proof.
  intros Hv Hk. induction 1 as [|[s|k'] tpl Hseg _ IH]; [done| |].
  - simpl in *. by rewrite scan_text, IH.
  - destruct Hseg as (Hne&Hopen&Hclose). cbn [Template.flatten Template.subst map].
    destruct (String.eqb_spec k k') as [->|Hkk'].
    + cbn [Template.flatten]. fold (Template.subst k' v tpl).
      by rewrite scan_same, IH.
    + cbn [Template.flatten]. fold (Template.subst k v tpl).
      by rewrite scan_other, IH.
Qed.

Lemma well_formed_subst k v tpl :
  Str.mem "{" v = false ->
  Template.well_formed tpl -> Template.well_formed (Template.subst k v tpl).
Proof.
  intros Hv. induction 1 as [|[s|k'] tpl Hseg _ IH]; [constructor| |].
  - by constructor.
  - cbn [Template.subst map]. fold (Template.subst k v tpl).
    destruct (String.eqb k k'); by constructor.
Qed.

Lemma replace_keys_template engine data : forall tpl,
  Template.plain_fields data -> Template.well_formed tpl ->
  replace_keys engine data (Template.flatten tpl)
  = Ok (Template.flatten (subst_all data tpl))
  /\ Template.well_formed (subst_all data tpl).
Proof.
  induction data as [|[k value] data IH]; intros tpl Hdata Htpl; [done|].
  apply Forall_cons in Hdata as [(Hlit&Hdollar&Hopen) Hdata]. simpl in *.
  unfold replace_key. rewrite Hlit.
  destruct (literal_no_braces k Hlit) as [_ Hclose].
  rewrite scan_template by done.
  apply IH; [done|]. by apply well_formed_subst.
Qed.

Lemma fill_subst k value data tpl :
  Template.fill data (Template.subst k (or_empty value) tpl)
  = Template.fill ((k, value) :: data) tpl.
Proof.
  induction tpl as [|[s|k'] tpl IH]; [done| |].
  - simpl. by rewrite <- IH.
  - cbn [Template.subst map Template.fill Template.lookup].
    fold (Template.subst k (or_empty value) tpl).
    rewrite (String.eqb_sym k' k).
    destruct (String.eqb k k'); cbn [Template.fill]; by rewrite IH.
Qed.

Lemma fill_subst_all data : forall tpl,
  Template.fill [] (subst_all data tpl) = Template.fill data tpl.
Proof.
  induction data as [|[k value] data IH]; intros tpl; [done|].
  unfold subst_all in *. simpl. by rewrite IH, fill_subst.
Qed.

Lemma swept_text s X R :
  Str.mem "{" s = false -> swept X R -> swept (s +:+ X) (s +:+ R).
Proof.
  induction s as [|c s IH]; simpl; [done|].
  intros [Hc Hs]%orb_false_elim HX. apply swept_char; [|by apply IH].
  intros rest (key&_&_&Heq). simpl in Heq. injection Heq as -> _.
  by rewrite Ascii.eqb_refl in Hc.
Qed.

Lemma swept_template tpl :
  Template.well_formed tpl ->
  swept (Template.flatten tpl) (Template.fill [] tpl).
Proof.
  induction 1 as [|[s|k] tpl Hseg _ IH]; [constructor| |].
  - simpl. by apply swept_text.
  - destruct Hseg as (Hne&_&Hclose). simpl.
    eapply swept_placeholder; [|done].
    exists k. split; [done|]. split; [done|].
    unfold RegExp.token. simpl. by rewrite append_assoc.
Qed.

Lemma flatten_empty data tpl :
  Template.well_formed tpl -> Template.flatten tpl = "" ->
  Template.fill data tpl = "".
Proof.
  induction 1 as [|[s|k] tpl Hseg _ IH]; [done| |].
  - simpl. destruct s; [|done]. simpl. apply IH.
  - done.
Qed.

(** On a template of text and well-formed placeholders, with keys of
    ordinary characters and values free of dollar signs and opening
    braces, the renderer substitutes as the specification says: every
    occurrence of a placeholder gives way to the value of its key, the
    keys compared as they are written; a value [null] or [undefined], and
    a key that is absent, leave nothing. *)
Lemma render_fills_well_formed_templates engine tpl data :
  Template.well_formed tpl -> Template.plain_fields data ->
  replaceTemplateVariables engine (JString (Template.flatten tpl)) data
  = Ok (Template.fill data tpl).
Proof.
  intros Htpl Hdata. unfold replaceTemplateVariables, falsy. simpl or_empty.
  destruct (string_dec (Template.flatten tpl) "") as [Hempty|_].
  { by rewrite flatten_empty. }
  destruct (replace_keys_template engine data tpl Hdata Htpl) as [-> Hwf].
  f_equal. rewrite <- fill_subst_all.
  eapply swept_deterministic; [|by apply swept_template].
  by apply replace_from_swept.
Qed.

End RendererFacts.

(** ** Rendering with no fields, against the specification *)

Section Placeholders.

#[local] Arguments String.append !s1 s2 /.
#[local] Arguments Ascii.eqb : simpl never.

Lemma key_span_inv s key rest :
  Template.key_span s = (key, rest) ->
  s = key +:+ rest
  /\ Str.mem "{" key = false /\ Str.mem "}" key = false
  /\ (forall c v, rest = String c v -> c = "{"%char \/ c = "}"%char).
Proof.
  revert key rest. induction s as [|c s IH]; intros key rest; simpl.
  - intros [= <- <-]. by repeat split.
  - destruct (Ascii.eqb_spec c "{") as [->|Ho]; simpl.
    { intros [= <- <-]. repeat split. intros c v [= <- _]. by left. }
    destruct (Ascii.eqb_spec c "}") as [->|Hc]; simpl.
    { intros [= <- <-]. repeat split. intros c v [= <- _]. by right. }
    destruct (Template.key_span s) as [k r] eqn:Hs. intros [= <- <-].
    destruct (IH _ _ eq_refl) as (->&Hno&Hnc&Hr).
    cbn [String.append Str.mem]. rewrite Hno, Hnc, !orb_false_r.
    repeat split; [| |done].
    + apply Ascii.eqb_neq. congruence.
    + apply Ascii.eqb_neq. congruence.
Qed.

Lemma key_span_key key v :
  Str.mem "{" key = false -> Str.mem "}" key = false ->
  Template.key_span (key +:+ String "}" v) = (key, String "}" v).
Proof.
  induction key as [|c key IH]; simpl.
  - intros _ _. reflexivity.
  - intros [Ho Hk]%orb_false_elim [Hc Hk']%orb_false_elim.
    rewrite (Ascii.eqb_sym c "{"), Ho, (Ascii.eqb_sym c "}"), Hc. simpl.
    by rewrite IH.
Qed.

Lemma placeholder_sound s rest :
  Template.placeholder s = Some rest -> Template.placeholder_at s rest.
Proof.
  unfold Template.placeholder.
  destruct s as [|a [|b t]]; try done.
  destruct (Ascii.eqb_spec a "{") as [->|]; [|done].
  destruct (Ascii.eqb_spec b "{") as [->|]; [|done]. simpl andb. cbv iota.
  destruct (Template.key_span t) as [key u] eqn:Hspan.
  destruct key as [|k key]; [done|]. destruct u as [|c [|d rest']]; try done.
  destruct (Ascii.eqb_spec c "}") as [->|]; [|done].
  destruct (Ascii.eqb_spec d "}") as [->|]; [|done]. simpl andb. cbv iota.
  intros [= <-].
  apply key_span_inv in Hspan as (->&Hno&Hnc&_).
  exists (String k key). split; [by repeat split|].
  unfold RegExp.token. simpl. by rewrite append_assoc.
Qed.

Lemma placeholder_complete s rest :
  Template.placeholder_at s rest -> Template.placeholder s = Some rest.
Proof.
  intros (key&(Hne&Hno&Hnc)&->). unfold RegExp.token. simpl.
  rewrite append_assoc. simpl.
  rewrite (key_span_key key (String "}" rest) Hno Hnc).
  destruct key as [|c key]; [done|]. reflexivity.
Qed.

(** A well-formed placeholder is a match of the clean-up pattern, with
    the same text after it. *)
Lemma placeholder_at_matches s rest :
  Template.placeholder_at s rest -> matches_at s rest.
Proof.
  intros (key&(Hne&_&Hnc)&->). exists key. unfold RegExp.token. simpl.
  by rewrite append_assoc.
Qed.

Lemma strip_from_swept fuel : forall s,
  (String.length s <= fuel)%nat ->
  (forall pre' s' rest,
     s = pre' +:+ s' -> matches_at s' rest -> Template.placeholder_at s' rest) ->
  swept s (Template.strip_from fuel s).
Proof.
  induction fuel as [|fuel IH]; intros s Hlen Hplain.
  - destruct s; [constructor|simpl in Hlen; lia].
  - simpl. destruct (Template.placeholder s) as [rest|] eqn:Hp.
    + apply placeholder_sound in Hp as Hat.
      pose proof (placeholder_at_matches _ _ Hat) as Hm.
      eapply swept_placeholder; [exact Hm|].
      destruct Hm as (key&Hne&_&Hs).
      apply IH.
      * rewrite Hs in Hlen. simpl in Hlen. rewrite length_append in Hlen.
        simpl in Hlen. lia.
      * intros pre' s' rest' -> Hm'.
        apply (Hplain ("{{" +:+ key +:+ "}}" +:+ pre')); [|done].
        rewrite Hs. simpl. by rewrite !append_assoc.
    + destruct s as [|c s]; [constructor|].
      apply swept_char.
      * intros rest Hm. apply (Hplain "" _ rest eq_refl) in Hm.
        apply placeholder_complete in Hm. congruence.
      * apply IH; [simpl in Hlen; lia|].
        intros pre' s' rest -> Hm. by apply (Hplain (String c pre')).
Qed.

(** Where every match of the clean-up pattern is a well-formed
    placeholder, rendering with no fields is what the specification asks
    for: the placeholders are removed and the rest is left as it is. *)
Lemma render_without_fields_on_plain_matches engine (T : string) :
  (forall pre s rest,
     T = pre +:+ s -> matches_at s rest -> Template.placeholder_at s rest) ->
  replaceTemplateVariables engine (JString T) [] = Ok (Template.strip T).
Proof.
  intros Hplain. rewrite render_no_fields_eq. f_equal.
  eapply swept_deterministic; [by apply replace_from_swept|].
  by apply strip_from_swept.
Qed.

End Placeholders.

(** C5.  With no fields the renderer removes the well-formed
    placeholders, but it does not always leave an unterminated token as
    it is.  The clean-up pattern lets an opening brace into the key, so
    an unterminated token is swept away with the text up to the end of
    the next placeholder: Hello {{name, your id is {{id}}! renders
    Hello ! where the specification asks for
    Hello {{name, your id is ! (the placeholder removed, the unterminated
    token verbatim).  An unterminated token that no closing braces follow,
    the example of the specification, is left as it is. *)
Theorem render_sweeps_past_an_unterminated_token engine :
  replaceTemplateVariables engine (JString "Hello {{name, your id is {{id}}!") []
  = Ok "Hello !"
  /\ Template.strip "Hello {{name, your id is {{id}}!"
     = "Hello {{name, your id is !"
  /\ replaceTemplateVariables engine (JString "Hello {{name") []
     = Ok "Hello {{name"
  /\ Template.strip "Hello {{name" = "Hello {{name".
Proof. repeat split; reflexivity. Qed.

(** C4: the renderer on the example of the specification and on a value
    with dollar signs.  The example renders as specified.  The value
    $$5 of the key amount is not substituted as it is: [replace] reads the
    two dollar signs as the pattern for one, and the text sent is
    Total: $5 where the specification asks for Total: $$5. *)
Theorem render_reads_dollar_patterns_in_values engine :
  replaceTemplateVariables engine (JString "Hello {{name}}, id {{missing}}")
    [("name", JString "Ana")] = Ok "Hello Ana, id "
  /\ replaceTemplateVariables engine (JString "Total: {{amount}}")
       [("amount", JString "$$5")] = Ok "Total: $5"
  /\ Template.fill [("amount", JString "$$5")]
       [Template.Text "Total: "; Template.Hole "amount"] = "Total: $$5"
  /\ Template.flatten [Template.Text "Total: "; Template.Hole "amount"]
     = "Total: {{amount}}".
Proof. repeat split; reflexivity. Qed.

(* ===================================================================== *)
(** * The examples of the specification, run *)
(* ===================================================================== *)

(** Three recipients, the second send refused by the provider: two sent,
    one failed, nobody pending, the campaign 'completed', three entries in
    the send log. *)
Example second_send_refused :
  let run := sendCampaign Demo.refuse_second 1 7 Demo.queued in
  let d := database (snd run) in
  fst run = Ok (mkResult true 2 1)
  /\ (Campaign.status <$> campaigns d !! 1) = Some CampaignStatus.completed
  /\ (Campaign.sent_count <$> campaigns d !! 1) = Some 2
  /\ (Campaign.failed_count <$> campaigns d !! 1) = Some 1
  /\ campaign_recipients d = Demo.ledger_done_at 1000 3000
  /\ pending_count 1 d = 0
  /\ length (email_logs d) = 3%nat
  /\ map EmailLog.status (email_logs d)
     = [LogStatus.sent; LogStatus.failed; LogStatus.sent].
Proof. by vm_compute. Qed.

(** The transport refuses the handshake: the campaign 'failed', counters
    0 and 0, the three recipients still pending, nothing sent. *)
Example handshake_refused :
  let run := sendCampaign Demo.refuse_handshake 1 7 Demo.queued in
  let d := database (snd run) in
  fst run = Throw "SMTP connection failed: Invalid Gmail credentials. Please check your email and app password."
  /\ (Campaign.status <$> campaigns d !! 1) = Some CampaignStatus.failed
  /\ (Campaign.sent_count <$> campaigns d !! 1) = Some 0
  /\ (Campaign.failed_count <$> campaigns d !! 1) = Some 0
  /\ campaign_recipients d = Demo.ledger
  /\ wire (snd run) = []
  /\ email_logs d = [].
Proof. by vm_compute. Qed.

(* ===================================================================== *)
(** * Invariants of a run *)
(* ===================================================================== *)

Section Respects.

Context {S : Type} (R : S -> S -> Prop) `{!PreOrder R}.

Lemma respects_ret {A} (a : A) : respects R (mret a : M S A).
Proof. intros s o s' [= _ <-]. reflexivity. Qed.

Lemma respects_throw {A} e : respects R (throw e : M S A).
Proof. intros s o s' [= _ <-]. reflexivity. Qed.

Lemma respects_of_outcome {A} (r : outcome A) : respects R (of_outcome r : M S A).
Proof. intros s o s' [= _ <-]. reflexivity. Qed.

Lemma respects_bind {A B} (m : M S A) (k : A -> M S B) :
  respects R m -> (forall a, respects R (k a)) -> respects R (m ≫= k).
Proof.
  intros Hm Hk s o s' H.
  apply bind_inv in H as [(a&s1&H1&H)|(e&H1&_)].
  - etrans; [by eapply Hm|by eapply Hk].
  - by eapply Hm.
Qed.

Lemma respects_try_catch {A} (m : M S A) (h : string -> M S A) :
  respects R m -> (forall e, respects R (h e)) -> respects R (try_catch m h).
Proof.
  intros Hm Hh s o s' H.
  apply try_catch_inv in H as [(a&H&_)|(e&s1&H1&H)].
  - by eapply Hm.
  - etrans; [by eapply Hm|by eapply Hh].
Qed.

Lemma respects_for_of {X} (xs : list X) (body : X -> M S unit) :
  (forall x, respects R (body x)) -> respects R (for_of xs body).
Proof.
  intros Hbody. induction xs as [|x xs IH]; simpl.
  - apply respects_ret.
  - apply respects_bind; [apply Hbody|]. by intros [].
Qed.

End Respects.

#[global] Instance on_world_preorder {L} (R : world -> world -> Prop) :
  PreOrder R -> PreOrder (on_world (L:=L) R).
Proof.
  intros HR. split.
  - intros [l w]. unfold on_world. reflexivity.
  - intros [l1 w1] [l2 w2] [l3 w3]. unfold on_world. simpl. apply HR.
Qed.

Lemma respects_in_world {L A} (R : world -> world -> Prop) (m : M world A) :
  respects R m -> respects (on_world (L:=L) R) (in_world m).
Proof.
  intros Hm [l w] o [l' w'] H. apply in_world_inv in H as [_ H].
  by eapply Hm.
Qed.

Lemma respects_modify_locals {L} (R : world -> world -> Prop) (f : L -> L) :
  Reflexive R -> respects (on_world R) (modify_locals f).
Proof.
  intros HR [l w] o [l' w'] H. apply modify_locals_inv in H as [_ ->].
  unfold on_world. simpl. reflexivity.
Qed.

Lemma respects_get_locals {L} (R : world -> world -> Prop) :
  Reflexive R -> respects (on_world R) (get_locals (L:=L)).
Proof.
  intros HR [l w] o [l' w']. unfold get_locals. intros [= _ _ <-].
  unfold on_world. simpl. reflexivity.
Qed.

Lemma respects_with_locals {L A} (R : world -> world -> Prop) (l0 : L)
    (m : M (L * world) A) :
  respects (on_world R) m -> respects R (with_locals l0 m).
Proof.
  intros Hm w o w' H. apply with_locals_inv in H as (l'&H).
  by apply Hm in H.
Qed.

(** One step through the structure of a computation. *)
Ltac respects_step :=
  first
    [ apply respects_bind; [apply _| |intros ?]
    | apply respects_try_catch; [apply _| |intros ?]
    | apply respects_for_of; [apply _|intros ?]
    | apply respects_ret; apply _
    | apply respects_throw; apply _
    | apply respects_of_outcome; apply _
    | apply respects_in_world
    | apply respects_with_locals
    | apply respects_modify_locals; apply _
    | apply respects_get_locals; apply _ ].

#[global] Instance world_rel_preorder Rd : PreOrder Rd -> PreOrder (world_rel Rd).
Proof.
  intros HR. split.
  - intros w. repeat split; [reflexivity|reflexivity|lia].
  - intros w1 w2 w3 (?&?&?&?) (?&?&?&?). repeat split.
    + by etrans.
    + by etrans.
    + lia.
    + congruence.
Qed.

Section Keeps.

Context (E : env) (cid : Z) (Rd : db -> db -> Prop) `{!PreOrder Rd}.
Hypothesis Hstatements : forall f, statement_of cid f -> forall d, Rd d (f d).

#[local] Abbreviation R := (world_rel Rd).

Lemma respects_db_select {A} (q : db -> A) : respects R (db_select E q).
Proof.
  intros w o w' H. apply db_select_inv in H as (Hc&Hw&Hi&Hd&_).
  repeat split; rewrite ?Hd, ?Hw, ?Hc; try reflexivity; try done; lia.
Qed.

Lemma respects_db_update (u : timestamp -> db -> db) :
  (forall ts, statement_of cid (u ts)) -> respects R (db_update E u).
Proof.
  intros Hu w o w' H.
  apply db_update_inv in H as (Hc&Hw&Hi&[(e&_&Hd)|(_&Hd)]);
    repeat split; rewrite ?Hd, ?Hw, ?Hc; try reflexivity; try done; try lia.
  by apply Hstatements.
Qed.

Lemma respects_now : respects R now.
Proof. intros w o w' H. apply now_inv in H as [_ ->]. reflexivity. Qed.

Lemma respects_sleep ms : 0 <= ms -> respects R (sleep ms).
Proof.
  intros Hms w o w'. unfold sleep. intros [= _ <-].
  repeat split; simpl; try reflexivity. lia.
Qed.

Lemma respects_sendEmail t m : respects R (sendEmail E t m).
Proof.
  intros w o w' H. pose proof H as H'.
  apply sendEmail_inv in H' as (Hc&Hi&_&Hd).
  repeat split; rewrite ?Hd, ?Hc; try reflexivity; try done; try lia.
  revert H. unfold sendEmail, transporter_sendMail. unfold_monad.
  repeat case_match; intros [= _ <-]; simpl; try reflexivity;
    by apply prefix_app_r.
Qed.

Lemma respects_connect uid : respects R (connect E uid).
Proof.
  intros w o w' H. apply connect_inv in H as (Hc&Hw&Hi&Hd).
  repeat split; rewrite ?Hd, ?Hw, ?Hc; try reflexivity; try done; lia.
Qed.

Lemma respects_render text data : respects R (render E text data).
Proof. intros w o w' H. apply render_inv in H as ->. reflexivity. Qed.

Lemma respects_logEmail u c r e s st mid err :
  respects R (logEmail E u c r e s st mid err).
Proof. apply respects_db_update. intros ts. constructor. Qed.

Lemma respects_updateCampaignStatus st sa ca :
  started st -> respects R (updateCampaignStatus E cid st sa ca).
Proof. intros Hst. apply respects_db_update. intros ts. by constructor. Qed.

Lemma respects_sendToRecipient r c t u : respects R (sendToRecipient E r c t u).
Proof.
  unfold sendToRecipient. cbv zeta.
  repeat first
    [ apply respects_render | apply respects_sendEmail | apply respects_logEmail
    | respects_step
    | case_match ].
Qed.

Lemma respects_send_one uid c t r :
  respects (on_world R) (send_one E cid uid c t r).
Proof.
  unfold send_one, attempt.
  repeat first
    [ apply respects_in_world
    | apply respects_sendToRecipient
    | apply respects_logEmail
    | apply respects_sleep; lia
    | apply respects_db_update; intros ?; constructor
    | respects_step ].
Qed.

Lemma respects_dispatch uid : respects R (dispatch E cid uid).
Proof.
  unfold dispatch, send_loop, closeTransporter.
  repeat first
    [ apply respects_db_select | apply respects_now | apply respects_connect
    | apply respects_updateCampaignStatus; unfold started; auto
    | apply respects_send_one
    | respects_step
    | case_match ].
Qed.

Lemma respects_sendCampaign uid : respects R (sendCampaign E cid uid).
Proof.
  unfold sendCampaign.
  repeat first
    [ apply respects_dispatch
    | apply respects_updateCampaignStatus; unfold started; auto
    | respects_step ].
Qed.

End Keeps.

(** ** The shape of a run *)

Section Shape.

Context (E : env).

(** The handler of [sendCampaign] around its [try] block. *)
Lemma sendCampaign_inv cid uid w o w' :
  sendCampaign E cid uid w = (o, w') ->
  exists ob wb,
    dispatch E cid uid w = (ob, wb)
    /\ ((exists res, ob = Ok res /\ o = Ok res /\ w' = wb)
        \/ (exists e, ob = Throw e /\ o = Throw e
                      /\ wire w' = wire wb /\ clock w' = clock wb
                      /\ immediates w' = immediates wb
                      /\ (database w' = database wb
                          \/ database w'
                             = Sql.update_status (clock wb) cid CampaignStatus.failed
                                 None None (database wb)))).
Proof.
  unfold sendCampaign. intros H.
  apply try_catch_inv in H as [(a&H&->)|(e&w0&H&Hh)].
  - exists (Ok a), w'. split; [done|]. left. eauto.
  - exists (Throw e), w0. split; [done|]. right. exists e. split; [done|].
    apply bind_inv in Hh as [([]&w1&Hh&Ht)|(e'&Hh&->)].
    + unfold throw in Ht. simplify_eq.
      apply try_catch_inv in Hh as [(?&Hh&_)|(?&?&Hh&Hr)].
      * apply updateCampaignStatus_inv in Hh as (?&?&?&[(?&?&?)|(_&?)]); auto 10.
      * apply updateCampaignStatus_inv in Hh as (?&?&?&[(?&?&?)|(?&?)]); [|done].
        unfold mret, M_ret in Hr. simplify_eq. auto 10.
    + apply try_catch_inv in Hh as [(?&Hh&?)|(?&?&Hh&Hr)]; [done|].
      unfold mret, M_ret in Hr. by simplify_eq.
Qed.

(** The [try] block: either it never reaches the loop, and then it hands
    nothing to the mail server and writes no log row; or it runs the loop
    over the recipients it selected. *)
Lemma dispatch_inv cid uid w o w' :
  dispatch E cid uid w = (o, w') ->
  (wire w' = wire w /\ clock w' = clock w
   /\ email_logs (database w') = email_logs (database w)
   /\ campaign_recipients (database w') = campaign_recipients (database w)
   /\ (forall res, o = Ok res ->
         Sql.select_pending cid (database w) = [] /\ res = mkResult true 0 0)
   /\ (database w' = database w
       \/ exists st sa,
            database w' = Sql.update_status (clock w) cid st sa None (database w)))
  \/ exists c t w1 o2 l2 w2,
       Sql.select_campaign cid uid (database w) = Some c
       /\ Campaign.status c = CampaignStatus.queued
       /\ Sql.select_pending cid (database w) <> []
       /\ fst (connect E uid (set_queries (S (S (queries w))) w)) = Ok t
       /\ wire w1 = wire w /\ clock w1 = clock w
       /\ database w1
          = Sql.update_status (clock w) cid CampaignStatus.sending
              (Some (clock w)) None (database w)
       /\ for_of (Sql.select_pending cid (database w))
            (send_one E cid uid c t) (mkCounters 0 0, w1) = (o2, (l2, w2))
       /\ wire w' = wire w2 /\ clock w' = clock w2
       /\ ((exists e, o2 = Throw e /\ o = Throw e /\ database w' = database w2)
           \/ (o2 = Ok tt
               /\ ((exists e, o = Throw e /\ database w' = database w2)
                   \/ (o = Ok (mkResult true (sentCount l2) (failedCount l2))
                       /\ database w'
                          = Sql.update_status (clock w2) cid
                              CampaignStatus.completed None (Some (clock w2))
                              (database w2))))).
Proof.
  assert (forall w0 o0, (exists e, o0 = Throw e) ->
    wire w0 = wire w -> clock w0 = clock w -> database w0 = database w ->
    wire w0 = wire w /\ clock w0 = clock w
    /\ email_logs (database w0) = email_logs (database w)
    /\ campaign_recipients (database w0) = campaign_recipients (database w)
    /\ (forall res, o0 = Ok res ->
          Sql.select_pending cid (database w) = [] /\ res = mkResult true 0 0)
    /\ (database w0 = database w
        \/ exists st sa,
             database w0 = Sql.update_status (clock w) cid st sa None (database w)))
    as Hsame.
  { intros w0 o0 (e&->) Hw0 Hc0 Hd0. rewrite Hd0.
    do 4 (split; [done|]). split; [done|]. by left. }
  assert (forall w0 o0 st sa, (exists e, o0 = Throw e) ->
    wire w0 = wire w -> clock w0 = clock w ->
    database w0 = Sql.update_status (clock w) cid st sa None (database w) ->
    wire w0 = wire w /\ clock w0 = clock w
    /\ email_logs (database w0) = email_logs (database w)
    /\ campaign_recipients (database w0) = campaign_recipients (database w)
    /\ (forall res, o0 = Ok res ->
          Sql.select_pending cid (database w) = [] /\ res = mkResult true 0 0)
    /\ (database w0 = database w
        \/ exists st sa,
             database w0 = Sql.update_status (clock w) cid st sa None (database w)))
    as Hupd.
  { intros w0 o0 st sa (e&->) Hw0 Hc0 Hd0. rewrite Hd0.
    do 4 (split; [done|]). split; [done|]. right. eauto. }
  unfold dispatch. intros H.
  apply bind_inv in H as [(oc&w1&H1&H)|(e&H1&->)].
  2:{ left. apply db_select_inv in H1 as (?&?&_&Hd&_). apply Hsame; eauto. }
  pose proof H1 as H1'. apply db_select_inv in H1' as (Hc1&Hw1&_&Hd1&Ho1).
  destruct Ho1 as [(?&?)|[= ->]]; [done|].
  destruct (Sql.select_campaign cid uid (database w)) as [c|] eqn:Hsel.
  2:{ left. unfold throw in H. simplify_eq. apply Hsame; eauto. }
  destruct (bool_decide (Campaign.status c = CampaignStatus.queued)) eqn:Hq;
    simpl in H.
  2:{ left. unfold throw in H. simplify_eq. apply Hsame; eauto. }
  apply bool_decide_eq_true in Hq.
  apply bind_inv in H as [(rs&w2&H2&H)|(e&H2&->)].
  2:{ left. apply db_select_inv in H2 as (?&?&_&Hd&_).
      apply Hsame; eauto; congruence. }
  pose proof H2 as H2'. apply db_select_inv in H2' as (Hc2&Hw2&_&Hd2&Ho2).
  destruct Ho2 as [(?&?)|[= ->]]; [done|]. rewrite Hd1 in *.
  destruct (Sql.select_pending cid (database w)) as [|r0 rs] eqn:Hrs.
  { left.
    apply bind_inv in H as [(ts&w3&H3&H)|(e&H3&->)];
      apply now_inv in H3 as [Hts ->]; [|done]. injection Hts as ->.
    apply bind_inv in H as [([]&w4&H4&H)|(e&H4&->)];
      apply updateCampaignStatus_inv in H4 as (Hc4&Hw4&_&Hd4).
    - unfold mret, M_ret in H. injection H as <- <-.
      destruct Hd4 as [(?&?&_)|(_&Hd4)]; [done|].
      rewrite Hd4, Hc2, Hc1, Hd2. simpl.
      split; [congruence|]. split; [congruence|]. do 2 (split; [done|]).
      split; [by intros res [= <-]|]. right. eauto.
    - destruct Hd4 as [(?&_&Hd4)|(?&_)]; [|done].
      apply Hsame; eauto; congruence. }
  assert (w2 = set_queries (S (S (queries w))) w) as Hw2eq.
  { unfold db_select, db_query in H1, H2.
    destruct (query_fault E (queries w)); [done|]. simpl in H1.
    injection H1 as _ <-. simpl in H2.
    destruct (query_fault E (S (queries w))); [done|]. simpl in H2.
    injection H2 as _ <-. by destruct w. }
  apply bind_inv in H as [(t&w3&H3&H)|(e&H3&->)].
  2:{ left.
      apply try_catch_inv in H3 as [(?&H3&?)|(e'&w0&H3&Hc)]; [done|].
      apply connect_inv in H3 as (Hc3&Hw3&_&Hd3).
      apply bind_inv in Hc as [([]&w4&H4&Hc)|(e''&H4&_)];
        apply updateCampaignStatus_inv in H4 as (Hc4&Hw4&_&Hd4).
      - unfold throw in Hc. injection Hc as _ <-.
        destruct Hd4 as [(?&?&_)|(_&Hd4)]; [done|].
        eapply Hupd; eauto; try congruence.
        rewrite Hd4, Hc3, Hc2, Hc1, Hd3, Hd2. reflexivity.
      - destruct Hd4 as [(?&_&Hd4)|(?&_)]; [|done].
        apply Hsame; eauto; congruence. }
  apply try_catch_inv in H3 as [(?&H3&[= <-])|(e'&w0&H3&Hc)].
  2:{ apply bind_inv in Hc as [([]&w4&H4&Hc)|(e''&H4&?)]; [|done].
      unfold throw in Hc. by simplify_eq. }
  pose proof H3 as Hconn. rewrite Hw2eq in Hconn.
  apply connect_inv in H3 as (Hc3&Hw3&_&Hd3).
  apply bind_inv in H as [(ts&w4&H4&H)|(e&H4&->)];
    apply now_inv in H4 as [Hts ->]; [|done]. injection Hts as ->.
  apply bind_inv in H as [([]&w5&H5&H)|(e&H5&->)];
    apply updateCampaignStatus_inv in H5 as (Hc5&Hw5&_&Hd5).
  2:{ left. destruct Hd5 as [(?&?&Hd5)|(?&Hd5)]; [|done].
      apply Hsame; eauto; congruence. }
  destruct Hd5 as [(?&?&Hd5)|(_&Hd5)]; [done|].
  right. exists c, t, w5.
  apply bind_inv in H as [(final&w6&H6&H)|(e&H6&->)];
    apply with_locals_inv in H6 as (l6&H6); unfold send_loop in H6.
  2:{ apply bind_inv in H6 as [([]&[l7 w7]&H7&H6)|(e'&H7&He)].
      { unfold get_locals in H6. by simplify_eq. }
      injection He as <-.
      exists (Throw e), l6, w'. rewrite Hconn.
      do 4 (split; [done|]). split; [congruence|]. split; [congruence|].
      split; [rewrite Hd5, Hc3, Hc2, Hc1, Hd3, Hd2; done|].
      do 3 (split; [done|]). left. eauto. }
  apply bind_inv in H6 as [([]&[l7 w7]&H7&H6)|(e&_&?)]; [|done].
  unfold get_locals in H6. simplify_eq.
  exists (Ok tt), final, w6. rewrite Hconn, H7.
  do 4 (split; [done|]). split; [congruence|]. split; [congruence|].
  split; [rewrite Hd5, Hc3, Hc2, Hc1, Hd3, Hd2; done|]. split; [done|].
  apply bind_inv in H as [([]&w8&H8&H)|(e&H8&->)];
    unfold closeTransporter, mret, M_ret in H8; simplify_eq.
  apply bind_inv in H as [(ts&w9&H9&H)|(e&H9&->)];
    apply now_inv in H9 as [Hts ->]; [|done]. injection Hts as ->.
  apply bind_inv in H as [([]&w10&H10&H)|(e&H10&->)];
    apply updateCampaignStatus_inv in H10 as (Hc10&Hw10&_&Hd10).
  - unfold mret, M_ret in H. simplify_eq.
    destruct Hd10 as [(?&?&?)|(_&Hd10)]; [done|].
    do 2 (split; [done|]). right. split; [done|]. right. done.
  - destruct Hd10 as [(?&[= <-]&Hd10)|(?&?)]; [|done].
    do 2 (split; [done|]). right. split; [done|]. left. eauto.
Qed.

End Shape.

(** ** What a run hands to the mail server *)

Section Traces.

Context (E : env).

Lemma sendEmail_trace t m w o w' :
  sendEmail E t m w = (o, w') ->
  ((exists e, o = Throw e) /\ w' = w)
  \/ exists ans,
       ans = sendMail E t (length (wire w)) m
       /\ w' = set_wire (wire w ++ [(m, ans)]) w
       /\ match ans with
          | inr mid => o = Ok mid
          | inl _ => exists e, o = Throw e
          end.
Proof.
  unfold sendEmail, transporter_sendMail. unfold_monad.
  destruct (bool_decide (Smtp.to m = "") || bool_decide (Smtp.subject m = ""));
    [intros [= <- <-]; left; eauto|].
  destruct (bool_decide (Smtp.text m = "")
            && bool_decide (default "" (Smtp.html m) = ""));
    [intros [= <- <-]; left; eauto|].
  destruct (sendMail E t (length (wire w)) m) as [err|mid] eqn:Hans.
  - repeat case_match; intros [= <- <-]; right; exists (inl err); eauto.
  - intros [= <- <-]. right. exists (inr mid). eauto.
Qed.

Lemma html_part_inv (c : Campaign.t) data w (o : outcome (option string)) w' :
  match Campaign.html_body c with
  | Some h =>
      if bool_decide (h = "") then mret None
      else h' ← render E (JString h) data; mret (Some h')
  | None => mret None
  end w = (o, w') -> w' = w.
Proof.
  destruct (Campaign.html_body c) as [h|]; [|by intros [= _ <-]].
  destruct (bool_decide (h = "")); [by intros [= _ <-]|].
  intros H. apply bind_inv in H as [(?&?&H1&H)|(?&H1&_)];
    apply render_inv in H1 as ->; [|done].
  by injection H as _ <-.
Qed.

(** What one call of [sendToRecipient] leaves behind. *)
Lemma sendToRecipient_trace r c t u w o w' :
  sendToRecipient E r c t u w = (o, w') ->
  clock w' = clock w
  /\ tables_kept (database w) (database w')
  /\ (((exists e, o = Throw e) /\ wire w' = wire w
       /\ email_logs (database w') = email_logs (database w))
      \/ exists mail ans,
           wire w' = wire w ++ [(mail, ans)]
           /\ ans = sendMail E t (length (wire w)) mail
           /\ Smtp.to mail = Recipient.email (snd r)
           /\ match ans with
              | inl _ =>
                  (exists e, o = Throw e)
                  /\ email_logs (database w') = email_logs (database w)
              | inr mid =>
                  (o = Ok mid
                   /\ email_logs (database w')
                      = email_logs (database w)
                          ++ [EmailLog.mk u (fst c) (fst r)
                                (Recipient.email (snd r)) (Smtp.subject mail)
                                LogStatus.sent (Some mid) None (clock w) (clock w)])
                  \/ ((exists e, o = Throw e /\ query_fault E (queries w) = Some e)
                      /\ email_logs (database w') = email_logs (database w))
              end).
Proof.
  intros H. pose proof H as H0.
  apply sendToRecipient_inv in H0 as (Hc&_&Hk). do 2 (split; [done|]).
  revert H. unfold sendToRecipient. cbv zeta. intros H.
  apply bind_inv in H as [(subject&w1&H1&H)|(e&H1&->)];
    apply render_inv in H1 as ->; [|left; eauto].
  apply bind_inv in H as [(body&w1&H1&H)|(e&H1&->)];
    apply render_inv in H1 as ->; [|left; eauto].
  apply bind_inv in H as [(h&w1&Hh&H)|(e&Hh&->)];
    apply html_part_inv in Hh as ->; [|left; eauto].
  apply bind_inv in H as [(mid&w1&H1&H)|(e&H1&->)];
    apply sendEmail_trace in H1 as [[(e0&He0) ->]|(ans&Hans&->&Ho)];
    try done; try (left; eauto; fail).
  - destruct ans as [err|mid']; [by destruct Ho|]. injection Ho as ->.
    right. exists (Smtp.mkMail (Recipient.email r.2) subject body h), (inr mid').
    apply bind_inv in H as [([]&w2&H2&H)|(e&H2&->)].
    + unfold mret, M_ret in H. injection H as <- <-.
      apply db_update_inv in H2 as (_&Hw2&_&[(?&?&_)|(_&Hd2)]); [done|].
      rewrite Hw2, Hd2. simpl. do 3 (split; [done|]). left. done.
    + pose proof H2 as H2'.
      apply db_update_inv in H2 as (_&Hw2&_&[(e'&[= <-]&Hd2)|(?&_)]); [|done].
      rewrite Hw2, Hd2. simpl. do 3 (split; [done|]). right. split; [|done].
      exists e. split; [done|].
      unfold logEmail, db_update, db_query in H2'. simpl in H2'.
      destruct (query_fault E (queries w)); [by injection H2' as ->|done].
  - destruct ans as [err|mid']; [|done].
    right. exists (Smtp.mkMail (Recipient.email r.2) subject body h), (inl err).
    simpl. do 3 (split; [done|]). split; [by destruct Ho; eauto|done].
Qed.

#[local] Instance quiet_preorder : PreOrder quiet.
Proof.
  split; [by intros w|].
  intros w1 w2 w3 [? ?] [? ?]. split; congruence.
Qed.

Lemma quiet_db_update (u : timestamp -> db -> db) : respects quiet (db_update E u).
Proof. intros w o w' H. by apply db_update_inv in H as (?&?&_). Qed.

Lemma attempt_trace cid uid c t rid r l w o l' w' :
  attempt E cid uid c t (rid, r) (l, w) = (o, (l', w')) ->
  clock w' = clock w
  /\ exists ms,
       wire w' = wire w ++ ms
       /\ (ms = [] \/ exists m a, ms = [(m, a)] /\ Smtp.to m = Recipient.email r).
Proof.
  unfold attempt. simpl fst. simpl snd. intros H.
  assert (forall o1 l1 w1,
    in_world (sendToRecipient E (rid, r) (cid, c) t uid) (l, w) = (o1, (l1, w1)) ->
    clock w1 = clock w
    /\ exists ms,
         wire w1 = wire w ++ ms
         /\ (ms = [] \/ exists m a, ms = [(m, a)] /\ Smtp.to m = Recipient.email r))
    as Hsend.
  { intros o1 l1 w1 H1. apply in_world_inv in H1 as [_ H1].
    apply sendToRecipient_trace in H1 as (Hc&_&[(_&Hw&_)|(m&a&Hw&_&Hto&_)]).
    - split; [done|]. exists []. rewrite app_nil_r. auto.
    - split; [done|]. exists [(m, a)]. split; [done|]. right. eauto. }
  assert (forall s o1 s1,
    (modify_locals (fun l => mkCounters (sentCount l + 1) (failedCount l));;
     in_world (db_update E (fun ts => Sql.mark_sent ts rid));;
     in_world (db_update E (fun ts => Sql.incr_sent_count ts cid))) s
    = (o1, s1) -> on_world quiet s s1) as Hrest.
  { apply (respects_bind _); [apply (respects_modify_locals _ _ _)|intros ?].
    apply (respects_bind _); intros; apply respects_in_world, quiet_db_update. }
  assert (forall e s o1 s1,
    (modify_locals (fun l => mkCounters (sentCount l) (failedCount l + 1));;
     in_world (db_update E (fun _ => Sql.mark_failed e rid));;
     in_world (db_update E (fun ts => Sql.incr_failed_count ts cid));;
     in_world (logEmail E uid cid rid (Recipient.email r) (Campaign.subject c)
                 LogStatus.failed None (Some e))) s
    = (o1, s1) -> on_world quiet s s1) as Hcatch.
  { intros e.
    apply (respects_bind _); [apply (respects_modify_locals _ _ _)|intros ?].
    apply (respects_bind _); [apply respects_in_world, quiet_db_update|intros ?].
    apply (respects_bind _); intros; apply respects_in_world, quiet_db_update. }
  assert (forall o1 l1 w1,
    (in_world (sendToRecipient E (rid, r) (cid, c) t uid);;
     modify_locals (fun l => mkCounters (sentCount l + 1) (failedCount l));;
     in_world (db_update E (fun ts => Sql.mark_sent ts rid));;
     in_world (db_update E (fun ts => Sql.incr_sent_count ts cid))) (l, w)
    = (o1, (l1, w1)) ->
    clock w1 = clock w
    /\ exists ms,
         wire w1 = wire w ++ ms
         /\ (ms = [] \/ exists m a, ms = [(m, a)] /\ Smtp.to m = Recipient.email r))
    as Htry.
  { intros o1 l1 w1 H1.
    apply bind_inv in H1 as [(mid&[l2 w2]&H1&H2)|(e&H1&_)]; [|by eapply Hsend].
    apply Hsend in H1 as (Hc&ms&Hw&Hms). apply Hrest in H2 as [Hw2 Hc2].
    simpl in *. split; [congruence|]. exists ms. split; [congruence|done]. }
  apply try_catch_inv in H as [([]&H&_)|(e&[l0 w0]&H&Hh)]; [by eapply Htry|].
  apply Htry in H as (Hc&ms&Hw&Hms). apply Hcatch in Hh as [Hw2 Hc2].
  simpl in *. split; [congruence|]. exists ms. split; [congruence|done].
Qed.

Lemma send_one_trace cid uid c t rid r l w o l' w' :
  send_one E cid uid c t (rid, r) (l, w) = (o, (l', w')) ->
  clock w <= clock w'
  /\ (o = Ok tt -> clock w' = clock w + 1000)
  /\ exists ms,
       wire w' = wire w ++ ms
       /\ (ms = [] \/ exists m a, ms = [(m, a)] /\ Smtp.to m = Recipient.email r).
Proof.
  unfold send_one. intros H.
  apply bind_inv in H as [([]&[l1 w1]&H1&H)|(e&H1&->)];
    apply attempt_trace in H1 as (Hc&ms&Hw&Hms).
  - apply in_world_inv in H as [_ H]. unfold sleep in H. injection H as <- <-.
    simpl. rewrite Hc. split; [lia|]. split; [done|]. eauto.
  - split; [lia|]. split; [done|]. eauto.
Qed.

(** The loop hands over at most one message for each recipient it goes
    through, in their order, and takes a second for each turn. *)
Lemma send_loop_trace cid uid c t rs : forall l w o l' w',
  for_of rs (send_one E cid uid c t) (l, w) = (o, (l', w')) ->
  clock w <= clock w'
  /\ (o = Ok tt -> clock w' = clock w + 1000 * Z.of_nat (length rs))
  /\ exists ms,
       wire w' = wire w ++ ms
       /\ (Smtp.to ∘ fst) <$> ms `sublist_of` (Recipient.email ∘ snd) <$> rs.
Proof.
  induction rs as [|[rid r] rs IH]; intros l w o l' w' H; simpl in H.
  - unfold mret, M_ret in H. injection H as <- <- <-.
    split; [lia|]. split; [simpl; lia|]. exists []. by rewrite app_nil_r.
  - apply bind_inv in H as [([]&[l1 w1]&H1&H)|(e&H1&->)];
      apply send_one_trace in H1 as (Hle&Hc&ms&Hw&Hms).
    + apply IH in H as (Hle'&Hc'&ms'&Hw'&Hsub).
      split; [lia|]. split.
      { intros Ho. rewrite (Hc' Ho), (Hc eq_refl). simpl length. lia. }
      exists (ms ++ ms'). split; [by rewrite Hw', Hw, app_assoc|].
      rewrite fmap_app, fmap_cons.
      destruct Hms as [->|(m&a&->&Hto)]; simpl.
      * by apply sublist_cons.
      * rewrite Hto. by apply sublist_skip.
    + split; [lia|]. split; [done|]. exists ms. split; [done|].
      rewrite fmap_cons.
      destruct Hms as [->|(m&a&->&Hto)]; simpl.
      * apply sublist_nil_l.
      * rewrite Hto. apply sublist_skip, sublist_nil_l.
Qed.

End Traces.

(* ===================================================================== *)
(** * The dispatcher: more on a run *)
(* ===================================================================== *)

(** X1.  A send that resolves has handed exactly one message to the mail
    server, addressed to the stored address of the recipient, and has
    appended exactly one row to the log: status 'sent', the subject that
    was sent, the message id the server gave.  It writes no other table. *)
Theorem accepted_send_is_logged_once E r c t u w mid w' :
  sendToRecipient E r c t u w = (Ok mid, w') ->
  exists mail,
    wire w' = wire w ++ [(mail, inr mid)]
    /\ Smtp.to mail = Recipient.email (snd r)
    /\ email_logs (database w')
       = email_logs (database w)
           ++ [EmailLog.mk u (fst c) (fst r) (Recipient.email (snd r))
                 (Smtp.subject mail) LogStatus.sent (Some mid) None
                 (clock w) (clock w)]
    /\ tables_kept (database w) (database w').
Proof.
  intros H.
  apply sendToRecipient_trace in H as (_&Hk&[((?&?)&_)|(mail&ans&Hw&_&Hto&Hans)]);
    [done|].
  exists mail. destruct ans as [err|mid'].
  - by destruct Hans as [(?&?) _].
  - destruct Hans as [([= ->]&Hlog)|((?&?&_)&_)]; [|done]. done.
Qed.

Lemma accepted_send_is_logged_once_witness :
  let r := (10, Demo.recipient "ana@example.com" "Ana" RecipientStatus.pending
                  None) in
  let c := (1, Demo.campaign CampaignStatus.sending 0 0) in
  let run := sendToRecipient Demo.refuse_second r c Demo.transporter 7
               Demo.queued in
  run = (Ok "<id@gmail.com>", snd run)
  /\ exists mail,
       wire (snd run) = wire Demo.queued ++ [(mail, inr "<id@gmail.com>")]
       /\ Smtp.to mail = Recipient.email (snd r)
       /\ email_logs (database (snd run))
          = email_logs (database Demo.queued)
              ++ [EmailLog.mk 7 (fst c) (fst r) (Recipient.email (snd r))
                    (Smtp.subject mail) LogStatus.sent (Some "<id@gmail.com>")
                    None (clock Demo.queued) (clock Demo.queued)]
       /\ tables_kept (database Demo.queued) (database (snd run)).
Proof.
  cbv zeta. split; [by vm_compute|].
  apply (accepted_send_is_logged_once Demo.refuse_second
           (10, Demo.recipient "ana@example.com" "Ana" RecipientStatus.pending
                  None)
           (1, Demo.campaign CampaignStatus.sending 0 0)
           Demo.transporter 7 Demo.queued "<id@gmail.com>").
  by vm_compute.
Defined.

(** X2.  Whatever the storage and the mail server do, and however the run
    ends, the messages a run hands to the mail server go to recipients it
    selected as pending, at most one to each, in the order of their ids. *)
Theorem run_mails_each_pending_recipient_at_most_once E cid uid w :
  exists ms,
    wire (snd (sendCampaign E cid uid w)) = wire w ++ ms
    /\ (Smtp.to ∘ fst) <$> ms
       `sublist_of` (Recipient.email ∘ snd) <$> Sql.select_pending cid (database w).
Proof.
  destruct (sendCampaign E cid uid w) as [o w'] eqn:H. simpl.
  apply sendCampaign_inv in H as (ob&wb&H&Hh).
  assert (wire w' = wire wb) as ->.
  { destruct Hh as [(?&_&_&->)|(?&_&_&?&_)]; done. }
  clear Hh.
  apply dispatch_inv in H
    as [(Hw&_)|(c&t&w1&o2&l2&w2&_&_&_&_&Hw1&_&_&Hloop&Hw&_)].
  - exists []. rewrite app_nil_r. split; [done|]. apply sublist_nil_l.
  - apply send_loop_trace in Hloop as (_&_&ms&Hw2&Hsub).
    exists ms. split; [congruence|done].
Qed.

(** ** What a run leaves as it was *)

#[local] Instance log_grows_preorder : PreOrder log_grows.
Proof.
  split.
  - by intros d.
  - intros d1 d2 d3 [? ?] [? ?]. split; [by etrans|congruence].
Qed.

Lemma log_grows_statement cid f : statement_of cid f -> forall d, log_grows d (f d).
Proof.
  intros [] d; split; simpl; try done. by apply prefix_app_r.
Qed.

#[local] Instance same_campaign_preorder : PreOrder same_campaign.
Proof.
  split.
  - by intros c.
  - intros c1 c2 c3 (?&?&?&?&?&?&?) (?&?&?&?&?&?&?).
    repeat split; congruence.
Qed.

#[local] Instance same_recipient_preorder : PreOrder same_recipient.
Proof.
  split.
  - by intros r.
  - intros r1 r2 r3 (?&?&?&?&?) (?&?&?&?&?). repeat split; congruence.
Qed.

#[local] Instance rows_kept_preorder cid : PreOrder (rows_kept cid).
Proof.
  split.
  - intros d. by repeat split.
  - intros d1 d2 d3 (Hc1&Ho1&Hr1) (Hc2&Ho2&Hr2). repeat split.
    + intros j. etrans; [apply Hc1|apply Hc2].
    + intros j Hj. rewrite Ho2, Ho1; done.
    + intros j. etrans; [apply Hr1|apply Hr2].
Qed.

Lemma option_Forall2_alter {A} (P : A -> A -> Prop) (f : A -> A) i j (m : gmap Z A) :
  Reflexive P -> (forall a, P a (f a)) ->
  option_Forall2 P (m !! j) (alter f i m !! j).
Proof.
  intros HP Hf. destruct (decide (i = j)) as [->|Hne].
  - rewrite lookup_alter_eq. destruct (m !! j); constructor. apply Hf.
  - rewrite lookup_alter_ne by done. reflexivity.
Qed.

Lemma rows_kept_statement cid f : statement_of cid f -> forall d, rows_kept cid d (f d).
Proof.
  intros [] d; repeat split; simpl; intros;
    try reflexivity; try (by rewrite lookup_alter_ne);
    apply option_Forall2_alter; try apply _; intros a;
    repeat split; by destruct sa, ca.
Qed.

#[local] Instance moved_forward_preorder : PreOrder moved_forward.
Proof.
  split.
  - intros d j. destruct (campaigns d !! j); constructor.
    repeat split; auto; lia.
  - intros d1 d2 d3 H1 H2 j. specialize (H1 j). specialize (H2 j).
    destruct H1 as [c1 c2 (?&?&Hs1&?&?)|]; [|done].
    inversion H2 as [? c3 (?&?&Hs2&?&?)|]; subst. constructor.
    repeat split; try lia; auto.
    destruct Hs2 as [Hs2|?]; [|by right]. rewrite Hs2. done.
Qed.

Lemma moved_forward_statement cid f :
  statement_of cid f -> forall d, moved_forward d (f d).
Proof.
  assert (forall d d', campaigns d' = campaigns d -> moved_forward d d') as Hsame.
  { intros d d' Heq j. rewrite Heq.
    exact (PreOrder_Reflexive (R:=moved_forward) d j). }
  intros [] d; try (by apply Hsame); intros j; simpl;
    apply option_Forall2_alter;
    try (intros c; simpl; repeat split; auto; lia).
  intros c. destruct sa, ca; simpl; repeat split; auto; lia.
Qed.

Lemma sendCampaign_rows_kept E cid uid w o w' :
  sendCampaign E cid uid w = (o, w') -> rows_kept cid (database w) (database w').
Proof.
  intros H.
  by apply (respects_sendCampaign E cid (rows_kept cid) (rows_kept_statement cid))
    in H as (?&_).
Qed.

Lemma sendCampaign_moved_forward E cid uid w o w' :
  sendCampaign E cid uid w = (o, w') -> moved_forward (database w) (database w').
Proof.
  intros H.
  by apply (respects_sendCampaign E cid moved_forward (moved_forward_statement cid))
    in H as (?&_).
Qed.

(** X4.  However a run ends, it has only added: the log and the list of
    messages handed to the mail server begin as they did before the run,
    the stored SMTP configurations are untouched, the clock has not gone
    back, and no callback was queued. *)
Theorem run_only_appends E cid uid w :
  email_logs (database w)
    `prefix_of` email_logs (database (snd (sendCampaign E cid uid w)))
  /\ wire w `prefix_of` wire (snd (sendCampaign E cid uid w))
  /\ smtp_configs (database (snd (sendCampaign E cid uid w)))
     = smtp_configs (database w)
  /\ clock w <= clock (snd (sendCampaign E cid uid w))
  /\ immediates (snd (sendCampaign E cid uid w)) = immediates w.
Proof.
  destruct (sendCampaign E cid uid w) as [o w'] eqn:H. simpl.
  apply (respects_sendCampaign E cid log_grows (log_grows_statement cid)) in H
    as ((?&?)&?&?&?).
  done.
Qed.

(** X5.  However a run ends, it has created and deleted no campaign and
    no recipient, it has written no campaign but its own, and in the rows
    it wrote the owner, name, subject, bodies and recipient count of the
    campaign and the address, name and custom fields of the recipients
    are as they were. *)
Theorem run_keeps_the_rows E cid uid w :
  (forall j, option_Forall2 same_campaign
               (campaigns (database w) !! j)
               (campaigns (database (snd (sendCampaign E cid uid w))) !! j))
  /\ (forall j, j <> cid ->
        campaigns (database (snd (sendCampaign E cid uid w))) !! j
        = campaigns (database w) !! j)
  /\ (forall j, option_Forall2 same_recipient
                  (campaign_recipients (database w) !! j)
                  (campaign_recipients (database (snd (sendCampaign E cid uid w))) !! j)).
Proof.
  destruct (sendCampaign E cid uid w) as [o w'] eqn:H. simpl.
  by apply sendCampaign_rows_kept in H.
Qed.

(** X6.  However a run ends, its campaign has only moved forward: the two
    counters have not gone down, the state is the one before the run or
    one of 'sending', 'completed', 'failed', never 'draft' or 'queued'
    again, and started_at and completed_at, once written, stay written. *)
Theorem run_moves_campaigns_forward E cid uid w j c :
  campaigns (database w) !! j = Some c ->
  exists c',
    campaigns (database (snd (sendCampaign E cid uid w))) !! j = Some c'
    /\ Campaign.sent_count c <= Campaign.sent_count c'
    /\ Campaign.failed_count c <= Campaign.failed_count c'
    /\ (Campaign.status c' = Campaign.status c \/ started (Campaign.status c'))
    /\ (is_Some (Campaign.started_at c) -> is_Some (Campaign.started_at c'))
    /\ (is_Some (Campaign.completed_at c) -> is_Some (Campaign.completed_at c')).
Proof.
  intros Hc.
  destruct (sendCampaign E cid uid w) as [o w'] eqn:H. simpl.
  apply sendCampaign_moved_forward in H as Hd.
  specialize (Hd j). rewrite Hc in Hd. inversion Hd; subst. eauto.
Qed.

Lemma run_moves_campaigns_forward_witness :
  campaigns (database Demo.queued) !! 1
  = Some (Demo.campaign CampaignStatus.queued 0 0)
  /\ exists c',
       campaigns (database (snd (sendCampaign Demo.refuse_second 1 7 Demo.queued))) !! 1
       = Some c'
       /\ 0 <= Campaign.sent_count c'
       /\ 0 <= Campaign.failed_count c'
       /\ (Campaign.status c' = CampaignStatus.queued
           \/ started (Campaign.status c'))
       /\ (is_Some (None : option timestamp) -> is_Some (Campaign.started_at c'))
       /\ (is_Some (None : option timestamp) -> is_Some (Campaign.completed_at c')).
Proof.
  split; [reflexivity|].
  apply (run_moves_campaigns_forward Demo.refuse_second 1 7 Demo.queued 1
           (Demo.campaign CampaignStatus.queued 0 0)).
  reflexivity.
Defined.

(** ** Rejections and the connection *)

(** X7.  Called for a campaign the user does not own, or that does not
    exist, a run is rejected with 'Campaign not found', hands nothing to
    the mail server and writes no recipient and no log row; but the
    handler of the rejection marks the campaign with that id 'failed'
    without looking at its owner, so the campaign of another user ends
    'failed'. *)
Theorem run_on_a_campaign_not_found E cid uid w :
  reliable E ->
  Sql.select_campaign cid uid (database w) = None ->
  let run := sendCampaign E cid uid w in
  fst run = Throw "Campaign not found"
  /\ wire (snd run) = wire w
  /\ campaign_recipients (database (snd run)) = campaign_recipients (database w)
  /\ email_logs (database (snd run)) = email_logs (database w)
  /\ campaigns (database (snd run)) !! cid
     = (fun c => Campaign.set_updated_at (clock w)
                   (Campaign.set_status CampaignStatus.failed c))
         <$> campaigns (database w) !! cid.
Proof.
  intros Hrel Hsel. cbv zeta.
  unfold sendCampaign, dispatch, updateCampaignStatus. unfold_monad.
  run_queries Hrel. rewrite Hsel. simpl. run_queries Hrel.
  do 4 (split; [done|]). by rewrite lookup_alter_eq.
Qed.

Lemma run_on_a_campaign_not_found_witness :
  reliable Demo.refuse_second
  /\ Sql.select_campaign 1 8 (database Demo.queued) = None
  /\ let run := sendCampaign Demo.refuse_second 1 8 Demo.queued in
     fst run = Throw "Campaign not found"
     /\ wire (snd run) = wire Demo.queued
     /\ campaign_recipients (database (snd run))
        = campaign_recipients (database Demo.queued)
     /\ email_logs (database (snd run)) = email_logs (database Demo.queued)
     /\ campaigns (database (snd run)) !! 1
        = (fun c => Campaign.set_updated_at (clock Demo.queued)
                      (Campaign.set_status CampaignStatus.failed c))
            <$> campaigns (database Demo.queued) !! 1.
Proof.
  split; [intros n; reflexivity|]. split; [reflexivity|].
  apply (run_on_a_campaign_not_found Demo.refuse_second 1 8 Demo.queued).
  - intros n. reflexivity.
  - reflexivity.
Defined.

(** X8.  A connection that is established is the one of the stored
    configuration: the user has a configuration, the transporter
    authenticates with its address and the decrypted password, neither of
    them empty, the mail server has accepted the handshake, and nothing
    was written. *)
Theorem connect_is_sound E uid w t w' :
  connect E uid w = (Ok t, w') ->
  exists cfg,
    smtp_configs (database w) !! uid = Some cfg
    /\ Smtp.auth_user t = SmtpConfig.gmail_address cfg
    /\ decrypt E (SmtpConfig.app_password_encrypted cfg) = Ok (Smtp.auth_pass t)
    /\ Smtp.auth_user t <> "" /\ Smtp.auth_pass t <> ""
    /\ Smtp.from t
       = dquote +:+ SmtpConfig.from_name cfg +:+ dquote +:+ " <"
           +:+ SmtpConfig.gmail_address cfg +:+ ">"
    /\ verify E t = None
    /\ database w' = database w /\ wire w' = wire w.
Proof.
  intros H. pose proof H as H0. apply connect_inv in H0 as (_&Hw&_&Hd).
  unfold connect in H.
  apply bind_inv in H as [(t0&w1&H1&H)|(e&_&?)]; [|done].
  apply bind_inv in H as [(b&w2&H2&H)|(e&_&?)]; [|done].
  unfold mret, M_ret in H. injection H as -> ->.
  unfold createTransporter in H1.
  apply bind_inv in H1 as [(cfg&w3&H3&H1)|(e&_&?)]; [|done].
  apply db_select_inv in H3 as (_&_&_&_&[(?&?)|[= ->]]); [done|].
  unfold Sql.select_smtp_config in H1.
  destruct (smtp_configs (database w) !! uid) as [cfg|]; [|done].
  exists cfg. split; [done|].
  apply bind_inv in H1 as [(pw&w4&H4&H1)|(e&_&?)]; [|done].
  unfold try_catch, of_outcome in H4.
  destruct (decrypt E (SmtpConfig.app_password_encrypted cfg)) as [pw'|];
    [|done].
  injection H4 as -> ->.
  unfold createTransporterFromCredentials in H1.
  destruct (bool_decide (SmtpConfig.gmail_address cfg = "")) eqn:Ha; [done|].
  destruct (bool_decide (pw = "")) eqn:Hp; [done|]. simpl in H1.
  unfold mret, M_ret in H1. injection H1 as <- <-. simpl.
  apply bool_decide_eq_false in Ha, Hp. do 5 (split; [done|]).
  unfold verifyTransporter in H2.
  destruct (verify E _); [|done].
  unfold throw in H2. by repeat case_match.
Qed.

Lemma connect_is_sound_witness :
  connect Demo.refuse_second 7 Demo.queued
  = (Ok Demo.transporter, set_queries 1 Demo.queued)
  /\ exists cfg,
       smtp_configs (database Demo.queued) !! 7 = Some cfg
       /\ Smtp.auth_user Demo.transporter = SmtpConfig.gmail_address cfg
       /\ decrypt Demo.refuse_second (SmtpConfig.app_password_encrypted cfg)
          = Ok (Smtp.auth_pass Demo.transporter)
       /\ Smtp.auth_user Demo.transporter <> ""
       /\ Smtp.auth_pass Demo.transporter <> ""
       /\ Smtp.from Demo.transporter
          = dquote +:+ SmtpConfig.from_name cfg +:+ dquote +:+ " <"
              +:+ SmtpConfig.gmail_address cfg +:+ ">"
       /\ verify Demo.refuse_second Demo.transporter = None
       /\ database (set_queries 1 Demo.queued) = database Demo.queued
       /\ wire (set_queries 1 Demo.queued) = wire Demo.queued.
Proof.
  split; [reflexivity|].
  apply (connect_is_sound Demo.refuse_second 7 Demo.queued).
  reflexivity.
Defined.

(** X9.  A recipient whose custom fields carry a custom_subject that is
    null or the empty text is never sent to: the send is rejected before
    anything reaches the mail server or the log, and the subject of the
    campaign is not used in its place.  The rejection is the one of
    [sendEmail], unless the renderer itself rejected a field. *)
Theorem empty_custom_subject_is_never_sent E r c t u w cf :
  Recipient.custom_fields (snd r) = Some cf ->
  Obj.get "custom_subject" cf = JNull
  \/ Obj.get "custom_subject" cf = JString "" ->
  snd (sendToRecipient E r c t u w) = w
  /\ exists e,
       fst (sendToRecipient E r c t u w) = Throw e
       /\ (e = "Recipient (to) and subject are required"
           \/ exists text data,
                replaceTemplateVariables (engine_replace E) text data = Throw e).
Proof.
  intros Hcf Hsub.
  destruct (sendToRecipient E r c t u w) as [o w'] eqn:H. simpl.
  unfold sendToRecipient in H. cbv zeta in H. rewrite Hcf in H.
  simpl default in H.
  assert (bool_decide (Obj.get "custom_subject" cf = JUndefined) = false) as Hdef.
  { apply bool_decide_eq_false. by destruct Hsub as [-> | ->]. }
  rewrite Hdef in H. simpl negb in H. cbv iota in H.
  assert (forall text data o1 w1,
    render E text data w = (o1, w1) ->
    w1 = w /\ forall e, o1 = Throw e ->
                exists text data,
                  replaceTemplateVariables (engine_replace E) text data = Throw e)
    as Hrender.
  { intros text data o1 w1 Hr. unfold render, of_outcome in Hr.
    injection Hr as <- <-. eauto. }
  apply bind_inv in H as [(subject&w1&H1&H)|(e&H1&->)].
  2:{ apply Hrender in H1 as [-> He]. split; [done|]. exists e.
      split; [done|]. right. by apply He. }
  assert (subject = "" /\ w1 = w) as [-> ->].
  { unfold render, of_outcome, replaceTemplateVariables in H1.
    destruct Hsub as [Hs|Hs]; rewrite Hs in H1; simpl in H1;
      by injection H1 as <- <-. }
  apply bind_inv in H as [(body&w1&H2&H)|(e&H2&->)];
    apply Hrender in H2 as [-> He].
  2:{ split; [done|]. exists e. split; [done|]. right. by apply He. }
  apply bind_inv in H as [(h&w1&Hh&H)|(e&Hh&->)].
  2:{ pose proof Hh as Hw. apply html_part_inv in Hw as ->.
      split; [done|]. exists e. split; [done|]. right.
      destruct (Campaign.html_body c.2) as [h|]; [|done].
      destruct (bool_decide (h = "")); [done|].
      apply bind_inv in Hh as [(?&?&_&?)|(e'&Hh&[= <-])]; [done|].
      apply Hrender in Hh as [_ Hh]. by apply Hh. }
  apply html_part_inv in Hh as ->.
  apply bind_inv in H as [(mid&w1&H3&H)|(e&H3&->)];
    unfold sendEmail in H3; simpl Smtp.subject in H3;
    rewrite (bool_decide_eq_true_2 ("" = "") eq_refl), orb_true_r in H3;
    unfold throw in H3; [done|].
  injection H3 as <- <-. eauto.
Qed.

Lemma empty_custom_subject_is_never_sent_witness :
  let r := (10, Recipient.mk 1 "ana@example.com" (Some "Ana")
                  (Some [("custom_subject", JNull)]) RecipientStatus.pending
                  None None 0) in
  Recipient.custom_fields (snd r) = Some [("custom_subject", JNull)]
  /\ (Obj.get "custom_subject" [("custom_subject", JNull)] = JNull
      \/ Obj.get "custom_subject" [("custom_subject", JNull)] = JString "")
  /\ snd (sendToRecipient Demo.refuse_second r
            (1, Demo.campaign CampaignStatus.sending 0 0) Demo.transporter 7
            Demo.queued) = Demo.queued
  /\ exists e,
       fst (sendToRecipient Demo.refuse_second r
              (1, Demo.campaign CampaignStatus.sending 0 0) Demo.transporter 7
              Demo.queued) = Throw e
       /\ (e = "Recipient (to) and subject are required"
           \/ exists text data,
                replaceTemplateVariables (engine_replace Demo.refuse_second)
                  text data = Throw e).
Proof.
  cbv zeta. split; [reflexivity|]. split; [left; reflexivity|].
  apply (empty_custom_subject_is_never_sent Demo.refuse_second
           (10, Recipient.mk 1 "ana@example.com" (Some "Ana")
                  (Some [("custom_subject", JNull)]) RecipientStatus.pending
                  None None 0)
           (1, Demo.campaign CampaignStatus.sending 0 0) Demo.transporter 7
           Demo.queued [("custom_subject", JNull)]).
  - reflexivity.
  - left. reflexivity.
Defined.

(* ===================================================================== *)
(** * The triggering call: acceptance *)
(* ===================================================================== *)

(** The handler always answers; it either refuses and leaves everything
    as it was, or queues the campaign and one callback. *)
Lemma post_send_inv E id uid w o w' :
  post_send E id uid w = (o, w') ->
  exists resp,
    o = Ok resp /\ wire w' = wire w /\ clock w' = clock w
    /\ ((http_status resp <> 200 /\ error resp <> None
         /\ database w' = database w /\ immediates w' = immediates w)
        \/ exists cid c cfg,
             id = Some cid
             /\ Sql.select_campaign cid uid (database w) = Some c
             /\ Campaign.status c = CampaignStatus.draft
             /\ Sql.select_smtp_config uid (database w) = Some cfg
             /\ database w' = Sql.queue_campaign (clock w) cid (database w)
             /\ immediates w' = immediates w ++ [(cid, uid)]
             /\ resp = mkResponse 200 None "Campaign sending started"
                         (Some (cid, CampaignStatus.queued,
                                Campaign.recipient_count c))).
Proof.
  unfold post_send. intros H.
  match type of H with try_catch ?m ?h w = _ =>
    cut (forall ob wb, m w = (ob, wb) ->
      wire wb = wire w /\ clock wb = clock w
      /\ (((exists e, ob = Throw e)
           \/ (exists resp, ob = Ok resp /\ http_status resp <> 200
                            /\ error resp <> None))
          /\ database wb = database w /\ immediates wb = immediates w
          \/ exists cid c cfg,
               id = Some cid
               /\ Sql.select_campaign cid uid (database w) = Some c
               /\ Campaign.status c = CampaignStatus.draft
               /\ Sql.select_smtp_config uid (database w) = Some cfg
               /\ database wb = Sql.queue_campaign (clock w) cid (database w)
               /\ immediates wb = immediates w ++ [(cid, uid)]
               /\ ob = Ok (mkResponse 200 None "Campaign sending started"
                             (Some (cid, CampaignStatus.queued,
                                    Campaign.recipient_count c)))))
  end.
  { intros Hbody.
    apply try_catch_inv in H as [(resp&H&->)|(e&w0&H&Hh)];
      apply Hbody in H as (Hw&Hc&Hcases).
    - exists resp. do 3 (split; [done|]).
      destruct Hcases as [([(?&?)|(resp'&[= <-]&?&?)]&?&?)|Hq]; [done| |].
      + left. done.
      + right. destruct Hq as (cid&c&cfg&?&?&?&?&?&?&[= ->]). eauto 12.
    - unfold mret, M_ret in Hh. injection Hh as <- <-.
      eexists. do 3 (split; [done|]). left.
      destruct Hcases as [(_&?&?)|(?&?&?&_&_&_&_&_&_&?)]; [|done].
      simpl. done. }
  clear H. intros ob wb H. destruct id as [cid|].
  2:{ unfold mret, M_ret in H. injection H as <- <-.
      do 2 (split; [done|]). left. split; [|done]. right.
      eexists. split; [done|]. simpl. done. }
  apply bind_inv in H as [(oc&w1&H1&H)|(e&H1&->)];
    apply db_select_inv in H1 as (Hc1&Hw1&Hi1&Hd1&Ho1);
    [|do 2 (split; [done|]); left; split; [left; eauto|done]].
  destruct Ho1 as [(?&?)|[= ->]]; [done|].
  destruct (Sql.select_campaign cid uid (database w)) as [c|] eqn:Hsel.
  2:{ unfold mret, M_ret in H. injection H as <- <-.
      do 2 (split; [done|]). left. split; [|done]. right.
      eexists. split; [done|]. simpl. done. }
  destruct (bool_decide (Campaign.status c = CampaignStatus.draft)) eqn:Hdraft;
    simpl in H.
  2:{ unfold mret, M_ret in H. injection H as <- <-.
      do 2 (split; [done|]). left. split; [|done]. right.
      eexists. split; [done|]. simpl. done. }
  apply bool_decide_eq_true in Hdraft.
  apply bind_inv in H as [(ocfg&w2&H2&H)|(e&H2&->)];
    apply db_select_inv in H2 as (Hc2&Hw2&Hi2&Hd2&Ho2);
    [|split; [congruence|]; split; [congruence|]; left;
      split; [left; eauto|split; congruence]].
  destruct Ho2 as [(?&?)|[= ->]]; [done|]. rewrite Hd1 in *.
  destruct (Sql.select_smtp_config uid (database w)) as [cfg|] eqn:Hcfg.
  2:{ unfold mret, M_ret in H. injection H as <- <-.
      split; [congruence|]. split; [congruence|]. left. split; [|split; congruence].
      right. eexists. split; [done|]. simpl. done. }
  apply bind_inv in H as [([]&w3&H3&H)|(e&H3&->)];
    apply db_update_inv in H3 as (Hc3&Hw3&Hi3&[(?&?&Hd3)|(?&Hd3)]); try done.
  2:{ split; [congruence|]. split; [congruence|]. left.
      split; [left; eauto|split; congruence]. }
  apply bind_inv in H as [([]&w4&H4&H)|(e&H4&?)]; [|done].
  unfold setImmediate in H4. injection H4 as <-.
  unfold mret, M_ret in H. injection H as <- <-. simpl.
  split; [congruence|]. split; [congruence|]. right. exists cid, c, cfg.
  do 4 (split; [done|]). split; [rewrite Hd3; congruence|].
  split; [congruence|done].
Qed.

(** X10.  The triggering call always answers.  When its answer is not
    200 it has changed nothing: the database is as it was and no callback
    was queued; and in no case has it handed a message to the mail
    server. *)
Theorem refused_trigger_changes_nothing E id uid w :
  exists resp,
    fst (post_send E id uid w) = Ok resp
    /\ wire (snd (post_send E id uid w)) = wire w
    /\ (http_status resp <> 200 ->
        error resp <> None
        /\ database (snd (post_send E id uid w)) = database w
        /\ immediates (snd (post_send E id uid w)) = immediates w).
Proof.
  destruct (post_send E id uid w) as [o w'] eqn:H. simpl.
  apply post_send_inv in H as (resp&->&Hw&_&[(?&?&?&?)|Hq]).
  - exists resp. done.
  - destruct Hq as (cid&c&?&_&_&_&_&_&_&->). eexists.
    split; [done|]. split; [done|]. simpl. done.
Qed.

(** X11.  The triggering call answers 200 only for a campaign of the
    caller that is a draft, and only if the caller has a stored SMTP
    configuration; it has then marked that campaign 'queued', queued one
    callback for it, and written nothing else. *)
Theorem accepted_trigger_queues_a_draft E id uid w resp w' :
  post_send E id uid w = (Ok resp, w') ->
  http_status resp = 200 ->
  exists cid c,
    id = Some cid
    /\ Sql.select_campaign cid uid (database w) = Some c
    /\ Campaign.status c = CampaignStatus.draft
    /\ is_Some (Sql.select_smtp_config uid (database w))
    /\ database w' = Sql.queue_campaign (clock w) cid (database w)
    /\ immediates w' = immediates w ++ [(cid, uid)]
    /\ campaign resp
       = Some (cid, CampaignStatus.queued, Campaign.recipient_count c).
Proof.
  intros H H200.
  apply post_send_inv in H as (resp'&[= <-]&_&_&[(?&_)|Hq]); [done|].
  destruct Hq as (cid&c&cfg&?&?&?&?&?&?&->). exists cid, c.
  repeat split; eauto.
Qed.

Lemma accepted_trigger_queues_a_draft_witness :
  let run := post_send Demo.refuse_second (Some 1) 7 Demo.draft in
  run = (Ok (mkResponse 200 None "Campaign sending started"
               (Some (1, CampaignStatus.queued, 3))), snd run)
  /\ http_status (mkResponse 200 None "Campaign sending started"
                    (Some (1, CampaignStatus.queued, 3))) = 200
  /\ exists cid c,
       Some 1 = Some cid
       /\ Sql.select_campaign cid 7 (database Demo.draft) = Some c
       /\ Campaign.status c = CampaignStatus.draft
       /\ is_Some (Sql.select_smtp_config 7 (database Demo.draft))
       /\ database (snd run)
          = Sql.queue_campaign (clock Demo.draft) cid (database Demo.draft)
       /\ immediates (snd run) = immediates Demo.draft ++ [(cid, 7)]
       /\ campaign (mkResponse 200 None "Campaign sending started"
                      (Some (1, CampaignStatus.queued, 3)))
          = Some (cid, CampaignStatus.queued, Campaign.recipient_count c).
Proof.
  cbv zeta. split; [by vm_compute|]. split; [reflexivity|].
  apply (accepted_trigger_queues_a_draft Demo.refuse_second (Some 1) 7 Demo.draft).
  - by vm_compute.
  - reflexivity.
Defined.

Lemma sendCampaign_keeps_non_draft E j u cid uid w o w' :
  (exists c, campaigns (database w) !! cid = Some c
             /\ Campaign.user_id c = uid
             /\ Campaign.status c <> CampaignStatus.draft) ->
  sendCampaign E j u w = (o, w') ->
  exists c, campaigns (database w') !! cid = Some c
            /\ Campaign.user_id c = uid
            /\ Campaign.status c <> CampaignStatus.draft.
Proof.
  intros (c&Hc&Hu&Hst) H.
  pose proof (sendCampaign_moved_forward E j u w o w' H cid) as Hfwd.
  pose proof (sendCampaign_rows_kept E j u w o w' H) as (Hrows&_).
  specialize (Hrows cid). rewrite Hc in Hfwd, Hrows.
  inversion Hfwd as [? c' (_&_&Hs&_) Heq1 Heq2|]; subst.
  rewrite <- Heq2 in Hrows. inversion Hrows as [? ? (Hu'&_)|]; subst.
  exists c'. split; [done|]. split; [done|].
  destruct Hs as [->|[->|[->| ->]]]; done.
Qed.

(** X12.  A campaign is accepted once: after the triggering call has
    answered 200 for a campaign and the callbacks have run, whatever
    happened to the run, the next triggering call for that campaign is
    refused and changes nothing. *)
Theorem accepted_campaign_is_not_accepted_again E cid uid w resp w1 :
  serve_send E (Some cid) uid w = (Ok resp, w1) ->
  http_status resp = 200 ->
  exists resp2,
    fst (post_send E (Some cid) uid w1) = Ok resp2
    /\ http_status resp2 <> 200
    /\ database (snd (post_send E (Some cid) uid w1)) = database w1
    /\ immediates (snd (post_send E (Some cid) uid w1)) = immediates w1.
Proof.
  intros H H200. unfold serve_send in H.
  apply bind_inv in H as [(resp'&w2&H1&H)|(e&_&?)]; [|done].
  apply bind_inv in H as [([]&w3&H2&H)|(e&_&?)]; [|done].
  unfold mret, M_ret in H. injection H as -> ->.
  apply post_send_inv in H1 as (?&[= <-]&_&_&[(?&_)|Hq]); [done|].
  destruct Hq as (cid'&c&cfg&[= <-]&Hsel&Hdraft&_&Hd2&_&_).
  assert (exists c0, campaigns (database w2) !! cid = Some c0
                     /\ Campaign.user_id c0 = uid
                     /\ Campaign.status c0 <> CampaignStatus.draft) as Hinv.
  { pose proof (select_campaign_queued (clock w) cid uid _ c Hsel) as Hq.
    rewrite <- Hd2 in Hq. apply select_campaign_lookup in Hq as Hl.
    eexists. split; [exact Hl|]. simpl. split; [|done].
    unfold Sql.select_campaign in Hsel.
    destruct (campaigns (database w) !! cid); [|done].
    case_bool_decide; [|done]. by injection Hsel as ->. }
  assert (exists c0, campaigns (database w1) !! cid = Some c0
                     /\ Campaign.user_id c0 = uid
                     /\ Campaign.status c0 <> CampaignStatus.draft)
    as (c0&Hc0&Hu0&Hs0).
  { unfold run_immediates in H2.
    eapply (for_of_keeps
              (fun w => exists c0, campaigns (database w) !! cid = Some c0
                                   /\ Campaign.user_id c0 = uid
                                   /\ Campaign.status c0 <> CampaignStatus.draft));
      [|exact (Hinv : exists c0, campaigns (database (set_immediates [] w2)) !! cid
                                 = Some c0 /\ _)|exact H2].
    intros job s o s' Hs Hjob. unfold background in Hjob.
    apply try_catch_inv in Hjob as [(a&Hjob&_)|(e&s0&Hjob&Hh)].
    - apply bind_inv in Hjob as [(res&s1&Hrun&Hret)|(e&Hrun&_)].
      + unfold mret, M_ret in Hret. injection Hret as _ <-.
        by eapply sendCampaign_keeps_non_draft.
      + by eapply sendCampaign_keeps_non_draft.
    - unfold mret, M_ret in Hh. injection Hh as _ <-.
      apply bind_inv in Hjob as [(res&s1&Hrun&Hret)|(e'&Hrun&_)].
      + by unfold mret, M_ret in Hret.
      + by eapply sendCampaign_keeps_non_draft. }
  destruct (post_send E (Some cid) uid w1) as [o4 w4] eqn:H4. simpl.
  apply post_send_inv in H4 as (resp2&->&_&_&[(?&_&?&?)|Hq]).
  - exists resp2. done.
  - destruct Hq as (cid'&c'&?&[= <-]&Hsel'&Hdraft'&_).
    apply select_campaign_lookup in Hsel'. congruence.
Qed.

Lemma accepted_campaign_is_not_accepted_again_witness :
  let run := serve_send Demo.refuse_second (Some 1) 7 Demo.draft in
  run = (Ok (mkResponse 200 None "Campaign sending started"
               (Some (1, CampaignStatus.queued, 3))), snd run)
  /\ http_status (mkResponse 200 None "Campaign sending started"
                    (Some (1, CampaignStatus.queued, 3))) = 200
  /\ exists resp2,
       fst (post_send Demo.refuse_second (Some 1) 7 (snd run)) = Ok resp2
       /\ http_status resp2 <> 200
       /\ database (snd (post_send Demo.refuse_second (Some 1) 7 (snd run)))
          = database (snd run)
       /\ immediates (snd (post_send Demo.refuse_second (Some 1) 7 (snd run)))
          = immediates (snd run).
Proof.
  cbv zeta. split; [by vm_compute|]. split; [reflexivity|].
  apply (accepted_campaign_is_not_accepted_again Demo.refuse_second 1 7
           Demo.draft
           (mkResponse 200 None "Campaign sending started"
              (Some (1, CampaignStatus.queued, 3)))).
  - by vm_compute.
  - reflexivity.
Defined.

(* ===================================================================== *)
(** * The log and the ledger *)
(* ===================================================================== *)

Section Agreement.

Context (E : env) (Hrel : reliable E).

Lemma send_one_reliable cid uid c t rid r l w :
  exists l' w' row,
    send_one E cid uid c t (rid, r) (l, w) = (Ok tt, (l', w'))
    /\ email_logs (database w') = email_logs (database w) ++ [row]
    /\ EmailLog.recipient_id row = rid
    /\ EmailLog.campaign_id row = cid
    /\ EmailLog.user_id row = uid
    /\ EmailLog.recipient_email row = Recipient.email r
    /\ ((EmailLog.status row = LogStatus.sent
         /\ campaign_recipients (database w')
            = alter (fun r => Recipient.set_sent_at (Some (clock w))
                                (Recipient.set_status RecipientStatus.sent r))
                rid (campaign_recipients (database w))
         /\ l' = mkCounters (sentCount l + 1) (failedCount l))
        \/ exists e,
             EmailLog.status row = LogStatus.failed
             /\ EmailLog.error_message row = Some e
             /\ campaign_recipients (database w')
                = alter (fun r => Recipient.set_error_message (Some e)
                                    (Recipient.set_status RecipientStatus.failed r))
                    rid (campaign_recipients (database w))
             /\ l' = mkCounters (sentCount l) (failedCount l + 1)).
Proof.
  destruct (sendToRecipient E (rid, r) (cid, c) t uid w) as [o1 w1] eqn:Hs.
  pose proof Hs as Htr.
  apply sendToRecipient_trace in Htr as (Hc&(Hkc&Hkr&Hks)&Hcases).
  unfold send_one, attempt, logEmail, sleep. simpl fst. simpl snd. unfold_monad.
  rewrite Hs. destruct o1 as [mid|e].
  - assert (exists subject,
      email_logs (database w1)
      = email_logs (database w)
          ++ [EmailLog.mk uid cid rid (Recipient.email r) subject
                LogStatus.sent (Some mid) None (clock w) (clock w)])
      as [subject Hlog].
    { destruct Hcases as [((?&?)&_)|(mail&ans&_&_&_&Hans)]; [done|].
      destruct ans as [err|mid']; [by destruct Hans as [(?&?) _]|].
      destruct Hans as [([= ->]&Hlog)|((?&?&_)&_)]; [|done]. eauto. }
    run_queries Hrel. do 3 eexists. split; [reflexivity|]. simpl.
    rewrite Hlog. split; [reflexivity|]. simpl. do 4 (split; [done|]).
    left. split; [done|]. split; [by rewrite Hkr, Hc|done].
  - assert (email_logs (database w1) = email_logs (database w)) as Hlog.
    { destruct Hcases as [(_&_&?)|(mail&ans&_&_&_&Hans)]; [done|].
      destruct ans as [err|mid']; [by destruct Hans|].
      destruct Hans as [([=]&_)|(_&?)]; done. }
    run_queries Hrel. do 3 eexists. split; [reflexivity|]. simpl.
    rewrite Hlog. split; [reflexivity|]. simpl. do 4 (split; [done|]).
    right. exists e. do 2 (split; [done|]). split; [by rewrite Hkr|done].
Qed.

Lemma send_loop_reliable cid uid c t rs : forall l w,
  NoDup rs.*1 ->
  (forall p, p ∈ rs -> campaign_recipients (database w) !! fst p = Some (snd p)) ->
  exists l' w' rows,
    for_of rs (send_one E cid uid c t) (l, w) = (Ok tt, (l', w'))
    /\ email_logs (database w') = email_logs (database w) ++ rows
    /\ Forall2 (log_agrees cid uid (database w')) rs rows
    /\ sentCount l' = sentCount l + count_rows is_sent rows
    /\ failedCount l' = failedCount l + count_rows is_failed rows.
Proof.
  induction rs as [|[rid r] rs IH]; intros l w Hnd Hin.
  - exists l, w, []. simpl. rewrite app_nil_r. unfold count_rows. simpl.
    repeat split; try done; try lia.
  - rewrite fmap_cons in Hnd. apply NoDup_cons in Hnd as [Hrid Hnd].
    destruct (send_one_reliable cid uid c t rid r l w)
      as (l1&w1&row&H1&Hlog1&Hrow1&Hrow2&Hrow3&Hrow4&Hcase).
    assert (forall j, j <> rid ->
      campaign_recipients (database w1) !! j = campaign_recipients (database w) !! j)
      as Hother.
    { intros j Hj.
      destruct Hcase as [(_&->&_)|(e&_&_&->&_)]; by rewrite lookup_alter_ne. }
    destruct (IH l1 w1 Hnd) as (l'&w'&rows&H2&Hlog2&Hagree&Hs&Hf).
    { intros [j rj] Hj. simpl. rewrite Hother.
      - apply (Hin (j, rj)). apply elem_of_cons. by right.
      - intros ->. apply Hrid. apply list_elem_of_fmap. by exists (rid, rj). }
    exists l', w', (row :: rows). simpl for_of.
    unfold mbind at 1, M_bind at 1. rewrite H1. split; [exact H2|].
    split; [by rewrite Hlog2, Hlog1, <- app_assoc|].
    pose proof H2 as Hframe.
    apply send_loop_body_inv in Hframe as (_&_&Hframe&_); [|done].
    specialize (Hframe rid Hrid).
    assert (campaign_recipients (database w) !! rid = Some r) as Hhere.
    { apply (Hin (rid, r)). apply elem_of_cons. by left. }
    clear Hin. rename Hhere into Hin.
    split; [|].
    { constructor; [|done]. do 4 (split; [done|]). simpl. rewrite Hframe.
      destruct Hcase as [(Hst&->&_)|(e&Hst&Herr&->&_)];
        rewrite lookup_alter_eq, Hin; simpl; eexists; split; try reflexivity.
      - left. done.
      - right. simpl. rewrite Herr. done. }
    unfold count_rows in *. simpl List.filter. unfold is_sent, is_failed in *.
    destruct Hcase as [(Hst&_&->)|(e&Hst&_&_&->)]; rewrite Hst; simpl in *;
      split; lia.
Qed.

End Agreement.

(** X13.  On a storage that answers every query, a run that resolves has
    added to the log exactly one row for each recipient it selected, in
    the order of their ids; the row says 'sent' where the ledger says
    'sent' and 'failed', with the same error, where the ledger says
    'failed'; and the numbers returned by the run are the numbers of
    'sent' and of 'failed' rows it added. *)
Theorem log_matches_the_ledger E cid uid w res w' :
  reliable E ->
  sendCampaign E cid uid w = (Ok res, w') ->
  exists rows,
    email_logs (database w') = email_logs (database w) ++ rows
    /\ Forall2 (log_agrees cid uid (database w'))
         (Sql.select_pending cid (database w)) rows
    /\ sent res = count_rows is_sent rows
    /\ failed res = count_rows is_failed rows.
Proof.
  intros Hrel H.
  apply sendCampaign_inv in H as (ob&wb&H&[(?&->&[= <-]&->)|(?&_&?&_)]); [|done].
  apply dispatch_inv in H
    as [(_&_&Hlog&_&Hok&_)|(c&t&w1&o2&l2&w2&_&_&_&_&_&_&Hd1&Hloop&_&_&Hend)].
  { destruct (Hok _ eq_refl) as [-> ->].
    exists []. rewrite app_nil_r. split; [done|]. split; [constructor|]. done. }
  destruct Hend as [(?&_&?&_)|(->&[(?&?&_)|([= ->]&Hd)])]; try done.
  destruct (send_loop_reliable E Hrel cid uid c t
              (Sql.select_pending cid (database w)) (mkCounters 0 0) w1)
    as (l'&w2'&rows&Hloop'&Hlog&Hagree&Hs&Hf).
  { apply NoDup_select_pending_ids. }
  { intros [j rj] Hj. apply elem_of_select_pending in Hj as (Hj&_).
    by rewrite Hd1. }
  rewrite Hloop in Hloop'. injection Hloop' as <- <-.
  exists rows. rewrite Hd. simpl. rewrite Hlog, Hd1. simpl.
  split; [done|]. split; [|split; simpl in *; lia].
  eapply Forall2_impl; [exact Hagree|].
  intros p row (?&?&?&?&?). done.
Qed.

Lemma log_matches_the_ledger_witness :
  let run := sendCampaign Demo.refuse_second 1 7 Demo.queued in
  reliable Demo.refuse_second
  /\ run = (Ok (mkResult true 2 1), snd run)
  /\ exists rows,
       email_logs (database (snd run)) = email_logs (database Demo.queued) ++ rows
       /\ Forall2 (log_agrees 1 7 (database (snd run)))
            (Sql.select_pending 1 (database Demo.queued)) rows
       /\ sent (mkResult true 2 1) = count_rows is_sent rows
       /\ failed (mkResult true 2 1) = count_rows is_failed rows.
Proof.
  cbv zeta. split; [intros n; reflexivity|]. split; [by vm_compute|].
  apply (log_matches_the_ledger Demo.refuse_second 1 7 Demo.queued
           (mkResult true 2 1)).
  - intros n. reflexivity.
  - by vm_compute.
Defined.

(* ===================================================================== *)
(** * Numbers *)
(* ===================================================================== *)

Section Numbers.

Context (fl : Q -> Q) (Hfl : rounds fl).

Lemma fl_le x y : (x <= y)%Q -> (fl x <= fl y)%Q.
Proof. apply Hfl. Qed.

Lemma fl_eq x y : (x == y)%Q -> (fl x == fl y)%Q.
Proof.
  intros Heq. apply Qle_antisym; apply fl_le; rewrite Heq; apply Qle_refl.
Qed.

Lemma fl_integer (n : Z) x :
  Z.abs n <= 2 ^ 53 -> (x == inject_Z n)%Q -> (fl x == inject_Z n)%Q.
Proof.
  intros Hn Hx. rewrite (fl_eq _ _ Hx). by apply Hfl.
Qed.

Lemma fl_nonneg x : (0 <= x)%Q -> (0 <= fl x)%Q.
Proof.
  intros Hx. rewrite <- (fl_integer 0 0%Q); [by apply fl_le|done|reflexivity].
Qed.

Lemma Math_round_le x y : (x <= y)%Q -> Math_round x <= Math_round y.
Proof.
  intros Hxy. unfold Math_round. apply Qfloor_resp_le.
  by apply Qplus_le_l.
Qed.

Lemma Math_round_integer (n : Z) x : (x == inject_Z n)%Q -> Math_round x = n.
Proof.
  intros Hx. unfold Math_round.
  rewrite (Qfloor_comp _ (inject_Z n + (1 # 2))%Q) by (by rewrite Hx).
  pose proof (Qfloor_le (inject_Z n + (1 # 2))) as Hle.
  pose proof (Qlt_floor (inject_Z n + (1 # 2))) as Hlt.
  assert (inject_Z (Qfloor (inject_Z n + (1 # 2))) < inject_Z (n + 1))%Q as H1.
  { eapply Qle_lt_trans; [exact Hle|]. rewrite inject_Z_plus.
    apply Qplus_lt_r. reflexivity. }
  assert (inject_Z n < inject_Z (Qfloor (inject_Z n + (1 # 2)) + 1))%Q as H2.
  { eapply Qle_lt_trans; [|exact Hlt]. rewrite <- (Qplus_0_r (inject_Z n)) at 1.
    apply Qplus_le_r. discriminate. }
  rewrite <- Zlt_Qlt in H1, H2. lia.
Qed.

(** The percentage of [d] out of [t]. *)
Lemma percent_le (d d' t : Z) :
  0 < t -> d <= d' ->
  Math_round (fl (fl (inject_Z d / inject_Z t) * 100))
  <= Math_round (fl (fl (inject_Z d' / inject_Z t) * 100)).
Proof.
  intros Ht Hd. apply Math_round_le, fl_le, Qmult_le_compat_r; [|discriminate].
  apply fl_le. apply Qmult_le_compat_r; [by rewrite <- Zle_Qle|].
  apply Qinv_le_0_compat. change 0%Q with (inject_Z 0). rewrite <- Zle_Qle. lia.
Qed.

Lemma inject_Z_nonzero (m : Z) : 0 < m -> ~ (inject_Z m == 0)%Q.
Proof.
  intros Hm Heq. change 0%Q with (inject_Z 0) in Heq.
  rewrite inject_Z_injective in Heq. lia.
Qed.

Lemma percent_none (t : Z) :
  0 < t -> Math_round (fl (fl (inject_Z 0 / inject_Z t) * 100)) = 0.
Proof.
  intros Ht. apply Math_round_integer. apply (fl_integer 0); [done|].
  rewrite (fl_integer 0); [reflexivity|done|].
  unfold Qdiv. apply Qmult_0_l.
Qed.

Lemma percent_all (t : Z) :
  0 < t -> Math_round (fl (fl (inject_Z t / inject_Z t) * 100)) = 100.
Proof.
  intros Ht. apply Math_round_integer. apply (fl_integer 100); [done|].
  rewrite (fl_integer 1); [reflexivity|done|].
  pose proof (inject_Z_nonzero t Ht). field. done.
Qed.

Lemma truncate_integer (n : Z) x : (x == inject_Z n)%Q -> truncate x = n.
Proof.
  intros Hx. unfold truncate.
  destruct (Qle_bool 0 x).
  - rewrite (Qfloor_comp _ _ Hx). apply Qfloor_Z.
  - rewrite (Qceiling_comp _ _ Hx). apply Qceiling_Z.
Qed.

Lemma truncate_ge (n : Z) x : (inject_Z n <= x)%Q -> n <= truncate x.
Proof.
  intros Hx. unfold truncate. destruct (Qle_bool 0 x).
  - rewrite <- (Qfloor_Z n). by apply Qfloor_resp_le.
  - rewrite <- (Qceiling_Z n). by apply Qceiling_resp_le.
Qed.

End Numbers.

Lemma rounds_unrounded : rounds unrounded.
Proof.
  split.
  - intros x y Hxy. unfold unrounded. by rewrite !Qred_correct.
  - intros n _. apply Qred_correct.
Qed.

(* ===================================================================== *)
(** * The progress tracker *)
(* ===================================================================== *)

(** X14.  Whatever the rounding of the quotient and of the product, the
    [progress_percentage] shown in the lists of campaigns lies between
    0 and 100 as long as the counters lie between 0 and the number of
    recipients, and it does not decrease when the counters grow; it is
    0 while no recipient is processed and 100 once all of them are. *)
Theorem progress_percentage_stays_in_range fl (c c' : Campaign.t) :
  let total := Campaign.recipient_count c in
  let processed := Campaign.sent_count c + Campaign.failed_count c in
  let processed' := Campaign.sent_count c' + Campaign.failed_count c' in
  rounds fl ->
  Campaign.recipient_count c' = total ->
  0 <= processed ->
  processed <= processed' ->
  processed' <= total ->
  0 <= progress_percentage fl c
  /\ progress_percentage fl c <= progress_percentage fl c'
  /\ progress_percentage fl c' <= 100
  /\ (processed = 0 -> progress_percentage fl c = 0)
  /\ (0 < total -> processed' = total -> progress_percentage fl c' = 100).
Proof.
  cbv zeta. intros Hfl Ht' H0 Hle Htop.
  unfold progress_percentage. rewrite Ht'.
  remember (Campaign.recipient_count c) as total eqn:Htotal.
  remember (Campaign.sent_count c + Campaign.failed_count c) as processed.
  remember (Campaign.sent_count c' + Campaign.failed_count c') as processed'.
  destruct (Z.ltb_spec 0 total) as [Hpos|Hnone].
  - pose proof (percent_le fl Hfl 0 processed total Hpos H0) as H1.
    pose proof (percent_le fl Hfl processed processed' total Hpos Hle) as H2.
    pose proof (percent_le fl Hfl processed' total total Hpos Htop) as H3.
    rewrite (percent_none fl Hfl total Hpos) in H1.
    rewrite (percent_all fl Hfl total Hpos) in H3.
    split; [done|]. split; [done|]. split; [done|]. split.
    + intros ->. by apply percent_none.
    + intros _ ->. by apply percent_all.
  - split; [done|]. split; [done|]. split; [done|]. split; [done|]. lia.
Qed.

Lemma progress_percentage_stays_in_range_witness :
  let c := Demo.campaign CampaignStatus.sending 1 0 in
  let c' := Demo.campaign CampaignStatus.sending 1 1 in
  rounds unrounded
  /\ 0 <= 1 + 0 /\ 1 + 0 <= 1 + 1 /\ 1 + 1 <= 3
  /\ progress_percentage unrounded c = 33
  /\ progress_percentage unrounded c' = 67
  /\ 0 <= progress_percentage unrounded c
  /\ progress_percentage unrounded c <= progress_percentage unrounded c'
  /\ progress_percentage unrounded c' <= 100
  /\ (1 + 0 = 0 -> progress_percentage unrounded c = 0)
  /\ (0 < 3 -> 1 + 1 = 3 -> progress_percentage unrounded c' = 100).
Proof.
  cbv zeta. split; [apply rounds_unrounded|]. split; [lia|]. split; [lia|].
  split; [lia|]. split; [reflexivity|]. split; [reflexivity|].
  apply (progress_percentage_stays_in_range unrounded
           (Demo.campaign CampaignStatus.sending 1 0)
           (Demo.campaign CampaignStatus.sending 1 1)).
  - apply rounds_unrounded.
  - reflexivity.
  - simpl. lia.
  - simpl. lia.
  - simpl. lia.
Defined.

(** X15.  [calculateTiming] estimates only for a campaign that is
    'sending' and has processed at least one recipient.  Whatever the
    rounding, for a campaign started not after now and with counters
    within the number of recipients, the estimate is not negative and
    the estimated completion is not before now; once no recipient is
    left the estimate is 0 and the completion is now. *)
Theorem timing_estimate_is_not_in_the_past fl now (c : Campaign.t) started tm est :
  rounds fl ->
  Z.abs now <= 8640000000000000 ->
  Campaign.started_at c = Some started ->
  Campaign.completed_at c = None ->
  started <= now ->
  Campaign.sent_count c + Campaign.failed_count c <= Campaign.recipient_count c ->
  calculateTiming fl now c = Ok tm ->
  Timing.estimated_remaining_seconds tm = Some est ->
  let processed := Campaign.sent_count c + Campaign.failed_count c in
  let left := Campaign.recipient_count c - processed in
  Campaign.status c = CampaignStatus.sending
  /\ 0 < processed
  /\ 0 <= est
  /\ exists completion,
       Timing.estimated_completion tm = Some completion
       /\ now <= completion
       /\ (left = 0 -> est = 0 /\ completion = now).
Proof.
  intros Hfl Hdate Hs Hc Hnow Hcount Htm Hest. cbv zeta.
  unfold calculateTiming in Htm. rewrite Hs, Hc in Htm.
  destruct (bool_decide (Campaign.status c = CampaignStatus.sending)) eqn:Hst;
    [|by injection Htm as <-].
  apply bool_decide_eq_true in Hst.
  remember (Campaign.sent_count c + Campaign.failed_count c) as processed.
  remember (Campaign.recipient_count c - processed) as left.
  destruct (Z.ltb_spec 0 processed) as [Hpos|]; [|by injection Htm as <-].
  cbv zeta in Htm.
  remember (Qfloor (fl (fl (inject_Z now - inject_Z started) / 1000)%Q)) as seconds.
  remember (fl (inject_Z seconds / inject_Z processed)%Q) as perEmail.
  remember (Qceiling (fl (inject_Z left * perEmail)%Q)) as remaining.
  assert (0 <= perEmail)%Q as Hper.
  { subst perEmail. apply (fl_nonneg fl Hfl).
    apply Qle_shift_div_l.
    - change 0%Q with (inject_Z 0). rewrite <- Zlt_Qlt. lia.
    - rewrite Qmult_0_l. change 0%Q with (inject_Z 0). rewrite <- Zle_Qle.
      subst seconds. rewrite <- (Qfloor_Z 0). apply Qfloor_resp_le.
      apply (fl_nonneg fl Hfl). apply Qle_shift_div_l; [reflexivity|].
      rewrite Qmult_0_l. apply (fl_nonneg fl Hfl).
      unfold Qminus. rewrite <- inject_Z_opp, <- inject_Z_plus.
      change 0%Q with (inject_Z 0). rewrite <- Zle_Qle. lia. }
  assert (0 <= remaining) as Hrem.
  { subst remaining. rewrite <- (Qceiling_Z 0). apply Qceiling_resp_le.
    apply (fl_nonneg fl Hfl). apply Qmult_le_0_compat; [|done].
    change 0%Q with (inject_Z 0). rewrite <- Zle_Qle. lia. }
  assert (left = 0 -> remaining = 0) as Hdone.
  { intros Hleft. subst remaining. rewrite Hleft.
    rewrite <- (Qceiling_Z 0). apply Qceiling_comp.
    apply (fl_integer fl Hfl 0); [done|]. apply Qmult_0_l. }
  unfold toISOString in Htm.
  destruct (Qle_bool _ _ && Qle_bool _ _); [|done].
  injection Htm as <-. simpl in Hest |- *. injection Hest as <-.
  split; [done|]. split; [done|]. split; [done|].
  eexists. split; [reflexivity|]. split.
  - apply truncate_ge.
    apply Qle_trans with (fl (inject_Z now)).
    { apply Qle_lteq. right. symmetry.
      apply (fl_integer fl Hfl now); [lia|reflexivity]. }
    apply (fl_le fl Hfl). rewrite <- (Qplus_0_r (inject_Z now)) at 1.
    apply Qplus_le_r. apply (fl_nonneg fl Hfl).
    apply Qmult_le_0_compat; [|discriminate].
    change 0%Q with (inject_Z 0). by rewrite <- Zle_Qle.
  - intros Hleft. specialize (Hdone Hleft). split; [done|].
    apply truncate_integer. rewrite Hdone.
    apply (fl_integer fl Hfl now); [lia|].
    rewrite (fl_integer fl Hfl 0 (inject_Z 0 * 1000)); [|done|reflexivity].
    apply Qplus_0_r.
Qed.

Lemma timing_estimate_is_not_in_the_past_witness :
  let c := Campaign.mk 7 "Launch" "Hi" "Dear reader, hello." None 3 1 0
             CampaignStatus.sending (Some 1000) None 0 2000 in
  let tm := Timing.mk (Some 1000) None (Some 3) (Some 10500) (Some 6) in
  rounds unrounded
  /\ Z.abs 4500 <= 8640000000000000
  /\ Campaign.started_at c = Some 1000
  /\ Campaign.completed_at c = None
  /\ 1000 <= 4500
  /\ 1 + 0 <= 3
  /\ calculateTiming unrounded 4500 c = Ok tm
  /\ Timing.estimated_remaining_seconds tm = Some 6
  /\ Campaign.status c = CampaignStatus.sending
  /\ 0 < 1 + 0
  /\ 0 <= 6
  /\ exists completion,
       Timing.estimated_completion tm = Some completion
       /\ 4500 <= completion
       /\ (3 - (1 + 0) = 0 -> 6 = 0 /\ completion = 4500).
Proof.
  cbv zeta. split; [apply rounds_unrounded|]. split; [lia|].
  split; [reflexivity|]. split; [reflexivity|]. split; [lia|].
  split; [lia|]. split; [reflexivity|]. split; [reflexivity|].
  apply (timing_estimate_is_not_in_the_past unrounded 4500
           (Campaign.mk 7 "Launch" "Hi" "Dear reader, hello." None 3 1 0
              CampaignStatus.sending (Some 1000) None 0 2000) 1000
           (Timing.mk (Some 1000) None (Some 3) (Some 10500) (Some 6)) 6).
  - apply rounds_unrounded.
  - lia.
  - reflexivity.
  - reflexivity.
  - lia.
  - simpl. lia.
  - reflexivity.
  - reflexivity.
Defined.

(* ===================================================================== *)
(** * The router *)
(* ===================================================================== *)

Section Router.

#[local] Arguments Text.eqb_ignore_case : simpl never.

(** X16.  The handler of GET /activity is never reached: its route is
    registered after GET /:id, which matches every path of one segment.
    A request for /activity is answered by the handler of GET /:id, for
    which 'activity' is not a number: 400 'Invalid campaign ID', without
    a query. *)
Theorem activity_route_is_shadowed :
  (forall method path params, route method path <> Some (GetActivity, params))
  /\ route GET ["activity"] = Some (GetCampaign, [("id", "activity")])
  /\ forall E fl userId w,
       get_campaign E fl "activity" userId w = (Ok invalid_id, w).
Proof.
  split; [|split; [reflexivity|reflexivity]].
  intros method path params. unfold route, routes.
  destruct method, path as [|s1 [|s2 [|s3 path]]]; simpl;
    repeat (destruct (Text.eqb_ignore_case _ _); simpl);
    repeat (destruct (match_path _ _); simpl); try congruence;
    destruct path; simpl; congruence.
Qed.

End Router.

(* ===================================================================== *)
(** * The timeline after a run *)
(* ===================================================================== *)

Section AfterARun.

Context (E : env).

Lemma completion_kept_refl cid d : completion_kept cid d d.
Proof. intros c Hc. eauto. Qed.

Lemma completion_kept_eq cid d d' :
  campaigns d' = campaigns d -> completion_kept cid d d'.
Proof. intros Heq c Hc. rewrite Heq. eauto. Qed.

Lemma completion_kept_trans cid d1 d2 d3 :
  completion_kept cid d1 d2 -> completion_kept cid d2 d3 ->
  completion_kept cid d1 d3.
Proof.
  intros H1 H2 c Hc. destruct (H1 c Hc) as (c2&Hc2&?&?).
  destruct (H2 c2 Hc2) as (c3&Hc3&?&?). exists c3.
  split; [done|]. split; congruence.
Qed.

Lemma completion_kept_update ts cid st sa d :
  completion_kept cid d (Sql.update_status ts cid st sa None d).
Proof.
  intros c Hc. rewrite campaigns_update_status, lookup_alter_eq, Hc.
  eexists. split; [reflexivity|]. by destruct sa.
Qed.

Lemma completion_kept_touch cid d d' fc :
  campaigns d' = alter fc cid (campaigns d) -> camp_touch fc ->
  completion_kept cid d d'.
Proof.
  intros Heq Htouch c Hc. rewrite Heq, lookup_alter_eq, Hc.
  eexists. split; [reflexivity|].
  destruct (Htouch c) as (?&_&_&_&?&_). done.
Qed.

(** The completed_at of a campaign after a run: the time the run ended
    when the run resolved after going through recipients, and what it was
    before the run in every other case. *)
Lemma run_completed_at cid uid w o w' c :
  sendCampaign E cid uid w = (o, w') ->
  campaigns (database w) !! cid = Some c ->
  exists c',
    campaigns (database w') !! cid = Some c'
    /\ Campaign.user_id c' = Campaign.user_id c
    /\ (((exists res, o = Ok res)
         /\ Sql.select_pending cid (database w) <> []
         /\ Campaign.completed_at c' = Some (clock w')
         /\ Campaign.status c' = CampaignStatus.completed)
        \/ (~ ((exists res, o = Ok res)
               /\ Sql.select_pending cid (database w) <> [])
            /\ Campaign.completed_at c' = Campaign.completed_at c)).
Proof.
  intros H Hc.
  apply sendCampaign_inv in H as (ob&wb&H&Hh).
  assert (forall d, completion_kept cid (database w) d ->
            (database w' = d
             \/ database w'
                = Sql.update_status (clock wb) cid CampaignStatus.failed
                    None None d) ->
            ~ ((exists res, o = Ok res)
               /\ Sql.select_pending cid (database w) <> []) ->
            exists c',
              campaigns (database w') !! cid = Some c'
              /\ Campaign.user_id c' = Campaign.user_id c
              /\ (((exists res, o = Ok res)
                   /\ Sql.select_pending cid (database w) <> []
                   /\ Campaign.completed_at c' = Some (clock w')
                   /\ Campaign.status c' = CampaignStatus.completed)
                  \/ (~ ((exists res, o = Ok res)
                         /\ Sql.select_pending cid (database w) <> [])
                      /\ Campaign.completed_at c' = Campaign.completed_at c)))
    as Hkept.
  { intros d Hd Hw' Hnot.
    assert (completion_kept cid (database w) (database w')) as Hk.
    { destruct Hw' as [->| ->]; [done|].
      eapply completion_kept_trans; [exact Hd|apply completion_kept_update]. }
    destruct (Hk c Hc) as (c'&?&?&?). exists c'. auto. }
  apply dispatch_inv in H
    as [(_&_&_&_&Hok&Hdb)
       |(c0&t&w1&o2&l2&w2&Hsel&_&Hne&_&_&_&Hd1&Hloop&_&Hclock&Hend)].
  - assert (completion_kept cid (database w) (database wb)) as Hk.
    { destruct Hdb as [->|(st&sa&->)];
        [apply completion_kept_refl|apply completion_kept_update]. }
    apply (Hkept (database wb) Hk).
    + destruct Hh as [(?&_&_&->)|(?&_&_&_&_&_&?)]; auto.
    + intros [(res&->) Hne].
      destruct Hh as [(?&->&_)|(?&_&?&_)]; [|done].
      by destruct (Hok _ eq_refl).
  - apply send_loop_body_inv in Hloop as (_&_&_&(fc&Hfc&Htouch&_)&_);
      [|apply NoDup_select_pending_ids].
    assert (completion_kept cid (database w) (database w2)) as Hk2.
    { apply (completion_kept_trans cid _ (database w1)).
      - rewrite Hd1. apply completion_kept_update.
      - by eapply completion_kept_touch. }
    destruct Hend as [(e&_&->&Hdb)|(_&[(e&->&Hdb)|(->&Hdb)])].
    + apply (Hkept (database wb)); [by rewrite Hdb| |].
      * destruct Hh as [(?&?&_)|(?&_&_&_&_&_&?)]; [done|auto].
      * destruct Hh as [(?&?&_)|(?&_&->&_)]; [done|]. by intros [(?&?) _].
    + apply (Hkept (database wb)); [by rewrite Hdb| |].
      * destruct Hh as [(?&?&_)|(?&_&_&_&_&_&?)]; [done|auto].
      * destruct Hh as [(?&?&_)|(?&_&->&_)]; [done|]. by intros [(?&?) _].
    + destruct Hh as [(?&_&->&->)|(?&?&_)]; [|done].
      destruct (Hk2 c Hc) as (c2&Hc2&Hu2&_).
      eexists. split.
      { rewrite Hdb, campaigns_update_status, lookup_alter_eq, Hc2.
        simpl. reflexivity. }
      simpl. split; [done|]. left. split; [eauto|]. split; [done|].
      split; [by rewrite Hclock|done].
Qed.

Lemma getCampaignTimeline_inv cid uid w tl w' :
  getCampaignTimeline E cid uid w = (Ok tl, w') ->
  exists c,
    Sql.select_campaign cid uid (database w) = Some c
    /\ tl = [Timeline.mk "created" CampaignStatus.draft (Campaign.created_at c)
               "Campaign created"]
            ++ match Campaign.started_at c with
               | Some ts =>
                   [Timeline.mk "started" CampaignStatus.sending ts
                      "Campaign sending started"]
               | None => []
               end
            ++ match Campaign.completed_at c with
               | Some ts =>
                   [Timeline.mk "completed" (Campaign.status c) ts
                      (if bool_decide (Campaign.status c = CampaignStatus.completed)
                       then "Campaign sending completed" else "Campaign failed")]
               | None => []
               end.
Proof.
  unfold getCampaignTimeline. intros H.
  apply try_catch_inv in H as [(a&H&[= <-])|(e&w0&_&H)]; [|done].
  apply bind_inv in H as [(oc&w1&H1&H)|(e&_&?)]; [|done].
  unfold db_try in H1.
  apply bind_inv in H1 as [(r&w2&H1&H2)|(e&_&?)]; [|done].
  apply db_select_inv in H1 as (_&_&_&_&[(?&?)|[= ->]]); [done|].
  unfold Sql2.by_id, of_outcome in H2.
  destruct (Sql2.integer cid); [|done]. injection H2 as <- <-.
  destruct (Sql.select_campaign cid uid (database w)) as [c|]; [|done].
  exists c. split; [done|]. unfold mret, M_ret in H. by injection H as <- _.
Qed.

End AfterARun.

(** X17.  The timeline of a campaign shows a 'completed' event only
    after a run that went through recipients and resolved.  For a
    campaign that had no completed_at before the run: after a run that
    was rejected (the campaign is then 'failed'), and after a run that
    found no pending recipient (the campaign is then 'completed'), the
    timeline has no 'completed' event; and in no case does it say
    'Campaign failed'. *)
Theorem timeline_shows_completion_only_of_a_full_run
    E cid uid w o w' c tl w'' :
  sendCampaign E cid uid w = (o, w') ->
  Sql.select_campaign cid uid (database w) = Some c ->
  Campaign.completed_at c = None ->
  getCampaignTimeline E cid uid w' = (Ok tl, w'') ->
  ((exists ev, ev ∈ tl /\ Timeline.event ev = "completed")
   <-> (exists res, o = Ok res) /\ Sql.select_pending cid (database w) <> [])
  /\ (forall ev, ev ∈ tl -> Timeline.description ev <> "Campaign failed").
Proof.
  intros Hrun Hsel Hnone Htl.
  apply select_campaign_lookup in Hsel as Hc.
  destruct (run_completed_at E cid uid w o w' c Hrun Hc) as (c'&Hc'&_&Hcases).
  apply getCampaignTimeline_inv in Htl as (c2&Hsel2&->).
  apply select_campaign_lookup in Hsel2. rewrite Hc' in Hsel2.
  injection Hsel2 as <-.
  assert (forall ev,
    ev ∈ [Timeline.mk "created" CampaignStatus.draft (Campaign.created_at c')
            "Campaign created"]
         ++ match Campaign.started_at c' with
            | Some ts =>
                [Timeline.mk "started" CampaignStatus.sending ts
                   "Campaign sending started"]
            | None => []
            end ->
    Timeline.event ev <> "completed"
    /\ Timeline.description ev <> "Campaign failed") as Hfirst.
  { intros ev Hev. apply elem_of_app in Hev as [Hev|Hev].
    - apply list_elem_of_singleton in Hev as ->. done.
    - destruct (Campaign.started_at c'); [|by apply elem_of_nil in Hev].
      apply list_elem_of_singleton in Hev as ->. done. }
  rewrite app_assoc.
  destruct Hcases as [(Hok&Hne&Hat&Hst)|(Hnot&Hat)].
  - rewrite Hat, Hst. simpl bool_decide. cbv iota. split.
    + split; [done|]. intros _. eexists. split.
      * apply elem_of_app. right. apply list_elem_of_singleton. reflexivity.
      * done.
    + intros ev Hev. apply elem_of_app in Hev as [Hev|Hev].
      * by apply Hfirst.
      * apply list_elem_of_singleton in Hev as ->. done.
  - rewrite Hat, Hnone, app_nil_r. split.
    + split; [|done]. intros (ev&Hev&Hname). by apply Hfirst in Hev as [? _].
    + intros ev Hev. by apply Hfirst.
Qed.

Lemma timeline_shows_completion_only_of_a_full_run_witness :
  let run := sendCampaign Demo.refuse_second 1 7 Demo.queued in
  let tl := [Timeline.mk "created" CampaignStatus.draft 0 "Campaign created";
             Timeline.mk "started" CampaignStatus.sending 1000
               "Campaign sending started";
             Timeline.mk "completed" CampaignStatus.completed 4000
               "Campaign sending completed"] in
  run = (Ok (mkResult true 2 1), snd run)
  /\ Sql.select_campaign 1 7 (database Demo.queued)
     = Some (Demo.campaign CampaignStatus.queued 0 0)
  /\ Campaign.completed_at (Demo.campaign CampaignStatus.queued 0 0) = None
  /\ getCampaignTimeline Demo.refuse_second 1 7 (snd run)
     = (Ok tl, snd (getCampaignTimeline Demo.refuse_second 1 7 (snd run)))
  /\ ((exists ev, ev ∈ tl /\ Timeline.event ev = "completed")
      <-> (exists res, Ok (mkResult true 2 1) = Ok res)
          /\ Sql.select_pending 1 (database Demo.queued) <> [])
  /\ (forall ev, ev ∈ tl -> Timeline.description ev <> "Campaign failed").
Proof.
  cbv zeta. split; [by vm_compute|]. split; [reflexivity|].
  split; [reflexivity|]. split; [by vm_compute|].
  apply (timeline_shows_completion_only_of_a_full_run Demo.refuse_second 1 7
           Demo.queued (Ok (mkResult true 2 1))
           (snd (sendCampaign Demo.refuse_second 1 7 Demo.queued))
           (Demo.campaign CampaignStatus.queued 0 0) _
           (snd (getCampaignTimeline Demo.refuse_second 1 7
                   (snd (sendCampaign Demo.refuse_second 1 7 Demo.queued))))).
  - by vm_compute.
  - reflexivity.
  - reflexivity.
  - by vm_compute.
Defined.

(* ===================================================================== *)
(** * The routes that read and delete a campaign *)
(* ===================================================================== *)

(** X18.  The routes that read a campaign tell nothing about a campaign
    of another user: on a storage that answers, for an id that is a
    number of the range of the ids, a campaign that exists but is not
    the caller's gets the very answer of a campaign that does not exist,
    404, from the progress, the timeline and the details route alike,
    and nothing is written. *)
Theorem foreign_campaign_reads_as_not_found E fl id cid uid w :
  reliable E ->
  parseInt id = Some cid ->
  Sql2.integer cid = true ->
  Sql.select_campaign cid uid (database w) = None ->
  fst (get_progress E fl id uid w)
  = Ok (mkReply 404 (Failure "Campaign not found"
                       "Campaign not found or access denied"))
  /\ fst (get_timeline E id uid w)
     = Ok (mkReply 404 (Failure "Campaign not found"
                          "Campaign not found or access denied"))
  /\ fst (get_campaign E fl id uid w)
     = Ok (mkReply 404
             (Failure "Campaign not found"
                "Campaign not found or you do not have permission to access it"))
  /\ database (snd (get_progress E fl id uid w)) = database w
  /\ database (snd (get_timeline E id uid w)) = database w
  /\ database (snd (get_campaign E fl id uid w)) = database w.
Proof.
  intros Hrel Hid Hint Hsel.
  unfold get_progress, get_timeline, get_campaign, getCampaignProgress,
    getCampaignTimeline, db_try, Sql2.by_id.
  rewrite Hid, Hint. unfold_monad. run_queries Hrel. rewrite Hsel. simpl.
  done.
Qed.

Lemma foreign_campaign_reads_as_not_found_witness :
  reliable Demo.refuse_second
  /\ parseInt "1" = Some 1
  /\ Sql2.integer 1 = true
  /\ Sql.select_campaign 1 8 (database Demo.completed) = None
  /\ fst (get_progress Demo.refuse_second unrounded "1" 8 Demo.completed)
     = Ok (mkReply 404 (Failure "Campaign not found"
                          "Campaign not found or access denied"))
  /\ fst (get_timeline Demo.refuse_second "1" 8 Demo.completed)
     = Ok (mkReply 404 (Failure "Campaign not found"
                          "Campaign not found or access denied"))
  /\ fst (get_campaign Demo.refuse_second unrounded "1" 8 Demo.completed)
     = Ok (mkReply 404
             (Failure "Campaign not found"
                "Campaign not found or you do not have permission to access it"))
  /\ database (snd (get_progress Demo.refuse_second unrounded "1" 8
                      Demo.completed))
     = database Demo.completed
  /\ database (snd (get_timeline Demo.refuse_second "1" 8 Demo.completed))
     = database Demo.completed
  /\ database (snd (get_campaign Demo.refuse_second unrounded "1" 8
                      Demo.completed))
     = database Demo.completed.
Proof.
  split; [intros n; reflexivity|]. split; [reflexivity|]. split; [reflexivity|].
  split; [reflexivity|].
  apply (foreign_campaign_reads_as_not_found Demo.refuse_second unrounded "1" 1
           8 Demo.completed).
  - intros n. reflexivity.
  - reflexivity.
  - reflexivity.
  - reflexivity.
Defined.

(** The handler of DELETE always answers; it deletes, with the answer
    200, or leaves the database as it was. *)
Lemma delete_campaign_inv E id uid w o w' :
  delete_campaign E id uid w = (o, w') ->
  exists r,
    o = Ok r /\ wire w' = wire w /\ immediates w' = immediates w
    /\ ((code r <> 200 /\ database w' = database w)
        \/ exists cid c,
             r = mkReply 200 (Deleted "Campaign deleted successfully" cid)
             /\ parseInt id = Some cid
             /\ Sql.select_campaign cid uid (database w) = Some c
             /\ Campaign.status c <> CampaignStatus.sending
             /\ Sql2.delete_campaign cid uid (database w) = (Some cid, database w')).
Proof.
  unfold delete_campaign. intros H.
  match type of H with try_catch ?m ?h w = _ =>
    cut (forall ob wb, m w = (ob, wb) ->
      wire wb = wire w /\ immediates wb = immediates w
      /\ ((((exists e, ob = Throw e)
            \/ exists r, ob = Ok r /\ code r <> 200)
           /\ database wb = database w)
          \/ exists cid c,
               ob = Ok (mkReply 200 (Deleted "Campaign deleted successfully" cid))
               /\ parseInt id = Some cid
               /\ Sql.select_campaign cid uid (database w) = Some c
               /\ Campaign.status c <> CampaignStatus.sending
               /\ Sql2.delete_campaign cid uid (database w)
                  = (Some cid, database wb)))
  end.
  { intros Hbody.
    apply try_catch_inv in H as [(r&H&->)|(e&w0&H&Hh)];
      apply Hbody in H as (Hw&Hi&Hcases).
    - exists r. do 3 (split; [done|]).
      destruct Hcases as [([(?&?)|(r'&[= <-]&?)]&?)|Hq]; [done| |].
      + by left.
      + right. destruct Hq as (cid&c&[= ->]&?). eauto 10.
    - unfold mret, M_ret in Hh. injection Hh as <- <-.
      eexists. do 3 (split; [done|]). left.
      destruct Hcases as [(_&?)|(?&?&?&_)]; [|done]. simpl. done. }
  clear H. intros ob wb H.
  destruct (parseInt id) as [cid|].
  2:{ unfold mret, M_ret in H. injection H as <- <-.
      do 2 (split; [done|]). left. split; [|done]. right.
      eexists. split; [done|]. simpl. done. }
  assert (forall oc w1,
    db_try E (Sql2.by_id cid (Sql.select_campaign cid uid)) w = (oc, w1) ->
    wire w1 = wire w /\ immediates w1 = immediates w
    /\ database w1 = database w
    /\ ((exists e, oc = Throw e)
        \/ oc = Ok (Sql.select_campaign cid uid (database w)))) as Hfirst.
  { intros oc w1 H1. unfold db_try in H1.
    apply bind_inv in H1 as [(r&w2&H1&H2)|(e&H1&->)];
      apply db_select_inv in H1 as (_&?&?&?&Ho1); [|eauto 10].
    unfold of_outcome in H2. injection H2 as <- <-.
    do 3 (split; [done|]).
    destruct Ho1 as [(?&?)|[= ->]]; [done|]. unfold Sql2.by_id.
    destruct (Sql2.integer cid); eauto. }
  apply bind_inv in H as [(oc&w1&H1&H)|(e&H1&->)];
    apply Hfirst in H1 as (Hw1&Hi1&Hd1&Ho1);
    [|do 2 (split; [done|]); left; split; [left; eauto|done]].
  destruct Ho1 as [(?&?)|[= ->]]; [done|].
  destruct (Sql.select_campaign cid uid (database w)) as [c|] eqn:Hsel.
  2:{ unfold mret, M_ret in H. injection H as <- <-.
      do 2 (split; [done|]). left. split; [|done]. right.
      eexists. split; [done|]. simpl. done. }
  destruct (bool_decide (Campaign.status c = CampaignStatus.sending)) eqn:Hst.
  { unfold mret, M_ret in H. injection H as <- <-.
    do 2 (split; [done|]). left. split; [|done]. right.
    eexists. split; [done|]. simpl. done. }
  apply bool_decide_eq_false in Hst.
  apply bind_inv in H as [(res&w2&H2&H)|(e&H2&->)];
    apply db_query_inv in H2 as (Hc2&Hw2&Hi2&_&Hq2).
  2:{ destruct Hq2 as [(?&_&_&Hd2)|(?&_)]; [|done].
      split; [congruence|]. split; [congruence|]. left.
      split; [left; eauto|congruence]. }
  destruct Hq2 as [(?&?&_)|([= ->]&_&Hd2)]; [done|]. rewrite Hd1 in *.
  destruct (Sql2.delete_campaign cid uid (database w)) as [res d2] eqn:Hdel.
  simpl in *.
  unfold Sql2.delete_campaign in Hdel. rewrite Hsel in Hdel.
  injection Hdel as <- <-. unfold mret, M_ret in H. injection H as <- <-.
  split; [congruence|]. split; [congruence|]. right. exists cid, c.
  do 4 (split; [done|]). unfold Sql2.delete_campaign. rewrite Hsel. by rewrite Hd2.
Qed.

(** X19.  The route that deletes a campaign always answers.  It deletes
    only a campaign of the caller that is not 'sending', and then the
    campaign, its recipients and the log rows of the campaign are gone
    while every other campaign and recipient and the stored
    configurations are as they were; with any other answer than 200 the
    database is as it was. *)
Theorem deletion_is_refused_or_complete E id uid w :
  exists r,
    fst (delete_campaign E id uid w) = Ok r
    /\ (code r <> 200 -> database (snd (delete_campaign E id uid w)) = database w)
    /\ (code r = 200 ->
        exists cid c,
          parseInt id = Some cid
          /\ Sql.select_campaign cid uid (database w) = Some c
          /\ Campaign.status c <> CampaignStatus.sending
          /\ let d' := database (snd (delete_campaign E id uid w)) in
             campaigns d' !! cid = None
             /\ (forall j, j <> cid -> campaigns d' !! j = campaigns (database w) !! j)
             /\ (forall j r',
                   campaign_recipients d' !! j = Some r'
                   <-> campaign_recipients (database w) !! j = Some r'
                       /\ Recipient.campaign_id r' <> cid)
             /\ (forall l, l ∈ email_logs d' ->
                   l ∈ email_logs (database w) /\ EmailLog.campaign_id l <> cid)
             /\ smtp_configs d' = smtp_configs (database w)).
Proof.
  destruct (delete_campaign E id uid w) as [o w'] eqn:H. simpl.
  apply delete_campaign_inv in H as (r&->&_&_&[(Hcode&Hd)|Hdel]).
  - exists r. split; [done|]. split; [done|]. done.
  - destruct Hdel as (cid&c&->&Hid&Hsel&Hst&Hdel). eexists.
    split; [done|]. split; [done|]. intros _. exists cid, c.
    do 3 (split; [done|]). cbv zeta.
    unfold Sql2.delete_campaign in Hdel. rewrite Hsel in Hdel.
    injection Hdel as <-. simpl.
    split; [apply lookup_delete_eq|]. split; [intros j Hj; by apply lookup_delete_ne|].
    split; [|split; [|done]].
    + intros j r'. rewrite map_lookup_filter_Some. done.
    + intros l Hl. apply list_elem_of_filter in Hl as [[? _] ?]. done.
Qed.

Lemma alter_absent {A} (f : A -> A) i (m : gmap Z A) :
  m !! i = None -> alter f i m = m.
Proof.
  intros Hi. apply map_eq. intros j. destruct (decide (i = j)) as [->|Hne].
  - by rewrite lookup_alter_eq, Hi.
  - by rewrite lookup_alter_ne.
Qed.

(** X20.  After a campaign was deleted, a run for it, such as the one of
    a callback queued before the deletion, is rejected with 'Campaign not
    found' and does nothing: nothing is handed to the mail server and the
    database is as the deletion left it; and the triggering call answers
    404 for it. *)
Theorem run_after_deletion_does_nothing E id cid uid w r w1 :
  reliable E ->
  delete_campaign E id uid w = (Ok r, w1) ->
  code r = 200 ->
  parseInt id = Some cid ->
  fst (sendCampaign E cid uid w1) = Throw "Campaign not found"
  /\ database (snd (sendCampaign E cid uid w1)) = database w1
  /\ wire (snd (sendCampaign E cid uid w1)) = wire w1
  /\ exists resp,
       fst (post_send E (Some cid) uid w1) = Ok resp /\ http_status resp = 404.
Proof.
  intros Hrel Hdel H200 Hid.
  apply delete_campaign_inv in Hdel as (r'&[= <-]&_&_&[(?&_)|Hdel]); [done|].
  destruct Hdel as (cid'&c&_&Hid'&Hsel&_&Hdel).
  rewrite Hid in Hid'. injection Hid' as <-.
  assert (campaigns (database w1) !! cid = None) as Hgone.
  { unfold Sql2.delete_campaign in Hdel. rewrite Hsel in Hdel.
    injection Hdel as <-. apply lookup_delete_eq. }
  assert (Sql.select_campaign cid uid (database w1) = None) as Hnone.
  { unfold Sql.select_campaign. by rewrite Hgone. }
  split; [|split; [|split]].
  - unfold sendCampaign, dispatch, updateCampaignStatus. unfold_monad.
    run_queries Hrel. rewrite Hnone. simpl. run_queries Hrel. done.
  - unfold sendCampaign, dispatch, updateCampaignStatus. unfold_monad.
    run_queries Hrel. rewrite Hnone. simpl. run_queries Hrel.
    unfold Sql.update_status, set_campaigns. rewrite alter_absent by done.
    by destruct (database w1).
  - unfold sendCampaign, dispatch, updateCampaignStatus. unfold_monad.
    run_queries Hrel. rewrite Hnone. simpl. run_queries Hrel. done.
  - eexists. unfold post_send. unfold_monad. run_queries Hrel.
    rewrite Hnone. simpl. split; reflexivity.
Qed.

Lemma run_after_deletion_does_nothing_witness :
  let gone := snd (delete_campaign Demo.refuse_second "1" 7 Demo.queued) in
  reliable Demo.refuse_second
  /\ delete_campaign Demo.refuse_second "1" 7 Demo.queued
     = (Ok (mkReply 200 (Deleted "Campaign deleted successfully" 1)), gone)
  /\ code (mkReply 200 (Deleted "Campaign deleted successfully" 1)) = 200
  /\ parseInt "1" = Some 1
  /\ fst (sendCampaign Demo.refuse_second 1 7 gone) = Throw "Campaign not found"
  /\ database (snd (sendCampaign Demo.refuse_second 1 7 gone)) = database gone
  /\ wire (snd (sendCampaign Demo.refuse_second 1 7 gone)) = wire gone
  /\ exists resp,
       fst (post_send Demo.refuse_second (Some 1) 7 gone) = Ok resp
       /\ http_status resp = 404.
Proof.
  cbv zeta. split; [intros n; reflexivity|]. split; [by vm_compute|].
  split; [reflexivity|]. split; [reflexivity|].
  apply (run_after_deletion_does_nothing Demo.refuse_second "1" 1 7 Demo.queued
           (mkReply 200 (Deleted "Campaign deleted successfully" 1))).
  - intros n. reflexivity.
  - by vm_compute.
  - reflexivity.
  - reflexivity.
Defined.

(* ===================================================================== *)
(** * Recent activity *)
(* ===================================================================== *)

#[local] Instance later_campaign_trans : Transitive Sql2.later_campaign.
Proof. intros x y z. unfold Sql2.later_campaign. lia. Qed.

#[local] Instance later_campaign_total : Total Sql2.later_campaign.
Proof. intros x y. unfold Sql2.later_campaign. lia. Qed.

(** X21.  The recent activity of a user lists campaigns of that user
    only, each one once, the latest update first, with the status, the
    progress and the time of the row; it lists [limit] of them, or all of
    them when they are fewer, and a [limit] that is negative or beyond
    the range of the database is an error. *)
Theorem recent_activity_is_the_users_latest E fl uid limit w rows w' :
  getRecentActivity E fl uid limit w = (Ok rows, w') ->
  0 <= limit <= 9223372036854775807
  /\ length rows
     = Nat.min (Z.to_nat limit)
         (length (filter (fun row => Campaign.user_id (snd row) = uid)
                    (map_to_list (campaigns (database w)))))
  /\ Forall (fun a =>
               exists c,
                 campaigns (database w) !! Activity.campaign_id a = Some c
                 /\ Campaign.user_id c = uid
                 /\ a = Activity.mk (Activity.campaign_id a) (Campaign.name c)
                          (Campaign.status c) (progress_percentage fl c)
                          (Campaign.updated_at c)) rows
  /\ StronglySorted
       (fun a b => Activity.last_updated b <= Activity.last_updated a) rows
  /\ NoDup (Activity.campaign_id <$> rows)
  /\ database w' = database w.
Proof.
  unfold getRecentActivity, db_try. intros H.
  apply try_catch_inv in H as [(a&H&[= <-])|(e&w0&_&H)]; [|done].
  apply bind_inv in H as [(l&w1&H1&H)|(e&_&?)]; [|done].
  unfold mret, M_ret in H. injection H as <- <-.
  apply bind_inv in H1 as [(res&w2&H2&H1)|(e&_&?)]; [|done].
  apply db_select_inv in H2 as (_&_&_&Hd&[(?&?)|[= ->]]); [done|].
  unfold of_outcome in H1. injection H1 as Hres <-.
  unfold Sql2.recent_campaigns, Sql2.limit in Hres.
  destruct (Z.ltb_spec limit 0) as [|Hlimit]; [done|].
  destruct (Z.ltb_spec 9223372036854775807 limit) as [|Hbig]; [done|].
  injection Hres as <-.
  set (mine := filter (fun row : Z * Campaign.t => Campaign.user_id (snd row) = uid)
                 (map_to_list (campaigns (database w)))).
  split; [done|]. split; [|split; [|split; [|split; [|done]]]].
  - rewrite length_fmap, length_take. f_equal.
    apply Permutation_length, merge_sort_Permutation.
  - apply Forall_fmap, Forall_forall. intros [j c] Hin. simpl.
    apply subseteq_take in Hin. rewrite merge_sort_Permutation in Hin.
    apply list_elem_of_filter in Hin as [Hu Hin]. simpl in Hu.
    apply elem_of_map_to_list in Hin. exists c. done.
  - apply (StronglySorted_fmap _ Sql2.later_campaign).
    + intros x y Hxy. exact Hxy.
    + eapply (StronglySorted_app_1_l _ _ (drop (Z.to_nat limit) _)).
      rewrite take_drop. apply (StronglySorted_merge_sort _).
  - rewrite <- list_fmap_compose.
    eapply sublist_NoDup; [|apply fmap_sublist, sublist_take].
    rewrite merge_sort_Permutation.
    eapply sublist_NoDup;
      [apply (NoDup_fst_map_to_list (campaigns (database w)))|].
    apply fmap_sublist, sublist_filter.
Qed.

Lemma recent_activity_is_the_users_latest_witness :
  let run := getRecentActivity Demo.refuse_second unrounded 7 10
               Demo.completed in
  let rows := [Activity.mk 1 "Launch" CampaignStatus.completed 100 0] in
  run = (Ok rows, snd run)
  /\ 0 <= 10 <= 9223372036854775807
  /\ length rows
     = Nat.min (Z.to_nat 10)
         (length (filter (fun row : Z * Campaign.t => Campaign.user_id (snd row) = 7)
                    (map_to_list (campaigns (database Demo.completed)))))
  /\ Forall (fun a =>
               exists c,
                 campaigns (database Demo.completed) !! Activity.campaign_id a
                 = Some c
                 /\ Campaign.user_id c = 7
                 /\ a = Activity.mk (Activity.campaign_id a) (Campaign.name c)
                          (Campaign.status c) (progress_percentage unrounded c)
                          (Campaign.updated_at c)) rows
  /\ StronglySorted
       (fun a b => Activity.last_updated b <= Activity.last_updated a) rows
  /\ NoDup (Activity.campaign_id <$> rows)
  /\ database (snd run) = database Demo.completed.
Proof.
  cbv zeta. split; [by vm_compute|].
  apply (recent_activity_is_the_users_latest Demo.refuse_second unrounded 7 10
           Demo.completed).
  by vm_compute.
Defined.

(* ===================================================================== *)
(** * Patterns *)
(* ===================================================================== *)

Section Patterns.

#[local] Arguments String.append !s1 s2 /.

Lemma app_nil_r_s s : s +:+ "" = s.
Proof. induction s; simpl; congruence. Qed.

Lemma app_assoc_s s1 s2 s3 : (s1 +:+ s2) +:+ s3 = s1 +:+ s2 +:+ s3.
Proof. induction s1; simpl; congruence. Qed.

Lemma app_eq_nil_s s1 s2 : s1 +:+ s2 = "" -> s1 = "" /\ s2 = "".
Proof. destruct s1; simpl; [done|discriminate]. Qed.

Lemma nullable_spec r : Re.nullable r = true <-> Re.lang r "".
Proof.
  split.
  - induction r; simpl; try done.
    + constructor.
    + intros [H1 H2]%andb_true_iff.
      change "" with ("" +:+ ""). constructor; auto.
    + intros [H|H]%orb_true_iff; [apply Re.lang_alt_l|apply Re.lang_alt_r]; auto.
    + constructor.
  - intros H. remember "" as s eqn:Hs. induction H; simpl; try done.
    + apply app_eq_nil_s in Hs as [-> ->]. rewrite IHlang1, IHlang2; done.
    + rewrite IHlang by done. done.
    + rewrite IHlang by done. apply orb_true_r.
Qed.

Lemma lang_void s : ~ Re.lang Re.Void s.
Proof. intros H. inversion H. Qed.

Lemma lang_eps_inv s : Re.lang Re.Eps s -> s = "".
Proof. intros H. by inversion H. Qed.

Lemma lang_cat_inv r1 r2 s :
  Re.lang (Re.Cat r1 r2) s ->
  exists s1 s2, s = s1 +:+ s2 /\ Re.lang r1 s1 /\ Re.lang r2 s2.
Proof. intros H. inversion H; subst. eauto. Qed.

Lemma lang_alt_inv r1 r2 s :
  Re.lang (Re.Alt r1 r2) s -> Re.lang r1 s \/ Re.lang r2 s.
Proof. intros H. inversion H; subst; auto. Qed.

Lemma lang_class_inv p s :
  Re.lang (Re.Class p) s -> exists c, s = String c "" /\ p c = true.
Proof. intros H. inversion H; subst. eauto. Qed.

Lemma lang_cat_eps r s : Re.lang r s -> Re.lang (Re.Cat Re.Eps r) s.
Proof. intros H. exact (Re.lang_cat Re.Eps r "" s Re.lang_eps H). Qed.

Lemma cat_spec r1 r2 s : Re.lang (Re.cat r1 r2) s <-> Re.lang (Re.Cat r1 r2) s.
Proof.
  split.
  - destruct r1, r2; simpl; try done;
      try (intros H; by apply lang_void in H);
      apply lang_cat_eps.
  - intros (s1&s2&->&H1&H2)%lang_cat_inv.
    destruct r1 as [| |p|r11 r12|r11 r12|r11].
    + by apply lang_void in H1.
    + pose proof (lang_eps_inv _ H1) as Hnil. subst s1.
      destruct r2; try (by apply lang_void in H2); exact H2.
    + destruct r2; try (by apply lang_void in H2); by constructor.
    + destruct r2; try (by apply lang_void in H2); by constructor.
    + destruct r2; try (by apply lang_void in H2); by constructor.
    + destruct r2; try (by apply lang_void in H2); by constructor.
Qed.

Lemma alt_spec r1 r2 s : Re.lang (Re.alt r1 r2) s <-> Re.lang (Re.Alt r1 r2) s.
Proof.
  split.
  - destruct r1, r2; simpl; try done; intros H;
      try (by apply Re.lang_alt_r); try (by apply Re.lang_alt_l).
  - intros [H|H]%lang_alt_inv.
    + destruct r1; try (by apply lang_void in H);
        destruct r2; simpl; try done; by apply Re.lang_alt_l.
    + destruct r2; try (by apply lang_void in H);
        destruct r1; simpl; try done; by apply Re.lang_alt_r.
Qed.

Lemma lang_star_cons_inv r c s :
  Re.lang (Re.Star r) (String c s) ->
  exists s1 s2, s = s1 +:+ s2 /\ Re.lang r (String c s1) /\ Re.lang (Re.Star r) s2.
Proof.
  intros H. remember (Re.Star r) as r0 eqn:Hr. remember (String c s) as s0 eqn:Hs.
  revert Hr Hs. induction H; intros Hr Hs; try done.
  injection Hr as ->. destruct s1 as [|c1 s1].
  - simpl in Hs. by apply IHlang2.
  - simpl in Hs. injection Hs as -> <-. eauto.
Qed.

Lemma deriv_spec r : forall c s,
  Re.lang (Re.deriv c r) s <-> Re.lang r (String c s).
Proof.
  induction r as [| |p|r1 IH1 r2 IH2|r1 IH1 r2 IH2|r IH]; intros c s; simpl.
  - split; intros H; by apply lang_void in H.
  - split; intros H; [by apply lang_void in H|by apply lang_eps_inv in H].
  - destruct (p c) eqn:Hp; split; intros H.
    + apply lang_eps_inv in H as ->. by constructor.
    + apply lang_class_inv in H as (c'&[= <- ->]&_). constructor.
    + by apply lang_void in H.
    + apply lang_class_inv in H as (c'&[= <- ->]&?). congruence.
  - assert (Re.lang (Re.cat (Re.deriv c r1) r2) s
            <-> exists s1 s2, s = s1 +:+ s2 /\ Re.lang r1 (String c s1)
                              /\ Re.lang r2 s2) as Hleft.
    { rewrite cat_spec. split.
      - intros (s1&s2&->&H1&H2)%lang_cat_inv. apply IH1 in H1. eauto.
      - intros (s1&s2&->&H1&H2). constructor; [by apply IH1|done]. }
    assert (Re.lang (Re.Cat r1 r2) (String c s)
            <-> (exists s1 s2, s = s1 +:+ s2 /\ Re.lang r1 (String c s1)
                               /\ Re.lang r2 s2)
                \/ (Re.lang r1 "" /\ Re.lang r2 (String c s))) as Hcat.
    { split.
      - intros (s1&s2&Hs&H1&H2)%lang_cat_inv. destruct s1 as [|c1 s1].
        + simpl in Hs. subst s2. auto.
        + simpl in Hs. injection Hs as <- ->. left. eauto.
      - intros [(s1&s2&->&H1&H2)|[H1 H2]].
        + change (String c (s1 +:+ s2)) with (String c s1 +:+ s2).
          by constructor.
        + change (String c s) with ("" +:+ String c s). by constructor. }
    rewrite Hcat. destruct (Re.nullable r1) eqn:Hn.
    + rewrite alt_spec. apply nullable_spec in Hn. split.
      * intros [H|H]%lang_alt_inv; [left; by apply Hleft|right].
        split; [done|by apply IH2].
      * intros [H|[_ H]]; [apply Re.lang_alt_l; by apply Hleft|].
        apply Re.lang_alt_r. by apply IH2.
    + rewrite Hleft. split; [auto|]. intros [H|[H _]]; [done|].
      apply nullable_spec in H. congruence.
  - rewrite alt_spec. split.
    + intros [H|H]%lang_alt_inv;
        [apply Re.lang_alt_l; by apply IH1|apply Re.lang_alt_r; by apply IH2].
    + intros [H|H]%lang_alt_inv;
        [apply Re.lang_alt_l; by apply IH1|apply Re.lang_alt_r; by apply IH2].
  - rewrite cat_spec. split.
    + intros (s1&s2&->&H1&H2)%lang_cat_inv. apply IH in H1.
      change (String c (s1 +:+ s2)) with (String c s1 +:+ s2). by constructor.
    + intros (s1&s2&->&H1&H2)%lang_star_cons_inv.
      constructor; [by apply IH|done].
Qed.

(** [test] decides the texts of a pattern. *)
Lemma test_spec s : forall r, Re.test r s = true <-> Re.lang r s.
Proof.
  induction s as [|c s IH]; intros r; simpl.
  - apply nullable_spec.
  - rewrite IH. apply deriv_spec.
Qed.

Lemma lang_closed (f : ascii -> ascii) (g : string -> string) r s :
  g "" = "" -> (forall c s, g (String c s) = String (f c) (g s)) ->
  ReFacts.closed f r -> Re.lang r s -> Re.lang r (g s).
Proof.
  intros Hnil Hcons Hr H.
  assert (forall s1 s2, g (s1 +:+ s2) = g s1 +:+ g s2) as Happ.
  { intros s1 s2. induction s1 as [|c s1 IH]; simpl.
    - by rewrite Hnil.
    - rewrite !Hcons, IH. done. }
  induction H; simpl in Hr; rewrite ?Happ, ?Hcons, ?Hnil.
  - apply Re.lang_eps.
  - apply Re.lang_class. auto.
  - destruct Hr. apply Re.lang_cat; auto.
  - destruct Hr. apply Re.lang_alt_l. auto.
  - destruct Hr. apply Re.lang_alt_r. auto.
  - apply Re.lang_star_nil.
  - apply Re.lang_star_cons; auto.
Qed.

Lemma all_app p s1 s2 : Str.all p (s1 +:+ s2) = Str.all p s1 && Str.all p s2.
Proof. induction s1; simpl; [done|]. rewrite IHs1. by rewrite andb_assoc. Qed.

Lemma lang_alphabet r s : Re.lang r s -> Str.all (ReFacts.alphabet r) s = true.
Proof.
  assert (forall (p q : ascii -> bool) s,
            (forall c, p c = true -> q c = true) ->
            Str.all p s = true -> Str.all q s = true) as Hmono.
  { intros p q s0 Hpq. induction s0; simpl; [done|].
    intros [? ?]%andb_true_iff. rewrite Hpq, IHs0; done. }
  induction 1; simpl; rewrite ?all_app; try done.
  - by rewrite H.
  - apply andb_true_iff. split.
    + eapply Hmono; [|exact IHlang1]. intros c ->. done.
    + eapply Hmono; [|exact IHlang2]. intros c ->. apply orb_true_r.
  - eapply Hmono; [|exact IHlang]. intros c ->. done.
  - eapply Hmono; [|exact IHlang]. intros c ->. apply orb_true_r.
  - apply andb_true_iff. split; [|done].
    eapply Hmono; [|exact IHlang1]. intros c Hc. exact Hc.
Qed.

End Patterns.

(* ===================================================================== *)
(** * Addresses *)
(* ===================================================================== *)

Section Addresses.

#[local] Arguments String.append !s1 s2 /.

Ltac each_ascii c :=
  destruct c as [[] [] [] [] [] [] [] []]; vm_compute; try done; auto.

Lemma alnum_lower c : Csv.alnum c = true -> Csv.alnum (Text.lower c) = true.
Proof. each_ascii c. Qed.

Lemma local_char_lower c :
  Csv.local_char c = true -> Csv.local_char (Text.lower c) = true.
Proof. each_ascii c. Qed.

Lemma alnum_hyphen_lower c :
  Csv.alnum_hyphen c = true -> Csv.alnum_hyphen (Text.lower c) = true.
Proof. each_ascii c. Qed.

Lemma at_lower c : Ascii.eqb "@" c = true -> Ascii.eqb "@" (Text.lower c) = true.
Proof. each_ascii c. Qed.

Lemma dot_lower c : Ascii.eqb "." c = true -> Ascii.eqb "." (Text.lower c) = true.
Proof. each_ascii c. Qed.

Lemma lower_lower c : Text.lower (Text.lower c) = Text.lower c.
Proof. each_ascii c. Qed.

Lemma local_char_safe c :
  Csv.local_char c = true \/ Ascii.eqb "@" c = true \/ domain_char c = true ->
  breaks_a_header c = false.
Proof. each_ascii c; intros [?|[?|?]]; done. Qed.

Lemma closed_UpTo f n r : ReFacts.closed f r -> ReFacts.closed f (Re.UpTo n r).
Proof. intros Hr. induction n; simpl; auto. Qed.

Lemma closed_label : ReFacts.closed Text.lower Csv.label.
Proof.
  unfold Csv.label, Re.Opt.
  split; [exact alnum_lower|]. split; [done|]. split; [|exact alnum_lower].
  apply closed_UpTo. exact alnum_hyphen_lower.
Qed.

Lemma closed_EMAIL_REGEX : ReFacts.closed Text.lower Csv.EMAIL_REGEX.
Proof.
  unfold Csv.EMAIL_REGEX, Re.Plus.
  split; [split; exact local_char_lower|]. split; [exact at_lower|].
  split; [exact closed_label|]. split; [exact dot_lower|exact closed_label].
Qed.

Lemma toLowerCase_idem s : Text.toLowerCase (Text.toLowerCase s) = Text.toLowerCase s.
Proof. induction s; simpl; [done|]. by rewrite lower_lower, IHs. Qed.

Lemma toLowerCase_length s : String.length (Text.toLowerCase s) = String.length s.
Proof. induction s; simpl; congruence. Qed.

(** The pattern of addresses holds the lower case of what it holds. *)
Lemma test_toLowerCase s :
  Re.test Csv.EMAIL_REGEX s = true ->
  Re.test Csv.EMAIL_REGEX (Text.toLowerCase s) = true.
Proof.
  rewrite !test_spec.
  apply (lang_closed Text.lower Text.toLowerCase); auto using closed_EMAIL_REGEX.
Qed.

Lemma alphabet_UpTo n r c :
  ReFacts.alphabet (Re.UpTo n r) c = true -> ReFacts.alphabet r c = true.
Proof.
  induction n; simpl; [done|]. intros [H|H]%orb_true_iff; [done|auto].
Qed.

Lemma all_impl (p q : ascii -> bool) s :
  (forall c, p c = true -> q c = true) -> Str.all p s = true -> Str.all q s = true.
Proof.
  intros Hpq. induction s; simpl; [done|].
  intros [? ?]%andb_true_iff. rewrite Hpq, IHs; done.
Qed.

Lemma alphabet_label c :
  ReFacts.alphabet Csv.label c = true -> domain_char c = true.
Proof.
  unfold Csv.label, Re.Opt. cbn [ReFacts.alphabet]. rewrite orb_false_l.
  intros [H|[H|H]%orb_true_iff]%orb_true_iff; unfold domain_char.
  - by rewrite H.
  - apply alphabet_UpTo in H. simpl in H. unfold Csv.alnum_hyphen in H.
    apply orb_true_iff in H as [->| ->]; [done|]. by rewrite orb_true_r.
  - by rewrite H.
Qed.

(** A label begins and ends with a letter or a digit. *)
Lemma label_ends s :
  Re.lang Csv.label s ->
  (exists c rest, s = String c rest /\ Csv.alnum c = true)
  /\ (exists front c, s = front +:+ String c "" /\ Csv.alnum c = true).
Proof.
  unfold Csv.label, Re.Opt.
  intros (s1&s2&->&(c&->&Hc)%lang_class_inv&H2)%lang_cat_inv.
  split; [simpl; eauto|].
  apply lang_alt_inv in H2 as [->%lang_eps_inv|H2].
  - exists "", c. done.
  - apply lang_cat_inv in H2 as (s3&s4&->&_&(c'&->&Hc')%lang_class_inv).
    exists (String c s3), c'. done.
Qed.

Lemma domain_ends s :
  Re.lang (Re.Cat Csv.label
             (Re.Star (Re.Cat (Re.Class (Ascii.eqb ".")) Csv.label))) s ->
  (exists c rest, s = String c rest /\ Csv.alnum c = true)
  /\ (exists front c, s = front +:+ String c "" /\ Csv.alnum c = true).
Proof.
  intros (s1&s2&->&H1&H2)%lang_cat_inv.
  apply label_ends in H1 as [(c&rest&->&Hc) Hlast]. split; [simpl; eauto|].
  assert (forall r t, Re.lang r t ->
            r = Re.Star (Re.Cat (Re.Class (Ascii.eqb ".")) Csv.label) ->
            t = "" \/ exists front c, t = front +:+ String c ""
                                      /\ Csv.alnum c = true) as Hstar.
  { intros r t Ht.
    induction Ht as [ |p0 c0 Hp|r1 r2 u1 u2 Hu1 IH1 Hu2 IH2|r1 r2 u Hu IH
                    |r1 r2 u Hu IH|r0|r0 u1 u2 Hu1 IH1 Hu2 IH2];
      intros Hr; try done.
    - by left.
    - injection Hr as ->. right.
      destruct (IH2 eq_refl) as [->|(front&c2&->&Hc2)].
      + apply lang_cat_inv in Hu1 as (t1&t2&->&_&Hl).
        apply label_ends in Hl as [_ (front&c2&->&Hc2)].
        exists (t1 +:+ front), c2. by rewrite app_nil_r_s, app_assoc_s.
      + exists (u1 +:+ front), c2. by rewrite app_assoc_s. }
  destruct (Hstar _ _ H2 eq_refl) as [->|(front&c2&->&Hc2)].
  - rewrite app_nil_r_s. done.
  - destruct Hlast as (front1&c1&Heq&_). rewrite Heq.
    exists ((front1 +:+ String c1 "") +:+ front), c2. by rewrite !app_assoc_s.
Qed.

End Addresses.

(** X22.  An address that [isValidEmail] accepts has at most 255
    characters and reads local@domain: a local part that is not empty,
    made of letters, digits and .!#$%&'*+/=?^_`{|}~- ; one @; a domain of
    letters, digits, hyphens and dots that begins and ends with a letter
    or a digit.  So no character of it is white space, a control
    character, a quote, a comma, a colon, a semicolon or an angle
    bracket. *)
Theorem valid_address_shape s :
  Csv.isValidEmail (JString s) = true ->
  Csv.length s <= 255
  /\ Str.all (fun c => negb (breaks_a_header c)) s = true
  /\ exists local domain,
       s = local +:+ "@" +:+ domain
       /\ local <> ""
       /\ Str.all Csv.local_char local = true
       /\ Str.all domain_char domain = true
       /\ (exists c rest, domain = String c rest /\ Csv.alnum c = true)
       /\ (exists front c, domain = front +:+ String c "" /\ Csv.alnum c = true).
Proof.
  unfold Csv.isValidEmail. destruct (String.eqb s ""); [done|].
  destruct (Z.ltb_spec 255 (Csv.length s)); [done|]. intros Htest.
  split; [done|]. apply test_spec in Htest. unfold Csv.EMAIL_REGEX in Htest.
  apply lang_cat_inv in Htest as (local&rest&->&Hlocal&Hrest).
  apply lang_cat_inv in Hrest as (at_&domain&->&(c&->&Hat)%lang_class_inv&Hdomain).
  assert (c = "@"%char) as -> by (by apply Ascii.eqb_eq in Hat).
  assert (Str.all Csv.local_char local = true) as Hall.
  { apply lang_alphabet in Hlocal. eapply all_impl; [|exact Hlocal].
    cbn [ReFacts.alphabet Re.Plus]. intros c. by rewrite orb_diag. }
  assert (Str.all domain_char domain = true) as Hdom.
  { apply lang_alphabet in Hdomain. eapply all_impl; [|exact Hdomain].
    cbn [ReFacts.alphabet]. intros c [H1|[H1|H1]%orb_true_iff]%orb_true_iff.
    - by apply alphabet_label.
    - unfold domain_char. apply Ascii.eqb_eq in H1 as <-. done.
    - by apply alphabet_label. }
  split.
  - rewrite all_app. apply andb_true_iff. split.
    + eapply all_impl; [|exact Hall]. intros c Hc.
      rewrite local_char_safe; auto.
    + change ("@" +:+ domain) with (String "@" domain). cbn [Str.all].
      apply andb_true_iff. split; [reflexivity|].
      eapply all_impl; [|exact Hdom]. intros c Hc.
      rewrite local_char_safe; auto.
  - exists local, domain. split; [done|]. split.
    + unfold Re.Plus in Hlocal.
      apply lang_cat_inv in Hlocal as (l1&l2&->&(c&->&_)%lang_class_inv&_).
      done.
    + do 2 (split; [done|]). by apply domain_ends.
Qed.

Lemma valid_address_shape_witness :
  Csv.isValidEmail (JString "ana@example.com") = true
  /\ Csv.length "ana@example.com" <= 255
  /\ Str.all (fun c => negb (breaks_a_header c)) "ana@example.com" = true
  /\ exists local domain,
       "ana@example.com" = local +:+ "@" +:+ domain
       /\ local <> ""
       /\ Str.all Csv.local_char local = true
       /\ Str.all domain_char domain = true
       /\ (exists c rest, domain = String c rest /\ Csv.alnum c = true)
       /\ (exists front c, domain = front +:+ String c "" /\ Csv.alnum c = true).
Proof.
  split; [reflexivity|].
  apply (valid_address_shape "ana@example.com"). reflexivity.
Defined.

(* ===================================================================== *)
(** * Recipient files *)
(* ===================================================================== *)

Section Recipients.

Lemma address_eq record :
  (if falsy (Obj.get "email" record) then ""
   else Text.trim (or_empty (Obj.get "email" record))) = address record.
Proof.
  unfold address. destruct (Obj.get "email" record) as [| |s]; simpl; try done.
  destruct (string_dec s "") as [->|]; done.
Qed.

Lemma prefix_length n s : (String.length (Csv.prefix n s) <= n)%nat.
Proof.
  unfold Csv.prefix. revert s. induction n; intros [|c s]; simpl; try lia.
  specialize (IHn s). lia.
Qed.

Lemma isValidEmail_true e :
  Csv.isValidEmail (JString e) = true
  <-> String.eqb e "" = false /\ (255 <? Csv.length e) = false
      /\ Re.test Csv.EMAIL_REGEX e = true.
Proof.
  unfold Csv.isValidEmail.
  destruct (String.eqb e ""), (255 <? Csv.length e); intuition congruence.
Qed.

Lemma isValidEmail_toLowerCase e :
  Csv.isValidEmail (JString e) = true ->
  Csv.isValidEmail (JString (Text.toLowerCase e)) = true.
Proof.
  rewrite !isValidEmail_true. intros (Hne&Hlen&Htest). split; [|split].
  - destruct e; [done|]. done.
  - unfold Csv.length in *. by rewrite toLowerCase_length.
  - by apply test_toLowerCase.
Qed.

Lemma Forall_set (P : string * jsval -> Prop) k v o :
  P (k, v) -> Forall P o -> Forall P (Obj.set k v o).
Proof.
  intros Hkv. induction 1 as [|[k' v'] o Hhd Htl IH]; simpl.
  - by constructor.
  - destruct (String.eqb k k'); constructor; auto.
Qed.

Lemma extractRecipientCustomFields_clean record :
  Forall clean_field (Csv.extractRecipientCustomFields record).
Proof.
  unfold Csv.extractRecipientCustomFields.
  generalize (Obj.entries record).
  assert (forall l acc, Forall clean_field acc ->
    Forall clean_field
      (fold_left
         (fun customFields kv =>
            if negb (String.eqb (fst kv) "email") && negb (String.eqb (fst kv) "name")
            then Csv.assign (fst kv)
                   (if falsy (snd kv) then JString ""
                    else JString (Csv.prefix Csv.MAX_FIELD_LENGTH (or_empty (snd kv))))
                   customFields
            else customFields) l acc)) as Hfold.
  { induction l as [|[k v] l IH]; intros acc Hacc; simpl; [done|].
    apply IH.
    destruct (String.eqb k "email") eqn:He; simpl; [done|].
    destruct (String.eqb k "name") eqn:Hn; simpl; [done|].
    unfold Csv.assign. destruct (String.eqb k "__proto__"); [done|].
    apply Forall_set; [|done].
    apply String.eqb_neq in He, Hn. split; [done|]. split; [done|]. simpl.
    destruct (falsy v).
    - exists "". split; [done|]. simpl. lia.
    - eexists. split; [done|]. apply prefix_length. }
  intros l. apply Hfold. constructor.
Qed.

(** What one turn of the loop does. *)
Lemma validate_record_cases i record s :
  (Csv.isValidEmail (JString (address record)) = false
   /\ exists message value,
        Csv.validate_record i record s
        = Csv.error_at (Z.of_nat i + 2) message value s
        /\ String.eqb message "Duplicate email address" = false)
  \/ (Csv.isValidEmail (JString (address record)) = true
      /\ (stored_address record ∈ Csv.seenEmails s)
      /\ Csv.validate_record i record s
         = Csv.mkState
             (Csv.st_errors s
                ++ [Csv.mkIssue (Some (Z.of_nat i + 2)) (Some "email")
                      "Duplicate email address" (Some (address record))])
             (Csv.st_warnings s) (Csv.validRecipients s) (Csv.seenEmails s)
             (Csv.duplicateCount s + 1))
  \/ (Csv.isValidEmail (JString (address record)) = true
      /\ (stored_address record ∉ Csv.seenEmails s)
      /\ exists name ws,
           Csv.validate_record i record s
           = Csv.mkState (Csv.st_errors s) (Csv.st_warnings s ++ ws)
               (Csv.validRecipients s
                  ++ [Csv.mkRecipient (stored_address record)
                        (Csv.prefix 255 name)
                        (Csv.extractRecipientCustomFields record)])
               ({[ stored_address record ]} ∪ Csv.seenEmails s)
               (Csv.duplicateCount s)).
Proof.
  unfold Csv.validate_record, stored_address. cbv zeta. rewrite address_eq.
  unfold Csv.isValidEmail.
  destruct (String.eqb (address record) "");
    [left; split; [done|]; by do 2 eexists|].
  destruct (255 <? Csv.length (address record));
    [left; split; [done|]; by do 2 eexists|].
  destruct (Re.test Csv.EMAIL_REGEX (address record)); simpl;
    [|left; split; [done|]; by do 2 eexists].
  right. destruct (bool_decide _) eqn:Hseen.
  - left. apply bool_decide_eq_true in Hseen. done.
  - right. apply bool_decide_eq_false in Hseen. do 2 (split; [done|]). eauto.
Qed.

(** What the loop adds to the variables of [validateRecipients], from
    the record at [i] on. *)
Lemma forEach_spec records : forall i s,
  exists new_errors new_warnings new_recipients,
    Csv.forEach i records s
    = Csv.mkState (Csv.st_errors s ++ new_errors)
        (Csv.st_warnings s ++ new_warnings)
        (Csv.validRecipients s ++ new_recipients)
        (list_to_set (Csv.email <$> new_recipients) ∪ Csv.seenEmails s)
        (Csv.duplicateCount s
           + Z.of_nat (List.length (List.filter is_duplicate new_errors)))
    /\ (List.length new_errors + List.length new_recipients
        = List.length records)%nat
    /\ Forall (fun e => Csv.field e = Some "email") new_errors
    /\ (exists rows,
          Csv.row <$> new_errors = Some <$> rows
          /\ StronglySorted Z.lt rows
          /\ Forall (fun r => Z.of_nat i + 2 <= r
                              < Z.of_nat i + 2 + Z.of_nat (List.length records))
               rows)
    /\ Forall clean new_recipients
    /\ NoDup (Csv.email <$> new_recipients)
    /\ (forall x,
          x ∈ Csv.email <$> new_recipients
          <-> (x ∉ Csv.seenEmails s)
              /\ exists record,
                   record ∈ records
                   /\ Csv.isValidEmail (JString (address record)) = true
                   /\ x = stored_address record)
    /\ (Csv.email <$> new_recipients) `sublist_of` (stored_address <$> records).
Proof.
  induction records as [|record records IH]; intros i s.
  { exists [], [], []. simpl. rewrite !app_nil_r, Z.add_0_r.
    split; [|split; [done|]; split; [done|]; split;
      [exists []; split; [done|]; split; constructor|]].
    - destruct s; simpl. f_equal. by rewrite (left_id_L ∅ (∪)).
    - split; [constructor|]. split; [constructor|]. split; [|done].
      intros x. split; [by intros ?%elem_of_nil|].
      by intros (_&?&?%elem_of_nil&_). }
  simpl Csv.forEach.
  destruct (IH (S i) (Csv.validate_record i record s))
    as (ne&nw&nr&Hrun&Hcount&Hfield&(rows&Hrows&Hsorted&Hbounds)&Hclean&Hnodup
        &Hmem&Hsub).
  assert (Hrows' : Forall (Z.lt (Z.of_nat i + 2)) rows).
  { eapply Forall_impl; [exact Hbounds|]. simpl. intros r ?. lia. }
  assert (Hbounds' :
    Forall (fun r => Z.of_nat i + 2 <= r
                     < Z.of_nat i + 2 + Z.of_nat (List.length (record :: records)))
      rows).
  { eapply Forall_impl; [exact Hbounds|]. simpl. intros r ?. lia. }
  destruct (validate_record_cases i record s)
    as [(Hbad&message&value&Hstep&Hmsg)
       |[(Hgood&Hseen&Hstep)|(Hgood&Hseen&name&ws&Hstep)]];
    rewrite Hstep in Hrun, Hmem |- *; simpl in Hrun, Hmem.
  - (* the record is reported *)
    exists (Csv.mkIssue (Some (Z.of_nat i + 2)) (Some "email") message (Some value)
            :: ne), nw, nr.
    split.
    { rewrite Hrun. unfold is_duplicate at 2. simpl. rewrite Hmsg.
      by rewrite <- app_assoc. }
    split; [simpl; lia|]. split; [by constructor|].
    split.
    { exists ((Z.of_nat i + 2) :: rows). rewrite !fmap_cons, Hrows.
      split; [done|]. split; [by constructor|].
      constructor; [simpl; lia|done]. }
    split; [done|]. split; [done|]. split; [|by apply sublist_cons].
    intros x. rewrite Hmem. split.
    + intros (?&r&?&?&?). split; [done|]. exists r.
      split; [apply elem_of_cons; by right|done].
    + intros (?&r&[->|?]%elem_of_cons&Hv&?); [congruence|].
      split; [done|]. by exists r.
  - (* the record repeats an address *)
    exists (Csv.mkIssue (Some (Z.of_nat i + 2)) (Some "email")
              "Duplicate email address" (Some (address record)) :: ne), nw, nr.
    split.
    { rewrite Hrun. unfold is_duplicate at 2. simpl.
      rewrite <- app_assoc. simpl. f_equal. fold is_duplicate. lia. }
    split; [simpl; lia|]. split; [by constructor|].
    split.
    { exists ((Z.of_nat i + 2) :: rows). rewrite !fmap_cons, Hrows.
      split; [done|]. split; [by constructor|].
      constructor; [simpl; lia|done]. }
    split; [done|]. split; [done|]. split; [|by apply sublist_cons].
    intros x. rewrite Hmem. split.
    + intros (?&r&?&?&?). split; [done|]. exists r.
      split; [apply elem_of_cons; by right|done].
    + intros (Hx&r&[->|?]%elem_of_cons&Hv&->); [done|].
      split; [done|]. by exists r.
  - (* the record is accepted *)
    exists ne, (ws ++ nw),
      (Csv.mkRecipient (stored_address record) (Csv.prefix 255 name)
         (Csv.extractRecipientCustomFields record) :: nr).
    split.
    { rewrite Hrun. rewrite <- !app_assoc. simpl. f_equal.
      by rewrite (assoc_L (∪)), (comm_L (∪) (list_to_set _)). }
    split; [simpl; lia|]. split; [done|].
    split; [by exists rows|].
    split.
    { constructor; [|done]. split; [|split; [|split]]; simpl.
      - by apply isValidEmail_toLowerCase.
      - apply toLowerCase_idem.
      - unfold Csv.length. pose proof (prefix_length 255 name). lia.
      - apply extractRecipientCustomFields_clean. }
    split.
    { simpl. constructor; [|done]. intros Hin%Hmem. destruct Hin as (Hnot&_).
      by apply Hnot, elem_of_union_l, elem_of_singleton. }
    split; [|by apply sublist_skip].
    intros x. simpl. rewrite elem_of_cons, Hmem. split.
    + intros [->|(Hnot&r&?&?&?)].
      * split; [done|]. exists record. split; [by left|done].
      * split; [intros ?; by apply Hnot, elem_of_union_r|].
        exists r. split; [by right|done].
    + intros (Hx&r&[->|?]%elem_of_cons&Hv&->); [by left|].
      destruct (decide (stored_address r = stored_address record)) as [Heq|Hne];
        [by left|].
      right. split; [|by exists r].
      by intros [?%elem_of_singleton|?]%elem_of_union.
Qed.

(** The same for a whole call. *)
Lemma validateRecipients_spec records :
  let v := Csv.validateRecipients records in
  (List.length (Csv.errors v) + List.length (Csv.recipients v)
   = List.length records)%nat
  /\ Csv.valid v = bool_decide (Csv.errors v = [])
  /\ Forall (fun e => Csv.field e = Some "email") (Csv.errors v)
  /\ (exists rows,
        Csv.row <$> Csv.errors v = Some <$> rows
        /\ StronglySorted Z.lt rows
        /\ Forall (fun r => 2 <= r < 2 + Z.of_nat (List.length records)) rows)
  /\ Csv.duplicates v
     = Z.of_nat (List.length (List.filter is_duplicate (Csv.errors v)))
  /\ Forall clean (Csv.recipients v)
  /\ NoDup (Csv.email <$> Csv.recipients v)
  /\ (forall x,
        x ∈ Csv.email <$> Csv.recipients v
        <-> exists record,
              record ∈ records
              /\ Csv.isValidEmail (JString (address record)) = true
              /\ x = stored_address record)
  /\ (Csv.email <$> Csv.recipients v) `sublist_of` (stored_address <$> records).
Proof.
  unfold Csv.validateRecipients. cbv zeta.
  destruct (forEach_spec records 0 (Csv.mkState [] [] [] ∅ 0))
    as (ne&nw&nr&->&Hcount&Hfield&Hrows&Hclean&Hnodup&Hmem&Hsub).
  simpl. do 7 (split; [done|]). split; [|done].
  intros x. rewrite Hmem. simpl. split; [by intros (_&?)|].
  intros ?. split; [apply not_elem_of_empty|done].
Qed.

Lemma extractCustomFields_spec records :
  (List.length (Csv.extractCustomFields records) <= Csv.MAX_CUSTOM_FIELDS)%nat
  /\ Forall (fun f => f <> "email" /\ f <> "name")
       (Csv.extractCustomFields records).
Proof.
  destruct records as [|first records]; simpl.
  { split; [lia|constructor]. }
  split.
  - rewrite length_take. lia.
  - apply Forall_take, Forall_forall. intros f Hf.
    apply list_elem_of_In, filter_In in Hf. destruct Hf as (_&Hf).
    apply andb_true_iff in Hf. destruct Hf as (He&Hn).
    apply negb_true_iff in He, Hn. by apply String.eqb_neq in He, Hn.
Qed.

End Recipients.


(** X24. Whatever the records, the recipients [validateRecipients]
    hands on are clean and distinct: each address is a valid one in
    lower case, each name has at most 255 characters, the custom fields
    hold no [email] and no [name] and texts of at most 1000 characters,
    and no address occurs twice. *)
Theorem accepted_recipients_are_clean_and_distinct records :
  Forall clean (Csv.recipients (Csv.validateRecipients records))
  /\ NoDup (Csv.email <$> Csv.recipients (Csv.validateRecipients records)).
Proof.
  destruct (validateRecipients_spec records) as (_&_&_&_&_&Hclean&Hnodup&_).
  done.
Qed.

(** X25. The addresses [validateRecipients] accepts are those of the
    records with a valid address, trimmed and in lower case, in the
    order of the records: an address is accepted if and only if some
    record has it, so a valid address is lost only to an earlier record
    with the same address up to case. *)
Theorem accepted_addresses_are_the_valid_ones records :
  let accepted := Csv.email <$> Csv.recipients (Csv.validateRecipients records) in
  (forall x,
     x ∈ accepted
     <-> exists record,
           record ∈ records
           /\ Csv.isValidEmail (JString (address record)) = true
           /\ x = stored_address record)
  /\ accepted `sublist_of` (stored_address <$> records).
Proof.
  destruct (validateRecipients_spec records) as (_&_&_&_&_&_&_&Hmem&Hsub).
  done.
Qed.

(** X26. A result of [parseCSV] that is valid comes from a buffer that
    is not empty and not above 10 MB, which the parser read as between
    1 and 10000 records; it has no error, one recipient for each
    record, all clean and with distinct addresses, at most 20 custom
    field names, none of them [email] or [name], and a summary that
    counts every row as valid. *)
Theorem valid_upload_shape parse fileBuffer :
  Csv.res_valid (Csv.parseCSV parse fileBuffer) = true ->
  let r := Csv.parseCSV parse fileBuffer in
  0 < Csv.length fileBuffer <= Csv.MAX_FILE_SIZE
  /\ (exists records,
        parse fileBuffer = Ok records
        /\ List.length (Csv.res_recipients r) = List.length records
        /\ 1 <= Z.of_nat (List.length records) <= Csv.MAX_RECIPIENTS
        /\ Csv.res_summary r
           = Some (Csv.mkSummary (Z.of_nat (List.length records))
                     (Z.of_nat (List.length records)) 0 0))
  /\ Csv.res_errors r = []
  /\ Forall clean (Csv.res_recipients r)
  /\ NoDup (Csv.email <$> Csv.res_recipients r)
  /\ (List.length (Csv.res_customFields r) <= Csv.MAX_CUSTOM_FIELDS)%nat
  /\ Forall (fun f => f <> "email" /\ f <> "name") (Csv.res_customFields r).
Proof.
  cbv zeta. unfold Csv.parseCSV.
  destruct (Csv.MAX_FILE_SIZE <? Csv.length fileBuffer) eqn:Hbig; [done|].
  destruct (Csv.length fileBuffer =? 0) eqn:Hempty; [done|].
  destruct (parse fileBuffer) as [records|message] eqn:Hparse; [|done].
  destruct records as [|first records]; [done|].
  destruct (negb (existsb _ _)); [done|].
  set (normalizedRecords := map _ (first :: records)).
  assert (Hlen : List.length normalizedRecords = List.length (first :: records)).
  { unfold normalizedRecords. by rewrite length_map. }
  clearbody normalizedRecords.
  destruct (Csv.MAX_RECIPIENTS <? Z.of_nat (List.length normalizedRecords))
    eqn:Hmany; [done|].
  cbv zeta. cbn [Csv.res_valid Csv.res_errors Csv.res_recipients
                 Csv.res_customFields Csv.res_summary].
  destruct (validateRecipients_spec normalizedRecords)
    as (Hcount&Hvalid&_&_&Hdup&Hclean&Hnodup&_).
  cbv zeta in Hcount, Hvalid, Hdup, Hclean, Hnodup.
  destruct (extractCustomFields_spec normalizedRecords) as (Hfew&Hnames).
  remember (Csv.validateRecipients normalizedRecords) as v eqn:Hv.
  intros Herrors. rewrite Hvalid in Herrors.
  apply bool_decide_eq_true in Herrors.
  rewrite Herrors in Hcount, Hdup |- *.
  change (List.length (Csv.recipients v) = List.length normalizedRecords)
    in Hcount.
  change (Csv.duplicates v = 0) in Hdup.
  apply Z.ltb_ge in Hbig, Hmany. apply Z.eqb_neq in Hempty.
  split; [unfold Csv.length in *; lia|].
  split; [|done].
  exists (first :: records). split; [done|].
  rewrite Hdup, Hcount, Hlen. split; [done|]. split; [|done].
  rewrite Hlen in Hmany. rewrite length_cons in *. lia.
Qed.

Lemma valid_upload_shape_witness :
  let r := Csv.parseCSV DemoCsv.parse "x" in
  Csv.res_valid r = true
  /\ Csv.email <$> Csv.res_recipients r = ["ann@example.org"; "bob@example.org"]
  /\ Csv.res_customFields r = ["city"]
  /\ 0 < Csv.length "x" <= Csv.MAX_FILE_SIZE
  /\ (exists records,
        DemoCsv.parse "x" = Ok records
        /\ List.length (Csv.res_recipients r) = List.length records
        /\ 1 <= Z.of_nat (List.length records) <= Csv.MAX_RECIPIENTS
        /\ Csv.res_summary r
           = Some (Csv.mkSummary (Z.of_nat (List.length records))
                     (Z.of_nat (List.length records)) 0 0))
  /\ Csv.res_errors r = []
  /\ Forall clean (Csv.res_recipients r)
  /\ NoDup (Csv.email <$> Csv.res_recipients r)
  /\ (List.length (Csv.res_customFields r) <= Csv.MAX_CUSTOM_FIELDS)%nat
  /\ Forall (fun f => f <> "email" /\ f <> "name") (Csv.res_customFields r).
Proof.
  cbv zeta.
  split; [by vm_compute|]. split; [by vm_compute|]. split; [by vm_compute|].
  apply (valid_upload_shape DemoCsv.parse "x"). by vm_compute.
Defined.
